(** * Speaker service: embedding comparison, audio ingestion, readiness

    A shallow embedding of [server/speaker-service/speaker_service.py].

    Numbers are IEEE 754 values in the representation of the Standard
    Library's [SpecFloat] (sign, mantissa, exponent): Python floats are
    binary64, the arrays built with [dtype=np.float32] are binary32, and
    every operation rounds to nearest, ties to even.  [np.dot] accumulates
    its products in index order; the sum of a binary32 scalar and the
    Python float [1e-8] is typed by either of numpy's two promotion rules,
    and every property of [/compare] is proved for both.

    Request handlers run in a small monad that threads the module-level
    globals, may raise an exception, and logs the effects a handler
    performs, in program order: reading the upload, temporary files,
    decoding, model calls, numeric kernels.  The libraries behind the
    service (speechbrain, pyannote, torchaudio) are a class of functions
    the handlers are parameterised by.  A second class, [Faults], holds
    what the calls outside the handlers' [try] blocks may raise - creating
    and writing the temporary file, iterating the annotation - and the
    import of pyannote; the properties of the normal path are stated on
    [no_faults], where these calls succeed, the properties of the exits
    for every behaviour of them.

    The file has the definitions first - arithmetic, numpy and torch
    operations, paths, the service - and then the properties: runs of
    [/compare], uploads, the life of the globals, the error analysis of
    the binary32 operations, and the self-similarity of an embedding;
    after them the edges of [/compare], the effects and exceptions of
    every handler, the suffix of an upload, the rounded similarity
    against the match, and the way from [/embed] to [/compare]. *)

From Stdlib Require Import ZArith QArith Qpower Lia Lqa List Bool String Ascii.
From Stdlib Require Import Floats.SpecFloat.
Import ListNotations.

Open Scope Z_scope.

(* ------------------------------------------------------------------ *)
(** ** IEEE 754 arithmetic: binary32 and binary64 *)
(* ------------------------------------------------------------------ *)

Module IEEE.

Definition float := spec_float.

(** binary64: the Python [float]. *)
Definition f64_add : float -> float -> float := SFadd 53 1024.
Definition f64_div : float -> float -> float := SFdiv 53 1024.
Definition f64_leb : float -> float -> bool := SFleb.

(** binary32: [np.float32]. *)
Definition f32_add : float -> float -> float := SFadd 24 128.
Definition f32_mul : float -> float -> float := SFmul 24 128.
Definition f32_div : float -> float -> float := SFdiv 24 128.
Definition f32_sqrt : float -> float := SFsqrt 24 128.

(** Conversions.  Narrowing rounds; widening is exact, and is written with
    the same rounding function at the wider format. *)
Definition to_f32 (x : float) : float :=
  match x with
  | S754_finite s m e => binary_round 24 128 s m e
  | _ => x
  end.

Definition to_f64 (x : float) : float :=
  match x with
  | S754_finite s m e => binary_round 53 1024 s m e
  | _ => x
  end.

(** The binary64 nearest to the integer [n] and to the fraction [n / d]:
    what Python reads from a literal such as [0.80] or [1e-8]. *)
Definition f64_of_Z (n : Z) : float :=
  binary_normalize 53 1024 n 0 false.

Definition f64_frac (n : Z) (d : positive) : float :=
  match n with
  | Z0 => S754_zero false
  | Zpos p => SFdiv 53 1024 (S754_finite false p 0) (S754_finite false d 0)
  | Zneg p => SFdiv 53 1024 (S754_finite true p 0) (S754_finite false d 0)
  end.

(** Round half to even of the fraction [n / d], for [n >= 0]. *)
Definition div_half_even (n : Z) (d : Z) : Z :=
  let (q, r) := Z.div_eucl n d in
  match 2 * r ?= d with
  | Lt => q
  | Gt => q + 1
  | Eq => if Z.even q then q else q + 1
  end.

(** [round(x, ndigits)] of a Python float, for [ndigits >= 0]: the decimal
    with [ndigits] places nearest to the exact value of [x] (ties to the
    even digit), converted back to the nearest binary64; zeros, infinities
    and NaN are returned as they are. *)
Definition py_round (x : float) (ndigits : nat) : float :=
  match x with
  | S754_finite s m e =>
      let p := Z.pow 10 (Z.of_nat ndigits) in
      if 0 <=? e then x
      else
        let k := div_half_even (Zpos m * p) (Z.pow 2 (- e)) in
        match k with
        | Zpos kp => SFdiv 53 1024 (S754_finite s kp 0)
                       (S754_finite false (Z.to_pos p) 0)
        | _ => S754_zero s
        end
  | _ => x
  end.

End IEEE.

Import IEEE.

(* ------------------------------------------------------------------ *)
(** ** numpy kernels used by [/compare] *)
(* ------------------------------------------------------------------ *)

Module Numpy.

(** A one-dimensional [float32] array is the list of its elements; a
    general array carries its shape. *)
Record ndarray := { shape : list nat; data : list float }.

Definition ndim (a : ndarray) : nat := List.length (shape a).

(** [np.array(xs, dtype=np.float32)] on a flat list of Python floats. *)
Definition array_f32 (xs : list float) : ndarray :=
  {| shape := [List.length xs]; data := List.map to_f32 xs |}.

(** [np.dot] of two one-dimensional float32 arrays of equal length:
    products accumulated in binary32, in index order.  The kernel behind
    [np.dot] may add the products in another order; the order does not
    matter for arrays of one or two elements, nor wherever every partial
    sum is exact. *)
Fixpoint dot_from (acc : float) (a b : list float) : float :=
  match a, b with
  | x :: a', y :: b' => dot_from (f32_add acc (f32_mul x y)) a' b'
  | _, _ => acc
  end.

Definition dot (a b : list float) : float := dot_from (S754_zero false) a b.

(** [np.linalg.norm] of a one-dimensional real array is
    [sqrt(x.dot(x))]. *)
Definition norm (a : list float) : float := f32_sqrt (dot a a).

End Numpy.

Import Numpy.

(* ------------------------------------------------------------------ *)
(** ** Strings: [os.path.splitext] and [str.lower] *)
(* ------------------------------------------------------------------ *)

Module Path.

Open Scope string_scope.

(** [p.rfind(c)]: index of the last occurrence of [c], or [-1]. *)
Fixpoint rfind_from (c : ascii) (p : string) (i last : Z) : Z :=
  match p with
  | EmptyString => last
  | String x r => rfind_from c r (i + 1) (if Ascii.eqb x c then i else last)
  end.

Definition rfind (c : ascii) (p : string) : Z := rfind_from c p 0 (-1).

(** [p[i:]] and [p[:i]] for [0 <= i]. *)
Definition slice_from (p : string) (i : Z) : string :=
  substring (Z.to_nat i) (String.length p - Z.to_nat i) p.

Definition slice_to (p : string) (i : Z) : string :=
  substring 0 (Z.to_nat i) p.

(** The loop of [genericpath._splitext] that skips the leading dots of the
    last path component: [true] when a character other than the dot is
    met at an index in [filenameIndex, dotIndex). *)
Fixpoint has_non_dot (p : string) (filenameIndex : Z) (steps : nat) : bool :=
  match steps with
  | O => false
  | S n =>
      match get (Z.to_nat filenameIndex) p with
      | Some c =>
          if Ascii.eqb c "." then has_non_dot p (filenameIndex + 1) n
          else true
      | None => true
      end
  end.

(** [os.path.splitext] (POSIX: separator [/], no alternative). *)
Definition splitext (p : string) : string * string :=
  let sepIndex := rfind "/" p in
  let dotIndex := rfind "." p in
  if (sepIndex <? dotIndex)%Z
     && has_non_dot p (sepIndex + 1) (Z.to_nat (dotIndex - (sepIndex + 1)))
  then (slice_to p dotIndex, slice_from p dotIndex)
  else (p, "").

(** [str.lower] on the characters the extensions are written in. *)
Definition lower_char (c : ascii) : ascii :=
  let n := nat_of_ascii c in
  if (65 <=? n)%nat && (n <=? 90)%nat then ascii_of_nat (n + 32) else c.

Fixpoint lower (s : string) : string :=
  match s with
  | EmptyString => EmptyString
  | String c r => String (lower_char c) (lower r)
  end.

Fixpoint mem (s : string) (l : list string) : bool :=
  match l with
  | [] => false
  | x :: r => String.eqb s x || mem s r
  end.

End Path.

(* ------------------------------------------------------------------ *)
(** ** Torch tensors, as far as [_load_audio] and [embed] use them *)
(* ------------------------------------------------------------------ *)

Module Torch.

Definition Tensor := ndarray.

Definition numel (sh : list nat) : nat := List.fold_right Nat.mul 1%nat sh.

(** The rows of a tensor along its first dimension. *)
Fixpoint rows (n : nat) (width : nat) (d : list float) : list (list float) :=
  match n with
  | O => []
  | S k => firstn width d :: rows k width (skipn width d)
  end.

Fixpoint add_rows (a b : list float) : list float :=
  match a, b with
  | x :: a', y :: b' => f32_add x y :: add_rows a' b'
  | _, _ => []
  end.

(** [t.mean(dim=0, keepdim=True)]: the rows are added one after the
    other from zero, in binary32, and the sums divided by the number of
    rows. *)
Definition mean_dim0 (t : Tensor) : Tensor :=
  match shape t with
  | c :: rest =>
      let w := numel rest in
      let sums := List.fold_left add_rows (rows c w (data t))
                    (List.repeat (S754_zero false) w) in
      let cnt := to_f32 (f64_of_Z (Z.of_nat c)) in
      {| shape := 1%nat :: rest;
         data := List.map (fun s => f32_div s cnt) sums |}
  | [] => t
  end.

(** [t.squeeze(0)]: drops the first dimension when its size is one. *)
Definition squeeze0 (t : Tensor) : Tensor :=
  match shape t with
  | 1%nat :: rest => {| shape := rest; data := data t |}
  | _ => t
  end.

(** [t.unsqueeze(0)]. *)
Definition unsqueeze0 (t : Tensor) : Tensor :=
  {| shape := 1%nat :: shape t; data := data t |}.

(** [t.squeeze()]: drops every dimension of size one. *)
Definition squeeze (t : Tensor) : Tensor :=
  {| shape := List.filter (fun n => negb (Nat.eqb n 1)) (shape t);
     data := data t |}.

(** [len(t)]: the size of the first dimension. *)
Definition len (t : Tensor) : Z := Z.of_nat (List.hd 0%nat (shape t)).

End Torch.

Import Torch.

(* ------------------------------------------------------------------ *)
(** ** The service: globals, effects, handlers *)
(* ------------------------------------------------------------------ *)

Module Service.

Open Scope string_scope.

(** A reference to a loaded model object. *)
Definition object := nat.

(** The module-level globals of [speaker_service.py]. *)
Record Globals := {
  ecapa_model : option object;
  diarization_pipeline : option object;
  models_loaded : bool;
  diarization_available : bool
}.

(** Their values when the module has been imported. *)
Definition module_init : Globals :=
  {| ecapa_model := None;
     diarization_pipeline := None;
     models_loaded := false;
     diarization_available := false |}.

Inductive exn :=
| HTTPException (status_code : Z) (detail : string)
| Exception (msg : string).

Variant arith_op := OpDot | OpNorm | OpMul | OpAdd | OpDiv.

(** What a handler does to the world around it, in program order. *)
Inductive event :=
| EvPrint (msg : string)
| EvFromHparams                       (* EncoderClassifier.from_hparams *)
| EvFromPretrained (token : string)   (* Pipeline.from_pretrained *)
| EvRead                              (* await file.read() *)
| EvTmpWrite (suffix : string)        (* NamedTemporaryFile(...).write *)
| EvTmpCreate (suffix : string)       (* the file was created, the write raised *)
| EvUnlink                            (* os.unlink(tmp_path), which succeeds *)
| EvTorchaudioLoad                    (* torchaudio.load(tmp_path) *)
| EvResample (orig_freq new_freq : Z) (* torchaudio.functional.resample *)
| EvEncodeBatch                       (* ecapa_model.encode_batch *)
| EvPipeline                          (* diarization_pipeline(tmp_path) *)
| EvArith (op : arith_op).            (* a numpy kernel or scalar operation *)

Inductive outcome (A : Type) :=
| Return (a : A)
| Raise (e : exn).
Arguments Return {A} a.
Arguments Raise {A} e.

(** Computations over the globals that may raise and that log events. *)
Definition M (A : Type) : Type := Globals -> outcome A * Globals * list event.

Definition ret {A} (a : A) : M A := fun g => (Return a, g, []).

Definition raise {A} (e : exn) : M A := fun g => (Raise e, g, []).

Definition bind {A B} (c : M A) (k : A -> M B) : M B :=
  fun g =>
    match c g with
    | (Return a, g1, t1) =>
        match k a g1 with (r, g2, t2) => (r, g2, (t1 ++ t2)%list) end
    | (Raise e, g1, t1) => (Raise e, g1, t1)
    end.

Definition read_globals : M Globals := fun g => (Return g, g, []).

Definition write_globals (g' : Globals) : M unit := fun _ => (Return tt, g', []).

Definition tell (e : event) : M unit := fun g => (Return tt, g, [e]).

Notation "x <- c ;; k" := (bind c (fun x => k))
  (at level 61, c at next level, right associativity).
Notation "c ;;; k" := (bind c (fun _ => k))
  (at level 61, right associativity).

Definition result {A} (r : outcome A * Globals * list event) : outcome A := fst (fst r).
Definition globals_after {A} (r : outcome A * Globals * list event) : Globals := snd (fst r).
Definition trace {A} (r : outcome A * Globals * list event) : list event := snd r.

(** *** Collaborators outside the repository *)

(** How numpy types [float32_scalar + python_float]: as binary64 with the
    value-based promotion of NumPy 1.x, as binary32 since NumPy 2. *)
Variant promotion := Legacy | Weak.

Class External := {
  (* the import of EncoderClassifier and EncoderClassifier.from_hparams:
     the loaded model, or the exception of either *)
  from_hparams : string + object;
  (* Pipeline.from_pretrained(name, use_auth_token): a pipeline, [None],
     or the exception *)
  from_pretrained : string -> string + option object;
  (* torchaudio.load on a file with these bytes and this suffix *)
  torchaudio_load : list Byte.byte -> string -> string + (Tensor * Z);
  (* torchaudio.functional.resample *)
  resample : Tensor -> Z -> Z -> Tensor;
  (* model.encode_batch *)
  encode_batch : object -> Tensor -> string + Tensor;
  (* pipeline(path): the tracks (start, end, speaker) of the annotation
     it returns, or the exception *)
  run_pipeline : object -> list Byte.byte -> string
                 -> string + list (float * float * string)
}.

(** What the calls that sit outside the handlers' own [try] blocks, and
    the import of pyannote inside [_load_models], may raise: [None] when
    the call succeeds, the exception otherwise. *)
Class Faults := {
  (* from pyannote.audio import Pipeline *)
  import_fault : option string;
  (* tempfile.NamedTemporaryFile(suffix=suffix, delete=False): a suffix
     with a NUL or one that makes the name too long, no room, ... *)
  mkstemp_fault : string -> option string;
  (* tmp.write(data), and the close at the end of the with block *)
  write_fault : list Byte.byte -> option string;
  (* iterating result.itertracks(yield_label=True) *)
  itertracks_fault : list (float * float * string) -> option string
}.

(** The calls succeed. *)
#[export] Instance no_faults : Faults := {
  import_fault := None;
  mkstemp_fault := fun _ => None;
  write_fault := fun _ => None;
  itertracks_fault := fun _ => None
}.

(** *** Requests and responses *)

Record UploadFile := { filename : option string; content : list Byte.byte }.

Record CompareRequest := { embedding_a : list float; embedding_b : list float }.

Record CompareResponse := { similarity : float; is_match : bool }.

Record EmbedResponse := { embedding : list float; duration_s : float }.

Record DiarizeSegment := { speaker : string; start : float; end_ : float }.

Record DiarizeResponse := { segments : list DiarizeSegment }.

Record HealthResponse := {
  status : string;
  health_models_loaded : bool;
  health_diarization_available : bool
}.

(** *** Helpers *)

Definition SUPPORTED_EXTENSIONS : list string :=
  [".wav"; ".mp3"; ".ogg"; ".webm"; ".m4a"; ".flac"; ".aac"].

(** [filename or "audio.wav"]: [None] and the empty string are falsy. *)
Definition or_default (filename : option string) : string :=
  match filename with
  | None => "audio.wav"
  | Some EmptyString => "audio.wav"
  | Some s => s
  end.

(** [os.path.splitext(filename or "audio.wav")[1].lower()] *)
Definition suffix_of (filename : option string) : string :=
  Path.lower (snd (Path.splitext (or_default filename))).

Fixpoint shape_eqb (s t : list nat) : bool :=
  match s, t with
  | [], [] => true
  | x :: s', y :: t' => Nat.eqb x y && shape_eqb s' t'
  | _, _ => false
  end.

(** The Python literals [0.80], [1e-8] and [16000.0]. *)
Definition THRESHOLD : float := S754_finite false 7205759403792794 (-53).
Definition EPSILON : float := S754_finite false 6044629098073146 (-79).
Definition RATE : float := S754_finite false 8796093022208000 (-39).

Definition arith {A} (op : arith_op) (v : A) : M A :=
  tell (EvArith op) ;;; ret v.

Section Handlers.

Variable promo : promotion.
Context {flt : Faults} {ext : External}.

(** *** Startup *)

(** [_load_models], given [os.environ.get]. *)
Definition _load_models (environ : string -> option string) : M unit :=
  tell EvFromHparams ;;;
  match from_hparams with
  | inl exc => raise (Exception exc)
  | inr model =>
      g <- read_globals ;;
      write_globals {| ecapa_model := Some model;
                       diarization_pipeline := diarization_pipeline g;
                       models_loaded := models_loaded g;
                       diarization_available := diarization_available g |} ;;;
      tell (EvPrint "[speaker-service] ECAPA-TDNN loaded") ;;;
      match environ "HF_TOKEN" with
      | Some (String c r as hf_token) =>
          (* try: the import, then the call *)
          match import_fault with
          | Some exc =>
              tell (EvPrint ("[speaker-service] pyannote failed to load: " ++ exc))
          | None =>
              tell (EvFromPretrained hf_token) ;;;
              match from_pretrained hf_token with
              | inr pipeline =>
                  g <- read_globals ;;
                  write_globals {| ecapa_model := ecapa_model g;
                                   diarization_pipeline := pipeline;
                                   models_loaded := models_loaded g;
                                   diarization_available := true |} ;;;
                  tell (EvPrint "[speaker-service] pyannote diarization loaded")
              | inl exc =>
                  tell (EvPrint ("[speaker-service] pyannote failed to load: " ++ exc))
              end
          end
      | _ =>
          tell (EvPrint "[speaker-service] HF_TOKEN not set — /diarize disabled")
      end ;;;
      g <- read_globals ;;
      write_globals {| ecapa_model := ecapa_model g;
                       diarization_pipeline := diarization_pipeline g;
                       models_loaded := true;
                       diarization_available := diarization_available g |}
  end.

(** *** Audio ingestion *)

(** [with tempfile.NamedTemporaryFile(suffix=suffix, delete=False) as tmp:
    tmp.write(data)], which both handlers run before their [try]: an
    exception of the constructor leaves no file, an exception of the
    write leaves the file where it is. *)
Definition write_temp (suffix : string) (data : list Byte.byte) : M unit :=
  match mkstemp_fault suffix with
  | Some exc => raise (Exception exc)
  | None =>
      match write_fault data with
      | Some exc => tell (EvTmpCreate suffix) ;;; raise (Exception exc)
      | None => tell (EvTmpWrite suffix)
      end
  end.

Definition _load_audio (data : list Byte.byte) (filename : option string)
  : M Tensor :=
  let suffix := suffix_of filename in
  if negb (Path.mem suffix SUPPORTED_EXTENSIONS) then
    raise (HTTPException 400 ("Unsupported format: " ++ suffix))
  else
    write_temp suffix data ;;;
    tell EvTorchaudioLoad ;;;
    match torchaudio_load data suffix with
    | inl exc =>
        tell EvUnlink ;;;
        raise (HTTPException 400 ("Cannot decode audio: " ++ exc))
    | inr (waveform, sr) =>
        tell EvUnlink ;;;
        (* Mono *)
        let waveform :=
          if (1 <? List.hd 0 (shape waveform))%nat
          then mean_dim0 waveform else waveform in
        (* Resample to 16 kHz *)
        waveform <- (if negb (sr =? 16000)%Z
                     then tell (EvResample sr 16000) ;;;
                          ret (resample waveform sr 16000)
                     else ret waveform) ;;
        ret (squeeze0 waveform)
    end.

(** *** Endpoints *)

Definition health : M HealthResponse :=
  g <- read_globals ;;
  ret {| status := "ok";
         health_models_loaded := models_loaded g;
         health_diarization_available := diarization_available g |}.

Definition embed (file : UploadFile) : M EmbedResponse :=
  g <- read_globals ;;
  match ecapa_model g with
  | None => raise (HTTPException 503 "Model not loaded")
  | Some model =>
      tell EvRead ;;;
      waveform <- _load_audio (content file) (filename file) ;;
      let duration_s := f64_div (f64_of_Z (len waveform)) RATE in
      (* SpeechBrain expects batch dim *)
      let batch := unsqueeze0 waveform in
      tell EvEncodeBatch ;;;
      match encode_batch model batch with
      | inl exc => raise (Exception exc)
      | inr out =>
          ret {| embedding := List.map to_f64 (data (squeeze out));
                 duration_s := py_round duration_s 3 |}
      end
  end.

(** The scalar expression of [compare]:
    [np.dot(a, b) / (np.linalg.norm(a) * np.linalg.norm(b) + 1e-8)]. *)
Definition add_epsilon (p : float) : float :=
  match promo with
  | Legacy => f64_add (to_f64 p) EPSILON
  | Weak => f32_add p (to_f32 EPSILON)
  end.

Definition quotient (d s : float) : float :=
  match promo with
  | Legacy => f64_div (to_f64 d) s
  | Weak => f32_div d s
  end.

Definition compare_arrays (a b : ndarray) : M CompareResponse :=
  if negb (shape_eqb (shape a) (shape b)) || negb (ndim a =? 1)%nat then
    raise (HTTPException 400 "Embeddings must be 1-D arrays of equal length")
  else
    d <- arith OpDot (dot (data a) (data b)) ;;
    na <- arith OpNorm (norm (data a)) ;;
    nb <- arith OpNorm (norm (data b)) ;;
    p <- arith OpMul (f32_mul na nb) ;;
    s <- arith OpAdd (add_epsilon p) ;;
    q <- arith OpDiv (quotient d s) ;;
    let cos_sim := to_f64 q in
    ret {| similarity := py_round cos_sim 4;
           is_match := f64_leb THRESHOLD cos_sim |}.

Definition compare (req : CompareRequest) : M CompareResponse :=
  let a := array_f32 (embedding_a req) in
  let b := array_f32 (embedding_b req) in
  compare_arrays a b.

Definition diarize (file : UploadFile) : M DiarizeResponse :=
  g <- read_globals ;;
  match diarization_pipeline g with
  | None =>
      raise (HTTPException 503
        "Diarization not available. Set HF_TOKEN and accept pyannote model terms.")
  | Some pipeline =>
      tell EvRead ;;;
      let suffix := suffix_of (filename file) in
      write_temp suffix (content file) ;;;
      tell EvPipeline ;;;
      match run_pipeline pipeline (content file) suffix with
      | inl exc =>
          tell EvUnlink ;;;
          raise (HTTPException 500 ("Diarization failed: " ++ exc))
      | inr tracks =>
          tell EvUnlink ;;;
          (* the loop over itertracks is outside the try *)
          match itertracks_fault tracks with
          | Some exc => raise (Exception exc)
          | None =>
              ret {| segments :=
                       List.map (fun '(turn_start, turn_end, label) =>
                                   {| speaker := label;
                                      start := py_round turn_start 3;
                                      end_ := py_round turn_end 3 |}) tracks |}
          end
      end
  end.

(** *** The process: startup, then requests *)

Inductive request :=
| GetHealth
| PostEmbed (file : UploadFile)
| PostCompare (req : CompareRequest)
| PostDiarize (file : UploadFile).

(** One request, observed through what it does to the globals and to
    the world. *)
Definition handle (r : request) (g : Globals) : Globals * list event :=
  match r with
  | GetHealth => let x := health g in (globals_after x, trace x)
  | PostEmbed file => let x := embed file g in (globals_after x, trace x)
  | PostCompare req => let x := compare req g in (globals_after x, trace x)
  | PostDiarize file => let x := diarize file g in (globals_after x, trace x)
  end.

Variant phase := Imported | Serving | Failed.

Record process := { stage : phase; globals : Globals }.

(** [lifespan] runs [_load_models] before the application yields to the
    server; requests are served only after it returned. *)
Inductive step (environ : string -> option string) : process -> process -> Prop :=
| step_startup g g' t :
    _load_models environ g = (Return tt, g', t) ->
    step environ {| stage := Imported; globals := g |}
                 {| stage := Serving; globals := g' |}
| step_startup_failed g g' e t :
    _load_models environ g = (Raise e, g', t) ->
    step environ {| stage := Imported; globals := g |}
                 {| stage := Failed; globals := g' |}
| step_request g r :
    step environ {| stage := Serving; globals := g |}
                 {| stage := Serving; globals := fst (handle r g) |}.

Inductive reachable (environ : string -> option string) : process -> Prop :=
| reachable_init :
    reachable environ {| stage := Imported; globals := module_init |}
| reachable_step p q :
    reachable environ p -> step environ p q -> reachable environ q.

End Handlers.

End Service.

Import Service.

(* ------------------------------------------------------------------ *)
(** ** Notions the properties are stated with *)
(* ------------------------------------------------------------------ *)

Module Notions.

Open Scope string_scope.

(** The value [compare] computes before rounding it for the response. *)
Definition cos_sim (promo : promotion) (a b : list float) : float :=
  to_f64 (quotient promo (dot a b) (add_epsilon promo (f32_mul (norm a) (norm b)))).

(** The response built from that value. *)
Definition respond (c : float) : CompareResponse :=
  {| similarity := py_round c 4; is_match := f64_leb THRESHOLD c |}.

Definition ONE : float := S754_finite false 4503599627370496 (-52).
Definition HALF : float := S754_finite false 4503599627370496 (-53).

Definition is_zero (x : float) : bool :=
  match x with S754_zero _ => true | _ => false end.

(** An embedding with a component other than zero. *)
Definition nonzero (x : list float) : bool :=
  List.existsb (fun v => negb (is_zero (to_f32 v))) x.

Definition arith_events : list event :=
  [EvArith OpDot; EvArith OpNorm; EvArith OpNorm;
   EvArith OpMul; EvArith OpAdd; EvArith OpDiv].

Definition shape_mismatch : exn :=
  HTTPException 400 "Embeddings must be 1-D arrays of equal length".

Definition unsupported_format (suffix : string) : exn :=
  HTTPException 400 ("Unsupported format: " ++ suffix).

Definition diarization_unavailable : exn :=
  HTTPException 503
    "Diarization not available. Set HF_TOKEN and accept pyannote model terms.".

(** The upload is turned away for its format before the service touches
    a temporary file, the decoder or a model. *)
Definition rejected_for_format {A} (suffix : string)
  (run : outcome A * Globals * list event) : Prop :=
  result run = Raise (unsupported_format suffix)
  /\ forall e, In e (trace run) -> e = EvRead.

(** What the claim C2 says of a handler that takes an upload. *)
Definition checks_format {A} (handler : UploadFile -> M A) : Prop :=
  forall file g,
    Path.mem (suffix_of (filename file)) SUPPORTED_EXTENSIONS = false ->
    rejected_for_format (suffix_of (filename file)) (handler file g).




(** The globals of a process: those of the import until startup, those
    [_load_models] left from then on. *)
Definition globals_invariant `{Faults} `{External}
  (environ : string -> option string)
  (p : process) : Prop :=
  match stage p with
  | Imported => globals p = module_init
  | Serving => exists t, _load_models environ module_init = (Return tt, globals p, t)
  | Failed => True
  end.

(** What the claim C1 says of an embedding [x]. *)
Definition self_similar (promo : promotion) (x : list float) : Prop :=
  forall g, exists resp,
    result (compare promo {| embedding_a := x; embedding_b := x |} g) = Return resp
    /\ similarity resp = ONE.

(** *** A concrete world, for examples *)

Definition stereo : Tensor :=
  {| shape := [2; 3]%nat;
     data := List.map (fun n => to_f32 (f64_of_Z n)) [1; 2; 3; 5; 6; 7] |}.

#[local] Instance demo : External := {
  from_hparams := inr 1%nat;
  from_pretrained := fun _ => inr (Some 2%nat);
  torchaudio_load := fun _ _ => inr (stereo, 44100);
  resample := fun t _ _ => t;
  encode_batch := fun _ t => inr t;
  run_pipeline := fun _ _ _ => inr [(f64_of_Z 0, f64_of_Z 1, "SPEAKER_00")]
}.

Definition no_environ : string -> option string := fun _ => None.

Definition token_environ : string -> option string :=
  fun k => if String.eqb k "HF_TOKEN" then Some "hf_secret" else None.

(** The globals after a startup that loaded both models. *)
Definition loaded : Globals :=
  {| ecapa_model := Some 1%nat;
     diarization_pipeline := Some 2%nat;
     models_loaded := true;
     diarization_available := true |}.

(** The globals after a startup without a token. *)
Definition embedding_only : Globals :=
  {| ecapa_model := Some 1%nat;
     diarization_pipeline := None;
     models_loaded := true;
     diarization_available := false |}.

Definition upload (name : string) : UploadFile :=
  {| filename := Some name; content := [] |}.

(** A process that started with a token and is serving requests. *)
Definition serving_loaded : process :=
  {| stage := Serving; globals := loaded |}.

(** A process that started without a token and is serving requests. *)
Definition serving_embedding_only : process :=
  {| stage := Serving; globals := embedding_only |}.

End Notions.

Import Notions.

(* ------------------------------------------------------------------ *)
(** ** The rational value of a floating-point number *)
(* ------------------------------------------------------------------ *)

Module Values.

Definition pow2 (e : Z) : Q := Qpower 2 e.

(** The value of the mantissa [m] at the exponent [e]. *)
Definition F2Q (m e : Z) : Q := (inject_Z m * pow2 e)%Q.

(** A positive normal number of the format: [prec] digits, exponent in range. *)
Definition normal (prec emax : Z) (m : positive) (e : Z) : Prop :=
  2 ^ (prec - 1) <= Zpos m < 2 ^ prec
  /\ emin prec emax <= e <= emax - prec.

(** One unit in the last place of a number in [1, 2). *)
Definition unit_roundoff (prec : Z) : Q := pow2 (1 - prec).

Definition is_finite (x : float) : bool :=
  match x with S754_finite _ _ _ | S754_zero _ => true | _ => false end.

(** The value of a finite number (and zero for the others). *)
Definition SF2Q (x : float) : Q :=
  match x with
  | S754_finite s m e => F2Q (cond_Zopp s (Zpos m)) e
  | _ => 0%Q
  end.

(** The binary32 numbers [2^-12] and [2^126]. *)
Definition NORM_LOW : float := S754_finite false 8388608 (-35).
Definition NORM_HIGH : float := S754_finite false 8388608 103.

End Values.

Import Values.

(* ------------------------------------------------------------------ *)
(** ** Further notions: logs, tensors, names and worlds *)
(* ------------------------------------------------------------------ *)

Module Observations.

(** The upload went into a temporary file: the constructor and the write
    both returned. *)
Definition temp_written `{Faults} (suffix : string) (data : list Byte.byte)
  : Prop :=
  mkstemp_fault suffix = None /\ write_fault data = None.

Definition all_zero (x : list float) : bool := List.forallb is_zero x.

Definition ZERO : float := S754_zero false.

(** Every number of the list is a binary32 number. *)
Definition all_f32 (x : list float) : bool :=
  List.forallb (valid_binary 24 128) x.

(** The temporary file along a log: [None] when the log creates a file
    while one exists, or reads or removes one that does not exist;
    otherwise whether a file exists at the end. *)
Fixpoint temp_files (file_exists : bool) (tr : list event) : option bool :=
  match tr with
  | [] => Some file_exists
  | (EvTmpWrite _ | EvTmpCreate _) :: r =>
      if file_exists then None else temp_files true r
  | EvUnlink :: r => if file_exists then temp_files false r else None
  | (EvTorchaudioLoad | EvPipeline) :: r =>
      if file_exists then temp_files true r else None
  | _ :: r => temp_files file_exists r
  end.

(** The request reaches the write of its temporary file, and the write
    raises. *)
Definition write_raises `{Faults} (r : request) (g : Globals) : Prop :=
  exists file exc,
    mkstemp_fault (suffix_of (filename file)) = None
    /\ write_fault (content file) = Some exc
    /\ ((r = PostEmbed file /\ ecapa_model g <> None
         /\ Path.mem (suffix_of (filename file)) SUPPORTED_EXTENSIONS = true)
        \/ (r = PostDiarize file /\ diarization_pipeline g <> None)).

(** A tensor holds as many numbers as its shape says. *)
Definition well_formed (t : Tensor) : Prop :=
  List.length (data t) = numel (shape t).



(** The exact scalar product of the numbers two lists hold. *)
Fixpoint dotQ (a b : list float) : Q :=
  match a, b with
  | x :: a', y :: b' => (SF2Q x * SF2Q y + dotQ a' b')%Q
  | _, _ => 0%Q
  end.

(** The cosine of the angle between [a] and [b] is exactly [r], for
    [r >= 0]: [a.b = r |a| |b|], written without the square roots. *)
Definition cosine_is (a b : list float) (r : Q) : Prop :=
  (0 <= r /\ 0 <= dotQ a b /\ 0 < dotQ a a * dotQ b b
   /\ dotQ a b * dotQ a b == r * r * (dotQ a a * dotQ b b))%Q.

(** A name of [n] times the character [c]. *)
Fixpoint repeat_char (c : ascii) (n : nat) : string :=
  match n with
  | O => EmptyString
  | S k => String c (repeat_char c k)
  end.

(** [c in s] for a character [c]. *)
Fixpoint contains (c : ascii) (s : string) : bool :=
  match s with
  | EmptyString => false
  | String x r => Ascii.eqb x c || contains c r
  end.

(** A decoder that reads every upload as the stereo clip at 16 kHz, and a
    pipeline that fails. *)
#[local] Instance studio : External := {
  from_hparams := inr 1%nat;
  from_pretrained := fun _ => inr (Some 2%nat);
  torchaudio_load := fun _ _ => inr (stereo, 16000%Z);
  resample := fun t _ _ => t;
  encode_batch := fun _ t => inr t;
  run_pipeline := fun _ _ _ => inl "out of memory"%string
}.

(** A hub that answers a gated pipeline with nothing instead of raising. *)
#[local] Instance gated : External := {
  from_hparams := inr 1%nat;
  from_pretrained := fun _ => inr None;
  torchaudio_load := fun _ _ => inr (stereo, 16000%Z);
  resample := fun t _ _ => t;
  encode_batch := fun _ t => inr t;
  run_pipeline := fun _ _ _ => inr []
}.

(** A file system that refuses names longer than 255 bytes (the temporary
    name is eleven characters and the suffix) and uploads of more than a
    thousand bytes. *)
#[local] Instance fussy : Faults := {
  import_fault := None;
  mkstemp_fault := fun suffix =>
    if (244 <? String.length suffix)%nat
    then Some "[Errno 36] File name too long"%string else None;
  write_fault := fun data =>
    if (1000 <? List.length data)%nat
    then Some "[Errno 28] No space left on device"%string else None;
  itertracks_fault := fun _ => None
}.

(** An installation without pyannote. *)
#[local] Instance no_pyannote : Faults := {
  import_fault := Some "No module named 'pyannote'"%string;
  mkstemp_fault := fun _ => None;
  write_fault := fun _ => None;
  itertracks_fault := fun _ => None
}.

(** The globals after a startup in which the hub gave no pipeline. *)
Definition flagged_without_pipeline : Globals :=
  {| ecapa_model := Some 1%nat;
     diarization_pipeline := None;
     models_loaded := true;
     diarization_available := true |}.

End Observations.

Import Observations.

(* ------------------------------------------------------------------ *)
(** ** Running handlers *)
(* ------------------------------------------------------------------ *)

Ltac run_handler :=
  cbv [bind ret raise tell arith read_globals write_globals
       result trace globals_after]; simpl.

Section CompareRuns.

Variable promo : promotion.

Lemma shape_eqb_spec (s t : list nat) : shape_eqb s t = true <-> s = t.
Proof.
  revert t; induction s as [|x s IH]; intros [|y t]; simpl;
    try (split; [discriminate|intros H; discriminate H]); [tauto|].
  rewrite andb_true_iff, Nat.eqb_eq, IH.
  split; [intros [-> ->]; reflexivity | intros H; inversion H; auto].
Qed.

Lemma shape_eqb_sym (s t : list nat) : shape_eqb s t = shape_eqb t s.
Proof.
  revert t; induction s as [|x s IH]; intros [|y t]; simpl; auto.
  rewrite IH, Nat.eqb_sym; reflexivity.
Qed.

(** On one-dimensional arrays of one shape the handler evaluates the scalar
    expression, logging its six operations, and leaves the globals alone. *)
Lemma compare_arrays_returns (a b : ndarray) (g : Globals) :
  shape a = shape b -> ndim a = 1%nat ->
  compare_arrays promo a b g
  = (Return (respond (cos_sim promo (data a) (data b))), g, arith_events).
Proof.
  intros Hs Hn. unfold compare_arrays.
  apply shape_eqb_spec in Hs. rewrite Hs, Hn. simpl.
  reflexivity.
Qed.

Lemma compare_arrays_raises (a b : ndarray) (g : Globals) :
  shape a <> shape b \/ ndim a <> 1%nat ->
  compare_arrays promo a b g = (Raise shape_mismatch, g, []).
Proof.
  intros H. unfold compare_arrays.
  destruct (shape_eqb (shape a) (shape b)) eqn:Es; simpl; [|reflexivity].
  destruct (Nat.eqb_spec (ndim a) 1); simpl; [|reflexivity].
  apply shape_eqb_spec in Es. tauto.
Qed.

Lemma compare_returns (xs ys : list float) (g : Globals) :
  List.length xs = List.length ys ->
  compare promo {| embedding_a := xs; embedding_b := ys |} g
  = (Return (respond (cos_sim promo (List.map to_f32 xs) (List.map to_f32 ys))),
     g, arith_events).
Proof.
  intros H. unfold compare. simpl.
  rewrite compare_arrays_returns; simpl; [reflexivity|congruence|reflexivity].
Qed.

Lemma compare_raises (xs ys : list float) (g : Globals) :
  List.length xs <> List.length ys ->
  compare promo {| embedding_a := xs; embedding_b := ys |} g
  = (Raise shape_mismatch, g, []).
Proof.
  intros H. unfold compare. simpl.
  apply compare_arrays_raises. left. simpl. congruence.
Qed.

End CompareRuns.

(* ------------------------------------------------------------------ *)
(** ** Symmetry of the kernels *)
(* ------------------------------------------------------------------ *)

Lemma SFmul_comm (prec emax : Z) (x y : float) :
  SFmul prec emax x y = SFmul prec emax y x.
Proof.
  destruct x as [sx|sx| |sx mx ex], y as [sy|sy| |sy my ey]; simpl;
    try reflexivity; try (rewrite xorb_comm; reflexivity).
  rewrite xorb_comm, Pos.mul_comm, Z.add_comm. reflexivity.
Qed.

Lemma dot_from_comm (a b : list float) (acc : float) :
  dot_from acc a b = dot_from acc b a.
Proof.
  revert b acc; induction a as [|x a IH]; intros [|y b] acc; simpl; auto.
  unfold f32_mul. rewrite (SFmul_comm 24 128 x y). apply IH.
Qed.

Lemma dot_comm (a b : list float) : dot a b = dot b a.
Proof. apply dot_from_comm. Qed.

Lemma cos_sim_comm (promo : promotion) (a b : list float) :
  cos_sim promo a b = cos_sim promo b a.
Proof.
  unfold cos_sim, f32_mul.
  rewrite (dot_comm a b), (SFmul_comm 24 128 (norm a) (norm b)). reflexivity.
Qed.

(** C7: [compare(a, b)] and [compare(b, a)] give the same response - the
    same similarity and the same [is_match] - for every pair of embeddings
    (and the same error when their lengths differ). *)
Theorem compare_symmetric (promo : promotion) (a b : list float) (g : Globals) :
  compare promo {| embedding_a := a; embedding_b := b |} g
  = compare promo {| embedding_a := b; embedding_b := a |} g.
Proof.
  destruct (Nat.eq_dec (List.length a) (List.length b)) as [E|N].
  - rewrite !compare_returns by congruence.
    rewrite cos_sim_comm. reflexivity.
  - rewrite !compare_raises by congruence. reflexivity.
Qed.

(* ------------------------------------------------------------------ *)
(** ** Shape errors *)
(* ------------------------------------------------------------------ *)

(** C4: when the two arrays are not one-dimensional of one shape, [compare]
    raises the 400 error with an empty log: no dot product, norm, product,
    sum or quotient was computed.  The same holds for every request whose
    arrays they are. *)
Theorem compare_shape_mismatch
  (promo : promotion) (a b : ndarray) (g : Globals) :
  shape a <> shape b \/ ndim a <> 1%nat ->
  compare_arrays promo a b g = (Raise shape_mismatch, g, [])
  /\ forall req,
       array_f32 (embedding_a req) = a -> array_f32 (embedding_b req) = b ->
       compare promo req g = (Raise shape_mismatch, g, []).
Proof.
  intros H. split.
  - apply compare_arrays_raises, H.
  - intros req <- <-. unfold compare. apply compare_arrays_raises, H.
Qed.

(* ------------------------------------------------------------------ *)
(** ** Rounding of the similarity against the unrounded threshold test *)
(* ------------------------------------------------------------------ *)

(** C9: there are embeddings of equal length for which the similarity in
    the response is at least 0.80 while [is_match] is false: for [1, 0]
    against [4001, 3001] the cosine is about 0.799976, reported as 0.8. *)
Theorem compare_rounded_similarity_disagrees (promo : promotion) (g : Globals) :
  exists a b resp,
    List.length a = List.length b
    /\ result (compare promo {| embedding_a := a; embedding_b := b |} g) = Return resp
    /\ f64_leb THRESHOLD (similarity resp) = true
    /\ is_match resp = false.
Proof.
  exists [f64_of_Z 1; f64_of_Z 0], [f64_of_Z 4001; f64_of_Z 3001].
  exists {| similarity := THRESHOLD; is_match := false |}.
  split; [reflexivity|].
  rewrite compare_returns by reflexivity.
  destruct promo; vm_compute; auto.
Qed.

(* ------------------------------------------------------------------ *)
(** ** Uploads: the format check *)
(* ------------------------------------------------------------------ *)

(** In this section the calls outside the handlers' [try] blocks succeed:
    the handlers are followed on [no_faults]. *)
Section Uploads.

Context {ext : External}.

Lemma load_audio_unsupported (bytes : list Byte.byte) (name : option string) (g : Globals) :
  Path.mem (suffix_of name) SUPPORTED_EXTENSIONS = false ->
  _load_audio bytes name g = (Raise (unsupported_format (suffix_of name)), g, []).
Proof.
  intros H. unfold _load_audio. rewrite H. reflexivity.
Qed.

(** Past the format check the bytes are always written to a temporary file
    named with the suffix, decoded, and the file removed. *)
Lemma load_audio_supported (bytes : list Byte.byte) (name : option string) (g : Globals) :
  Path.mem (suffix_of name) SUPPORTED_EXTENSIONS = true ->
  exists r rest,
    _load_audio bytes name g
    = (r, g, EvTmpWrite (suffix_of name) :: EvTorchaudioLoad :: EvUnlink :: rest)
    /\ forall suffix, r <> Raise (unsupported_format suffix).
Proof.
  intros H. unfold _load_audio. rewrite H. simpl.
  destruct (torchaudio_load bytes (suffix_of name)) as [exc|[w sr]].
  - eexists _, []. run_handler. split; [reflexivity|].
    intros suffix E. inversion E.
  - destruct (sr =? 16000)%Z; run_handler.
    + eexists _, []. split; [reflexivity|discriminate].
    + eexists _, [_]. split; [reflexivity|discriminate].
Qed.

(** The suffix of an absent or empty file name is that of ["audio.wav"]. *)
Lemma suffix_of_default (name : option string) :
  name = None \/ name = Some EmptyString -> suffix_of name = ".wav"%string.
Proof. intros [-> | ->]; reflexivity. Qed.

Lemma load_audio_rejects_only_named
  (bytes : list Byte.byte) (name : option string) (g : Globals) (suffix : string) :
  result (_load_audio bytes name g) = Raise (unsupported_format suffix) ->
  exists s, name = Some s /\ s <> EmptyString
            /\ suffix = Path.lower (snd (Path.splitext s))
            /\ Path.mem suffix SUPPORTED_EXTENSIONS = false.
Proof.
  intros H.
  destruct (Path.mem (suffix_of name) SUPPORTED_EXTENSIONS) eqn:E.
  - destruct (load_audio_supported bytes name g E) as (r & rest & Hr & Hne).
    rewrite Hr in H. simpl in H. elim (Hne suffix H).
  - rewrite load_audio_unsupported in H by assumption.
    unfold result, unsupported_format in H. simpl in H.
    injection H as H.
    destruct name as [[|c s]|]; try discriminate E.
    exists (String c s). subst suffix.
    repeat split; [discriminate|exact E].
Qed.

Lemma diarize_runs_pipeline (file : UploadFile) (g : Globals) (pipeline : object) :
  diarization_pipeline g = Some pipeline ->
  exists r,
    diarize file g
    = (r, g, [EvRead; EvTmpWrite (suffix_of (filename file)); EvPipeline; EvUnlink])
    /\ forall detail, r <> Raise (HTTPException 400 detail).
Proof.
  intros H. unfold diarize. run_handler. rewrite H.
  destruct (run_pipeline pipeline (content file) (suffix_of (filename file)));
    eexists; (split; [reflexivity|discriminate]).
Qed.

(** C10: an upload without a file name, or with the empty one, is checked
    as ["audio.wav"]: it passes the allow-list and goes on to be written
    with the suffix [.wav] and decoded ([/diarize] names its temporary file
    the same way); an upload that fails the check has a non-empty name
    whose extension is not in the list. *)
Theorem default_filename_passes_format_check
  (bytes : list Byte.byte) (name : option string) (g : Globals) :
  name = None \/ name = Some EmptyString ->
  (exists r rest,
     _load_audio bytes name g
     = (r, g, EvTmpWrite ".wav" :: EvTorchaudioLoad :: EvUnlink :: rest)
     /\ forall suffix, r <> Raise (unsupported_format suffix))
  /\ (forall pipeline, diarization_pipeline g = Some pipeline ->
      exists r,
        diarize {| filename := name; content := bytes |} g
        = (r, g, [EvRead; EvTmpWrite ".wav"; EvPipeline; EvUnlink]))
  /\ (forall other suffix,
        result (_load_audio bytes other g) = Raise (unsupported_format suffix) ->
        exists s, other = Some s /\ s <> EmptyString
                  /\ suffix = Path.lower (snd (Path.splitext s))
                  /\ Path.mem suffix SUPPORTED_EXTENSIONS = false).
Proof.
  intros H. pose proof (suffix_of_default name H) as Hs. repeat split.
  - rewrite <- Hs. apply load_audio_supported. rewrite Hs. reflexivity.
  - intros pipeline Hp.
    destruct (diarize_runs_pipeline {| filename := name; content := bytes |} g pipeline Hp)
      as (r & Hr & _).
    exists r. rewrite Hr. simpl. rewrite Hs. reflexivity.
  - intros other suffix. apply load_audio_rejects_only_named.
Qed.

Lemma embed_unsupported (file : UploadFile) (g : Globals) (model : object) :
  ecapa_model g = Some model ->
  Path.mem (suffix_of (filename file)) SUPPORTED_EXTENSIONS = false ->
  embed file g = (Raise (unsupported_format (suffix_of (filename file))), g, [EvRead]).
Proof.
  intros Hm Hs. unfold embed. run_handler. rewrite Hm.
  rewrite load_audio_unsupported by assumption. reflexivity.
Qed.

End Uploads.

(* ------------------------------------------------------------------ *)
(** ** The globals over the life of the process *)
(* ------------------------------------------------------------------ *)

(** The properties of this section hold whatever the calls outside the
    handlers' [try] blocks do. *)
Section Lifecycle.

Variable promo : promotion.
Context {flt : Faults} {ext : External}.
Variable environ : string -> option string.

Lemma load_audio_globals (bytes : list Byte.byte) (name : option string) (g : Globals) :
  globals_after (_load_audio bytes name g) = g.
Proof.
  unfold _load_audio, write_temp.
  destruct (Path.mem (suffix_of name) SUPPORTED_EXTENSIONS); [|reflexivity].
  simpl. destruct (mkstemp_fault (suffix_of name)); [reflexivity|].
  destruct (write_fault bytes); [reflexivity|]. simpl.
  destruct (torchaudio_load bytes (suffix_of name)) as [exc|[w sr]];
    [reflexivity|].
  destruct (sr =? 16000)%Z; reflexivity.
Qed.

Lemma embed_globals (file : UploadFile) (g : Globals) :
  globals_after (embed file g) = g.
Proof.
  unfold embed. run_handler.
  destruct (ecapa_model g) as [model|]; [|reflexivity].
  pose proof (load_audio_globals (content file) (filename file) g) as H.
  unfold globals_after in H.
  destruct (_load_audio (content file) (filename file) g) as [[[t|e] g1] tr];
    simpl in H; subst g1; [|reflexivity].
  destruct (encode_batch model (unsqueeze0 t)); reflexivity.
Qed.

Lemma diarize_globals (file : UploadFile) (g : Globals) :
  globals_after (diarize file g) = g.
Proof.
  unfold diarize, write_temp. run_handler.
  destruct (diarization_pipeline g) as [pipeline|]; [|reflexivity].
  destruct (mkstemp_fault (suffix_of (filename file))); [reflexivity|].
  destruct (write_fault (content file)); [reflexivity|]. simpl.
  destruct (run_pipeline pipeline (content file) (suffix_of (filename file)))
    as [exc|tracks]; [reflexivity|].
  destruct (itertracks_fault tracks); reflexivity.
Qed.

Lemma compare_globals (req : CompareRequest) (g : Globals) :
  globals_after (compare promo req g) = g.
Proof.
  unfold compare, compare_arrays.
  match goal with |- context [if ?c then _ else _] => destruct c end; reflexivity.
Qed.

(** No handler assigns a global. *)
Lemma handle_globals (r : request) (g : Globals) : fst (handle promo r g) = g.
Proof.
  destruct r; simpl.
  - reflexivity.
  - apply embed_globals.
  - apply compare_globals.
  - apply diarize_globals.
Qed.

Lemma reachable_invariant (p : process) :
  reachable promo environ p -> globals_invariant environ p.
Proof.
  induction 1 as [|p q Hp IH Hstep]; [reflexivity|].
  destruct Hstep as [g g' t Hl|g g' e t Hl|g r]; unfold globals_invariant in *;
    simpl in *.
  - subst g. eauto.
  - exact I.
  - rewrite handle_globals. exact IH.
Qed.


(** After a startup that returned, the embedding model is there. *)
Lemma startup_loads_ecapa (g : Globals) (t : list event) :
  _load_models environ module_init = (Return tt, g, t) ->
  exists model, ecapa_model g = Some model /\ models_loaded g = true.
Proof.
  unfold _load_models. run_handler.
  destruct from_hparams as [exc|model]; [discriminate|].
  destruct (environ "HF_TOKEN") as [[|c r]|]; simpl.
  - intros H. injection H as <- _. eexists; split; reflexivity.
  - destruct import_fault as [exc|]; simpl.
    + intros H. injection H as <- _. eexists; split; reflexivity.
    + destruct (from_pretrained (String c r)) as [exc|pipeline]; simpl;
        intros H; injection H as <- _; eexists; split; reflexivity.
  - intros H. injection H as <- _. eexists; split; reflexivity.
Qed.

(** An upload with an unsupported extension leaves [/embed] at the format
    check, whatever the file system would have done. *)
Lemma embed_stops_at_format (file : UploadFile) (g : Globals) (model : object) :
  ecapa_model g = Some model ->
  Path.mem (suffix_of (filename file)) SUPPORTED_EXTENSIONS = false ->
  embed file g = (Raise (unsupported_format (suffix_of (filename file))), g, [EvRead]).
Proof.
  intros Hm Hs. unfold embed. cbv [bind read_globals tell]. rewrite Hm.
  unfold _load_audio. rewrite Hs. reflexivity.
Qed.

(** Every run of [diarize] with a pipeline. *)
Lemma diarize_exits (file : UploadFile) (g : Globals) (pipeline : object) :
  diarization_pipeline g = Some pipeline ->
  let suffix := suffix_of (filename file) in
  diarize file g
  = match mkstemp_fault suffix with
    | Some exc => (Raise (Exception exc), g, [EvRead])
    | None =>
        match write_fault (content file) with
        | Some exc => (Raise (Exception exc), g, [EvRead; EvTmpCreate suffix])
        | None =>
            match run_pipeline pipeline (content file) suffix with
            | inl exc =>
                (Raise (HTTPException 500 ("Diarization failed: " ++ exc)), g,
                 [EvRead; EvTmpWrite suffix; EvPipeline; EvUnlink])
            | inr tracks =>
                (match itertracks_fault tracks with
                 | Some exc => Raise (Exception exc)
                 | None =>
                     Return {| segments :=
                                 List.map (fun '(turn_start, turn_end, label) =>
                                             {| speaker := label;
                                                start := py_round turn_start 3;
                                                end_ := py_round turn_end 3 |})
                                   tracks |}
                 end, g, [EvRead; EvTmpWrite suffix; EvPipeline; EvUnlink])
            end
        end
    end.
Proof.
  intros Hp suffix. unfold diarize, write_temp. run_handler. rewrite Hp. fold suffix.
  destruct (mkstemp_fault suffix); [reflexivity|].
  destruct (write_fault (content file)); [reflexivity|]. simpl.
  destruct (run_pipeline pipeline (content file) suffix) as [exc|tracks];
    [reflexivity|].
  destruct (itertracks_fault tracks); reflexivity.
Qed.

(** C8: the globals are written by [_load_models] alone.  In every state
    in which requests are served they are the ones startup left, no
    request changes them, and every step from such a state keeps them. *)
Theorem globals_fixed_after_startup (p : process) :
  reachable promo environ p -> stage p = Serving ->
  (exists t, _load_models environ module_init = (Return tt, globals p, t))
  /\ (forall r, fst (handle promo r (globals p)) = globals p)
  /\ (forall q, step promo environ p q ->
                stage q = Serving /\ globals q = globals p).
Proof.
  intros Hr Hs. pose proof (reachable_invariant p Hr) as Hi.
  unfold globals_invariant in Hi. rewrite Hs in Hi.
  split; [exact Hi|]. split; [intros r; apply handle_globals|].
  intros q Hq.
  destruct Hq as [g g' t Hl|g g' e t Hl|g r]; simpl in *; try discriminate Hs.
  split; [reflexivity|apply handle_globals].
Qed.

(** C2, as amended: while requests are served, [/embed] turns away every
    upload whose extension is not in the allow-list with the 400 error,
    having read the upload and done nothing else - no temporary file, no
    decoding.  [/diarize] has no format check and never answers 400: with
    the pipeline loaded it asks for a temporary file under whatever suffix
    the name has; when the constructor raises, its exception leaves the
    handler before any write or pipeline call, and when the file is
    created and written the pipeline runs on it. *)
Theorem embed_rejects_unsupported_format (p : process) (file : UploadFile) :
  reachable promo environ p -> stage p = Serving ->
  Path.mem (suffix_of (filename file)) SUPPORTED_EXTENSIONS = false ->
  embed file (globals p)
  = (Raise (unsupported_format (suffix_of (filename file))), globals p, [EvRead])
  /\ rejected_for_format (suffix_of (filename file)) (embed file (globals p))
  /\ (forall pipeline, diarization_pipeline (globals p) = Some pipeline ->
      (forall detail,
         result (diarize file (globals p)) <> Raise (HTTPException 400 detail))
      /\ (forall exc,
            mkstemp_fault (suffix_of (filename file)) = Some exc ->
            diarize file (globals p) = (Raise (Exception exc), globals p, [EvRead]))
      /\ (temp_written (suffix_of (filename file)) (content file) ->
          exists r,
            diarize file (globals p)
            = (r, globals p,
               [EvRead; EvTmpWrite (suffix_of (filename file));
                EvPipeline; EvUnlink]))).
Proof.
  intros Hr Hs Hx. pose proof (reachable_invariant p Hr) as Hi.
  unfold globals_invariant in Hi. rewrite Hs in Hi. destruct Hi as [t Ht].
  destruct (startup_loads_ecapa _ _ Ht) as (model & Hm & _).
  pose proof (embed_stops_at_format file (globals p) model Hm Hx) as E.
  split; [exact E|]. split.
  - rewrite E. split; [reflexivity|].
    simpl. intros e [<-|[]]. reflexivity.
  - intros pipeline Hp.
    pose proof (diarize_exits file (globals p) pipeline Hp) as D.
    cbv zeta in D. rewrite D. repeat split.
    + intros detail.
      destruct (mkstemp_fault (suffix_of (filename file))); [discriminate|].
      destruct (write_fault (content file)); [discriminate|].
      destruct (run_pipeline pipeline (content file) (suffix_of (filename file)))
        as [exc|tracks]; [discriminate|].
      destruct (itertracks_fault tracks); discriminate.
    + intros exc He. rewrite He. reflexivity.
    + intros [Hc Hw]. rewrite Hc, Hw.
      destruct (run_pipeline pipeline (content file) (suffix_of (filename file)))
        as [exc|tracks]; eexists; reflexivity.
Qed.


End Lifecycle.

(* ------------------------------------------------------------------ *)
(** ** Rounding to nearest: what one operation can lose *)
(* ------------------------------------------------------------------ *)

Close Scope string_scope.
Open Scope Z_scope.


Lemma pow2_pos e : (0 < pow2 e)%Q.
Proof. apply Qpower_0_lt. reflexivity. Qed.

Lemma pow2_add a b : (pow2 (a + b) == pow2 a * pow2 b)%Q.
Proof. apply Qpower_plus. discriminate. Qed.

Lemma pow2_Z e : 0 <= e -> (pow2 e == inject_Z (2 ^ e))%Q.
Proof. intros H. unfold pow2. rewrite Zpower_Qpower by assumption. reflexivity. Qed.

Lemma digits2_pos_bounds p :
  2 ^ (Zpos (digits2_pos p) - 1) <= Zpos p < 2 ^ Zpos (digits2_pos p).
Proof.
  induction p as [p IH|p IH|]; simpl digits2_pos.
  - rewrite Pos2Z.inj_succ.
    replace (Z.succ (Zpos (digits2_pos p)) - 1) with (Z.succ (Zpos (digits2_pos p) - 1)) by lia.
    rewrite !Z.pow_succ_r by lia. lia.
  - rewrite Pos2Z.inj_succ.
    replace (Z.succ (Zpos (digits2_pos p)) - 1) with (Z.succ (Zpos (digits2_pos p) - 1)) by lia.
    rewrite !Z.pow_succ_r by lia. lia.
  - simpl. lia.
Qed.

Lemma digits2_pos_unique p k :
  2 ^ (k - 1) <= Zpos p < 2 ^ k -> Zpos (digits2_pos p) = k.
Proof.
  intros [Hl Hu]. pose proof (digits2_pos_bounds p) as [Dl Du].
  destruct (Z.lt_trichotomy (Zpos (digits2_pos p)) k) as [H|[H|H]]; [|exact H|].
  - assert (2 ^ Zpos (digits2_pos p) <= 2 ^ (k - 1)) by (apply Z.pow_le_mono_r; lia). lia.
  - assert (0 <= k).
    { destruct (Z.le_gt_cases 0 k); [assumption|].
      rewrite (Z.pow_neg_r 2 k) in Hu by lia. lia. }
    assert (2 ^ k <= 2 ^ (Zpos (digits2_pos p) - 1)) by (apply Z.pow_le_mono_r; lia). lia.
Qed.

Lemma shr_1_m mrs : 0 <= shr_m mrs -> shr_m (shr_1 mrs) = shr_m mrs / 2.
Proof.
  destruct mrs as [m r s]. simpl. intros H.
  destruct m as [|[p|p|]|p]; cbn [shr_m]; try lia; try reflexivity.
  - apply Z.div_unique with 1; lia.
  - apply Z.div_unique with 0; lia.
Qed.

Lemma pow2_xO n : 2 ^ Zpos n~0 = 2 ^ Zpos n * 2 ^ Zpos n.
Proof. rewrite (Pos2Z.inj_xO n). apply Z.pow_twice_r. Qed.

Lemma pow2_xI n : 2 ^ Zpos n~1 = 2 * (2 ^ Zpos n * 2 ^ Zpos n).
Proof.
  rewrite (Pos2Z.inj_xI n), Z.add_1_r, Z.pow_succ_r by lia.
  rewrite Z.pow_twice_r. reflexivity.
Qed.

Lemma pow2_gt0 n : 0 < 2 ^ Zpos n.
Proof. apply Z.pow_pos_nonneg; lia. Qed.

Lemma iter_shr_1_m n : forall mrs,
  0 <= shr_m mrs -> shr_m (iter_pos shr_1 n mrs) = shr_m mrs / 2 ^ Zpos n.
Proof.
  induction n as [n IH|n IH|]; intros mrs H; simpl iter_pos.
  - assert (H1 : 0 <= shr_m (shr_1 mrs))
      by (rewrite shr_1_m by assumption; apply Z.div_pos; lia).
    assert (H2 : 0 <= shr_m (iter_pos shr_1 n (shr_1 mrs))).
    { rewrite IH by assumption. apply Z.div_pos; [assumption|apply pow2_gt0]. }
    pose proof (pow2_gt0 n).
    rewrite IH, IH, shr_1_m by assumption.
    rewrite !Z.div_div by lia. rewrite pow2_xI. f_equal; ring.
  - assert (H2 : 0 <= shr_m (iter_pos shr_1 n mrs)).
    { rewrite IH by assumption. apply Z.div_pos; [assumption|apply pow2_gt0]. }
    pose proof (pow2_gt0 n).
    rewrite IH, IH by assumption.
    rewrite !Z.div_div by lia. rewrite pow2_xO. reflexivity.
  - rewrite shr_1_m by assumption. reflexivity.
Qed.

Lemma shr_spec mrs e n :
  0 <= n -> 0 <= shr_m mrs ->
  shr_m (fst (shr mrs e n)) = shr_m mrs / 2 ^ n /\ snd (shr mrs e n) = e + n.
Proof.
  intros Hn Hm. destruct n as [|p|p]; simpl; try lia.
  - rewrite Z.div_1_r. split; [reflexivity|lia].
  - split; [apply iter_shr_1_m; assumption|reflexivity].
Qed.

Lemma shr_record_of_loc_m m l : shr_m (shr_record_of_loc m l) = m.
Proof. destruct l as [|[| |]]; reflexivity. Qed.

Lemma round_nearest_even_range m l :
  m <= round_nearest_even m l <= m + 1.
Proof. destruct l as [|[| |]]; simpl; try lia. destruct (Z.even m); lia. Qed.

Section Round.
Variables prec emax : Z.
Hypothesis Hprec : 0 < prec.

Lemma fexp_normal x : emin prec emax <= x - prec -> fexp prec emax x = x - prec.
Proof. intros H. unfold fexp. apply Z.max_l. exact H. Qed.

Lemma div_pow2_bounds m d :
  prec <= d -> 2 ^ (d - 1) <= m < 2 ^ d ->
  2 ^ (prec - 1) <= m / 2 ^ (d - prec) < 2 ^ prec.
Proof.
  intros Hd [Hl Hu].
  assert (P : 0 < 2 ^ (d - prec)) by (apply Z.pow_pos_nonneg; lia).
  assert (E1 : 2 ^ d = 2 ^ prec * 2 ^ (d - prec))
    by (rewrite <- Z.pow_add_r by lia; f_equal; lia).
  assert (E2 : 2 ^ (d - 1) = 2 ^ (prec - 1) * 2 ^ (d - prec))
    by (rewrite <- Z.pow_add_r by lia; f_equal; lia).
  split.
  - apply Z.div_le_lower_bound; lia.
  - apply Z.div_lt_upper_bound; lia.
Qed.

Lemma shr_fexp_normal (m : positive) (d e : Z) (l : location) :
  2 ^ (d - 1) <= Zpos m < 2 ^ d ->
  prec <= d -> emin prec emax <= d + e - prec ->
  shr_m (fst (shr_fexp prec emax (Zpos m) e l)) = Zpos m / 2 ^ (d - prec)
  /\ snd (shr_fexp prec emax (Zpos m) e l) = d + e - prec.
Proof.
  intros Hm Hd He. unfold shr_fexp. cbn [Zdigits2].
  rewrite (digits2_pos_unique m d Hm).
  rewrite fexp_normal by exact He.
  replace (d + e - prec - e) with (d - prec) by lia.
  destruct (shr_spec (shr_record_of_loc (Zpos m) l) e (d - prec)) as [H1 H2].
  - lia.
  - rewrite shr_record_of_loc_m. lia.
  - rewrite H1, H2, shr_record_of_loc_m. split; [reflexivity|lia].
Qed.

(** Rounding a positive mantissa of [d >= prec] digits whose value lies in
    the normal range: the result is a normal number, equal in value to the
    mantissa cut to [prec] digits or to its successor. *)
Lemma round_aux_normal (m : positive) (d e : Z) (l : location) :
  2 ^ (d - 1) <= Zpos m < 2 ^ d ->
  prec <= d -> emin prec emax <= d + e - prec -> d + e < emax ->
  exists m' e' r,
    binary_round_aux prec emax false (Zpos m) e l = S754_finite false m' e'
    /\ 2 ^ (prec - 1) <= Zpos m' < 2 ^ prec
    /\ d + e - prec <= e' <= d + e - prec + 1
    /\ Zpos m / 2 ^ (d - prec) <= r <= Zpos m / 2 ^ (d - prec) + 1
    /\ (F2Q (Zpos m') e' == F2Q r (d + e - prec))%Q.
Proof.
  intros Hm Hd He Hmax.
  destruct (shr_fexp_normal m d e l Hm Hd He) as [Hm1 He1].
  pose proof (div_pow2_bounds (Zpos m) d Hd Hm) as Hb.
  unfold binary_round_aux.
  destruct (shr_fexp prec emax (Zpos m) e l) as [mrs1 e1].
  cbn [fst snd] in Hm1, He1.
  pose proof (round_nearest_even_range (shr_m mrs1) (loc_of_shr_record mrs1)) as Hr.
  remember (round_nearest_even (shr_m mrs1) (loc_of_shr_record mrs1)) as r eqn:Er0.
  clear Er0. rewrite Hm1 in Hr.
  assert (P1 : 0 < 2 ^ (prec - 1)) by (apply Z.pow_pos_nonneg; lia).
  assert (P2 : 2 ^ prec = 2 * 2 ^ (prec - 1)).
  { rewrite <- Z.pow_succ_r by lia. f_equal. lia. }
  destruct r as [|rp|rp]; try lia.
  destruct (Z.eq_dec (Zpos rp) (2 ^ prec)) as [Ecarry|Ncarry].
  - (* the mantissa was rounded up to the next binade *)
    assert (Dr : Zpos (digits2_pos rp) = prec + 1).
    { apply digits2_pos_unique. replace (prec + 1 - 1) with prec by lia.
      rewrite Z.pow_add_r by lia. change (2 ^ 1) with 2. lia. }
    unfold shr_fexp at 1. cbn [Zdigits2]. rewrite Dr.
    rewrite fexp_normal by lia.
    replace (prec + 1 + e1 - prec - e1) with 1 by lia.
    cbn [shr iter_pos]. rewrite shr_1_m by (rewrite shr_record_of_loc_m; lia).
    rewrite shr_record_of_loc_m, Ecarry, P2.
    replace (2 * 2 ^ (prec - 1) / 2) with (2 ^ (prec - 1))
      by (apply Z.div_unique with 0; lia).
    destruct (2 ^ (prec - 1)) as [|mp|mp] eqn:Emp; try lia.
    replace (e1 + 1 <=? emax - prec) with true by (symmetry; apply Z.leb_le; lia).
    exists mp, (e1 + 1), (2 * Zpos mp). repeat split; try lia.
    unfold F2Q. rewrite He1.
    replace (d + e - prec + 1) with (1 + (d + e - prec)) by lia.
    rewrite pow2_add. change (pow2 1) with 2%Q.
    rewrite inject_Z_mult. change (inject_Z 2) with 2%Q. ring.
  - assert (Dr : Zpos (digits2_pos rp) = prec).
    { apply digits2_pos_unique. lia. }
    unfold shr_fexp at 1. cbn [Zdigits2]. rewrite Dr.
    rewrite fexp_normal by lia.
    replace (prec + e1 - prec - e1) with 0 by lia.
    cbn [shr]. rewrite shr_record_of_loc_m.
    replace (e1 <=? emax - prec) with true by (symmetry; apply Z.leb_le; lia).
    exists rp, e1, (Zpos rp). repeat split; try lia.
    rewrite He1. reflexivity.
Qed.


Lemma unit_roundoff_spec : (unit_roundoff prec * inject_Z (2 ^ (prec - 1)) == 1)%Q.
Proof.
  unfold unit_roundoff. rewrite <- (pow2_Z (prec - 1)) by lia. rewrite <- pow2_add.
  replace (1 - prec + (prec - 1)) with 0 by lia. reflexivity.
Qed.

(** The same, as a relative error of one unit in the last place. *)
Lemma round_aux_rel (m : positive) (d e : Z) (l : location) :
  2 ^ (d - 1) <= Zpos m < 2 ^ d ->
  prec <= d -> emin prec emax <= d + e - prec -> d + e < emax ->
  exists m' e',
    binary_round_aux prec emax false (Zpos m) e l = S754_finite false m' e'
    /\ normal prec emax m' e'
    /\ ((1 - unit_roundoff prec) * F2Q (Zpos m) e <= F2Q (Zpos m') e'
        /\ F2Q (Zpos m') e' <= (1 + unit_roundoff prec) * F2Q (Zpos m) e)%Q.
Proof.
  intros Hm Hd He Hmax.
  destruct (round_aux_normal m d e l Hm Hd He Hmax)
    as (m' & e' & r & Hres & Hn & He' & Hr & Hv).
  exists m', e'. split; [exact Hres|]. split; [split; [exact Hn|lia]|].
  rewrite Hv. clear Hv Hres.
  set (n := d - prec) in *.
  assert (Pn : 0 < 2 ^ n) by (apply Z.pow_pos_nonneg; lia).
  pose proof (Z.div_mod (Zpos m) (2 ^ n) ltac:(lia)) as Hdm.
  pose proof (Z.mod_pos_bound (Zpos m) (2 ^ n) Pn) as Hmod.
  assert (E2 : 2 ^ (d - 1) = 2 ^ (prec - 1) * 2 ^ n).
  { rewrite <- Z.pow_add_r by lia. f_equal. lia. }
  assert (Z1 : Zpos m <= r * 2 ^ n + 2 ^ n) by nia.
  assert (Z2 : r * 2 ^ n <= Zpos m + 2 ^ n) by nia.
  assert (Z3 : 2 ^ (prec - 1) * 2 ^ n <= Zpos m) by lia.
  rewrite Zle_Qle in Z1, Z2, Z3.
  rewrite inject_Z_plus, inject_Z_mult in Z1.
  rewrite inject_Z_plus, inject_Z_mult in Z2.
  rewrite inject_Z_mult in Z3.
  pose proof unit_roundoff_spec as Hu.
  assert (U0 : (0 < unit_roundoff prec)%Q) by apply pow2_pos.
  assert (Q3 : (inject_Z (2 ^ n) <= unit_roundoff prec * inject_Z (Zpos m))%Q).
  { apply Qle_trans with (unit_roundoff prec * (inject_Z (2 ^ (prec - 1)) * inject_Z (2 ^ n)))%Q.
    - rewrite Qmult_assoc, Hu. lra.
    - apply Qmult_le_l; assumption. }
  unfold F2Q.
  replace (d + e - prec) with (n + e) by (unfold n; lia).
  rewrite pow2_add, (pow2_Z n) by lia.
  pose proof (pow2_pos e) as Pe.
  split.
  - apply Qle_trans with ((inject_Z r * inject_Z (2 ^ n)) * pow2 e)%Q; [|lra].
    rewrite Qmult_assoc. apply Qmult_le_compat_r; lra.
  - apply Qle_trans with ((inject_Z r * inject_Z (2 ^ n)) * pow2 e)%Q; [lra|].
    rewrite Qmult_assoc. apply Qmult_le_compat_r; lra.
Qed.

End Round.

Lemma iter_xO m d : Zpos (Pos.iter xO m d) = Zpos m * 2 ^ Zpos d.
Proof.
  revert m. induction d as [d IH|d IH|]; intros m; simpl Pos.iter.
  - rewrite Pos2Z.inj_xO, IH, IH, pow2_xI. ring.
  - rewrite IH, IH, pow2_xO. ring.
  - rewrite Pos2Z.inj_xO. change (2 ^ 1) with 2. ring.
Qed.

Lemma shl_align_spec m e e' :
  snd (shl_align m e e') = Z.min e e'
  /\ Zpos (fst (shl_align m e e')) = Zpos m * 2 ^ (e - Z.min e e').
Proof.
  unfold shl_align. destruct (e' - e) as [|p|p] eqn:E; cbn [fst snd].
  - rewrite Z.min_l by lia. replace (e - e) with 0 by lia. simpl. split; lia.
  - rewrite Z.min_l by lia. replace (e - e) with 0 by lia. simpl. split; lia.
  - rewrite Z.min_r by lia. replace (e - e') with (Zpos p) by lia.
    split; [reflexivity|apply iter_xO].
Qed.

Lemma F2Q_shift m e k : 0 <= k -> (F2Q (m * 2 ^ k) (e - k) == F2Q m e)%Q.
Proof.
  intros H. unfold F2Q. rewrite inject_Z_mult, <- (pow2_Z k H).
  rewrite <- Qmult_assoc, <- pow2_add. replace (k + (e - k)) with e by lia.
  reflexivity.
Qed.

Lemma pow2_le a b : a <= b -> (pow2 a <= pow2 b)%Q.
Proof.
  intros H. replace b with (a + (b - a)) by lia. rewrite pow2_add, (pow2_Z (b - a)) by lia.
  assert (1 <= 2 ^ (b - a)) by (apply Z.lt_pred_le, Z.pow_pos_nonneg; lia).
  rewrite Zle_Qle in H0. pose proof (pow2_pos a).
  setoid_replace (pow2 a) with (pow2 a * 1)%Q at 1 by ring.
  apply Qmult_le_l; assumption.
Qed.

Lemma pow2_lt_inv a b : (pow2 a < pow2 b)%Q -> a < b.
Proof.
  intros H. destruct (Z.lt_ge_cases a b) as [|G]; [assumption|].
  apply pow2_le in G. lra.
Qed.

(** A mantissa of [d] digits at exponent [e] has its value in
    [2^(d+e-1), 2^(d+e)). *)
Lemma F2Q_binade m d e :
  2 ^ (d - 1) <= m < 2 ^ d -> 1 <= d ->
  (pow2 (d + e - 1) <= F2Q m e /\ F2Q m e < pow2 (d + e))%Q.
Proof.
  intros [Hl Hu] Hd. unfold F2Q.
  replace (d + e - 1) with ((d - 1) + e) by lia.
  rewrite !pow2_add, (pow2_Z d), (pow2_Z (d - 1)) by lia.
  rewrite Zle_Qle in Hl. rewrite Zlt_Qlt in Hu. pose proof (pow2_pos e).
  split; [apply Qmult_le_compat_r; lra|apply Qmult_lt_r; assumption].
Qed.

Section Bounds.
Open Scope Q_scope.

Lemma div_bounds_aux (u V Y X C pe : Q) :
  0 < u -> u <= 1 # 2 -> 0 < Y -> 0 < V ->
  V * Y <= X -> X <= V * Y + pe * Y -> pe <= u * V ->
  (1 - u) * V <= C -> C <= (1 + u) * V ->
  (1 - u) * X <= (1 + u) * (C * Y) /\ C * Y <= (1 + u) * X.
Proof.
  intros U0 U1 Y0 V0 B1 B2 B3 C1 C2.
  assert (S1 : pe * Y <= u * (V * Y)).
  { rewrite Qmult_assoc. apply Qmult_le_compat_r; lra. }
  assert (S2 : (1 - u) * (V * Y) <= C * Y).
  { rewrite Qmult_assoc. apply Qmult_le_compat_r; lra. }
  assert (S3 : C * Y <= (1 + u) * (V * Y)).
  { rewrite Qmult_assoc. apply Qmult_le_compat_r; lra. }
  set (W := V * Y) in *. set (CY := C * Y) in *.
  assert (W0 : 0 < W) by (apply Qmult_lt_0_compat; assumption).
  split.
  - apply Qle_trans with ((1 - u) * ((1 + u) * W)).
    + apply Qmult_le_l; lra.
    + setoid_replace ((1 - u) * ((1 + u) * W)) with ((1 + u) * ((1 - u) * W)) by ring.
      apply Qmult_le_l; lra.
  - apply Qle_trans with ((1 + u) * W); [lra|]. apply Qmult_le_l; lra.
Qed.

Lemma sqrt_bounds_aux (u V X N pe : Q) :
  0 < u -> u <= 1 # 2 -> 0 < V ->
  V * V <= X -> X <= (V + pe) * (V + pe) -> 0 <= pe -> pe <= u * V ->
  (1 - u) * V <= N -> N <= (1 + u) * V ->
  (1 - u) * (1 - u) * X <= (1 + u) * (1 + u) * (N * N)
  /\ N * N <= (1 + u) * (1 + u) * X.
Proof.
  intros U0 U1 V0 B1 B2 P0 B3 C1 C2.
  assert (N0 : 0 <= N) by nra.
  assert (S1 : (V + pe) * (V + pe) <= ((1 + u) * V) * ((1 + u) * V)).
  { apply Qmult_le_compat_nonneg; split; lra. }
  assert (S2 : N * N <= ((1 + u) * V) * ((1 + u) * V)).
  { apply Qmult_le_compat_nonneg; split; lra. }
  assert (S3 : ((1 - u) * V) * ((1 - u) * V) <= N * N).
  { apply Qmult_le_compat_nonneg; split; nra. }
  set (W := V * V) in *. set (NN := N * N) in *.
  assert (W0 : 0 < W) by (apply Qmult_lt_0_compat; assumption).
  setoid_replace ((1 + u) * V * ((1 + u) * V)) with ((1 + u) * (1 + u) * W) in S1 by (unfold W; ring).
  setoid_replace ((1 + u) * V * ((1 + u) * V)) with ((1 + u) * (1 + u) * W) in S2 by (unfold W; ring).
  setoid_replace ((1 - u) * V * ((1 - u) * V)) with ((1 - u) * (1 - u) * W) in S3 by (unfold W; ring).
  assert (A : 0 < (1 + u) * (1 + u)) by nra.
  assert (B : 0 <= (1 - u) * (1 - u)) by nra.
  split.
  - apply Qle_trans with ((1 - u) * (1 - u) * ((1 + u) * (1 + u) * W)).
    + rewrite !(Qmult_comm ((1 - u) * (1 - u))).
      apply Qmult_le_compat_r; [lra|exact B].
    + setoid_replace ((1 - u) * (1 - u) * ((1 + u) * (1 + u) * W))
        with ((1 + u) * (1 + u) * ((1 - u) * (1 - u) * W)) by ring.
      apply Qmult_le_l; [exact A|exact S3].
  - apply Qle_trans with ((1 + u) * (1 + u) * W); [exact S2|].
    apply Qmult_le_l; [exact A|exact B1].
Qed.

End Bounds.

Section Ops.
Variables prec emax : Z.
Hypothesis Hprec : 1 < prec.

(** [binary_round] of a value in the normal range. *)
Lemma binary_round_rel (m : positive) (d e : Z) :
  2 ^ (d - 1) <= Zpos m < 2 ^ d ->
  emin prec emax <= d + e - prec -> d + e < emax ->
  exists m' e',
    binary_round prec emax false m e = S754_finite false m' e'
    /\ normal prec emax m' e'
    /\ ((1 - unit_roundoff prec) * F2Q (Zpos m) e <= F2Q (Zpos m') e'
        /\ F2Q (Zpos m') e' <= (1 + unit_roundoff prec) * F2Q (Zpos m) e)%Q.
Proof.
  intros Hm He Hmax. unfold binary_round.
  rewrite (digits2_pos_unique m d Hm), fexp_normal by exact He.
  destruct (shl_align_spec m e (d + e - prec)) as [Hs Hf].
  destruct (shl_align m e (d + e - prec)) as [mz ez]. cbn [fst snd] in Hs, Hf.
  destruct (Z.le_gt_cases prec d) as [Hd|Hd].
  - (* long enough: no alignment *)
    rewrite Z.min_l in Hs, Hf by lia. replace (e - e) with 0 in Hf by lia.
    rewrite Z.mul_1_r in Hf. injection Hf as ->. subst ez.
    destruct (round_aux_rel prec emax ltac:(lia) m d e loc_Exact Hm Hd He Hmax)
      as (m' & e' & Hr & Hn & Hv).
    exists m', e'. auto.
  - (* short: shifted left to [prec] digits *)
    rewrite Z.min_r in Hs, Hf by lia. subst ez.
    replace (e - (d + e - prec)) with (prec - d) in Hf by lia.
    assert (Hmz : 2 ^ (prec - 1) <= Zpos mz < 2 ^ prec).
    { assert (1 <= d).
      { destruct (Z.le_gt_cases 1 d); [assumption|].
        destruct (Z.eq_dec d 0) as [->|]; [simpl in Hm; lia|].
        rewrite (Z.pow_neg_r 2 d) in Hm by lia. lia. }
      assert (E1 : 2 ^ (prec - 1) = 2 ^ (d - 1) * 2 ^ (prec - d))
        by (rewrite <- Z.pow_add_r by lia; f_equal; lia).
      assert (E2 : 2 ^ prec = 2 ^ d * 2 ^ (prec - d))
        by (rewrite <- Z.pow_add_r by lia; f_equal; lia).
      assert (0 < 2 ^ (prec - d)) by (apply Z.pow_pos_nonneg; lia).
      rewrite Hf, E1, E2. nia. }
    destruct (round_aux_rel prec emax ltac:(lia) mz prec (d + e - prec) loc_Exact
                Hmz ltac:(lia) ltac:(lia) ltac:(lia))
      as (m' & e' & Hr & Hn & Hv).
    exists m', e'. split; [exact Hr|]. split; [exact Hn|].
    assert (Ev : (F2Q (Zpos mz) (d + e - prec) == F2Q (Zpos m) e)%Q).
    { rewrite Hf. replace (d + e - prec) with (e - (prec - d)) by lia.
      apply F2Q_shift. lia. }
    rewrite <- Ev. exact Hv.
Qed.


Lemma digits_lower (m : positive) (k : Z) :
  2 ^ k <= Zpos m -> k < Zpos (digits2_pos m).
Proof.
  intros H. pose proof (digits2_pos_bounds m) as [_ Hu].
  destruct (Z.lt_ge_cases k (Zpos (digits2_pos m))) as [|G]; [assumption|].
  assert (2 ^ Zpos (digits2_pos m) <= 2 ^ k) by (apply Z.pow_le_mono_r; lia). lia.
Qed.

Lemma F2Q_mul m1 e1 m2 e2 :
  (F2Q (m1 * m2) (e1 + e2) == F2Q m1 e1 * F2Q m2 e2)%Q.
Proof. unfold F2Q. rewrite inject_Z_mult, pow2_add. ring. Qed.

Lemma F2Q_pos m e : 0 < m -> (0 < F2Q m e)%Q.
Proof.
  intros H. unfold F2Q. rewrite Zlt_Qlt in H. pose proof (pow2_pos e).
  apply Qmult_lt_0_compat; assumption.
Qed.

(** Product of two normal positive numbers, in the normal range. *)
Lemma mul_rel (mx my : positive) (ex ey : Z) :
  normal prec emax mx ex -> normal prec emax my ey ->
  (pow2 (emin prec emax + prec - 1) <= F2Q (Zpos mx) ex * F2Q (Zpos my) ey)%Q ->
  (F2Q (Zpos mx) ex * F2Q (Zpos my) ey < pow2 (emax - 1))%Q ->
  exists m' e',
    SFmul prec emax (S754_finite false mx ex) (S754_finite false my ey)
    = S754_finite false m' e'
    /\ normal prec emax m' e'
    /\ ((1 - unit_roundoff prec) * (F2Q (Zpos mx) ex * F2Q (Zpos my) ey) <= F2Q (Zpos m') e'
        /\ F2Q (Zpos m') e' <= (1 + unit_roundoff prec) * (F2Q (Zpos mx) ex * F2Q (Zpos my) ey))%Q.
Proof.
  intros [Hx _] [Hy _] Hlo Hv. cbn [SFmul xorb].
  pose proof (digits2_pos_bounds (mx * my)) as Hd.
  set (d := Zpos (digits2_pos (mx * my))) in *.
  assert (P : 0 < 2 ^ (prec - 1)) by (apply Z.pow_pos_nonneg; lia).
  assert (Hlow : 2 ^ (2 * prec - 2) <= Zpos (mx * my)).
  { replace (2 * prec - 2) with ((prec - 1) + (prec - 1)) by lia.
    rewrite Z.pow_add_r, Pos2Z.inj_mul by lia. nia. }
  apply digits_lower in Hlow. fold d in Hlow.
  assert (Ev : (F2Q (Zpos (mx * my)) (ex + ey)
                == F2Q (Zpos mx) ex * F2Q (Zpos my) ey)%Q)
    by (rewrite Pos2Z.inj_mul; apply F2Q_mul).
  rewrite <- Ev in Hv, Hlo.
  destruct (F2Q_binade (Zpos (mx * my)) d (ex + ey) Hd ltac:(lia)) as [B B'].
  assert (Hmax : d + (ex + ey) < emax).
  { assert (d + (ex + ey) - 1 < emax - 1) by (apply pow2_lt_inv; lra). lia. }
  assert (He : emin prec emax <= d + (ex + ey) - prec).
  { assert (emin prec emax + prec - 1 < d + (ex + ey)) by (apply pow2_lt_inv; lra).
    lia. }
  destruct (round_aux_rel prec emax ltac:(lia) (mx * my) d (ex + ey) loc_Exact
              Hd ltac:(lia) ltac:(lia) Hmax)
    as (m' & e' & Hr & Hn & Hb).
  exists m', e'. split; [exact Hr|]. split; [exact Hn|].
  rewrite <- Ev. exact Hb.
Qed.

(** Sum of two positive numbers of at least [prec] digits together. *)
Lemma add_rel (mx my : positive) (ex ey : Z) :
  normal prec emax mx ex -> normal prec emax my ey ->
  (F2Q (Zpos mx) ex + F2Q (Zpos my) ey < pow2 (emax - 1))%Q ->
  exists m' e',
    SFadd prec emax (S754_finite false mx ex) (S754_finite false my ey)
    = S754_finite false m' e'
    /\ normal prec emax m' e'
    /\ ((1 - unit_roundoff prec) * (F2Q (Zpos mx) ex + F2Q (Zpos my) ey) <= F2Q (Zpos m') e'
        /\ F2Q (Zpos m') e' <= (1 + unit_roundoff prec) * (F2Q (Zpos mx) ex + F2Q (Zpos my) ey))%Q.
Proof.
  intros [[Hx _] [Hex _]] [_ [Hey _]] Hv. cbn [SFadd cond_Zopp].
  set (ez := Z.min ex ey).
  destruct (shl_align_spec mx ex ez) as [_ Fx].
  destruct (shl_align_spec my ey ez) as [_ Fy].
  replace (Z.min ex ez) with ez in Fx by (unfold ez; lia).
  replace (Z.min ey ez) with ez in Fy by (unfold ez; lia).
  set (ax := fst (shl_align mx ex ez)) in *.
  set (ay := fst (shl_align my ey ez)) in *.
  change (Zpos ax + Zpos ay) with (Zpos (ax + ay)). cbn [binary_normalize].
  assert (Ev : (F2Q (Zpos (ax + ay)) ez == F2Q (Zpos mx) ex + F2Q (Zpos my) ey)%Q).
  { rewrite Pos2Z.inj_add, Fx, Fy. unfold F2Q at 1. rewrite inject_Z_plus.
    rewrite <- (F2Q_shift (Zpos mx) ex (ex - ez)) by (unfold ez; lia).
    rewrite <- (F2Q_shift (Zpos my) ey (ey - ez)) by (unfold ez; lia).
    replace (ex - (ex - ez)) with ez by lia.
    replace (ey - (ey - ez)) with ez by lia.
    unfold F2Q. ring. }
  pose proof (digits2_pos_bounds (ax + ay)) as Hd.
  set (d := Zpos (digits2_pos (ax + ay))) in *.
  assert (Hlow : 2 ^ (prec - 1) <= Zpos (ax + ay)).
  { rewrite Pos2Z.inj_add, Fx.
    assert (1 <= 2 ^ (ex - ez))
      by (apply Z.lt_pred_le, Z.pow_pos_nonneg; unfold ez; lia).
    nia. }
  apply digits_lower in Hlow. fold d in Hlow.
  rewrite <- Ev in Hv.
  assert (Hmax : d + ez < emax).
  { destruct (F2Q_binade (Zpos (ax + ay)) d ez Hd ltac:(lia)) as [B _].
    assert (d + ez - 1 < emax - 1) by (apply pow2_lt_inv; lra). lia. }
  destruct (binary_round_rel (ax + ay) d ez Hd ltac:(unfold ez; lia) Hmax)
    as (m' & e' & Hr & Hn & Hb).
  exists m', e'. split; [exact Hr|]. split; [exact Hn|].
  rewrite <- Ev. exact Hb.
Qed.


Lemma unit_roundoff_range :
  (0 < unit_roundoff prec /\ unit_roundoff prec <= 1 # 2)%Q.
Proof.
  split; [apply pow2_pos|]. unfold unit_roundoff.
  change (1 # 2)%Q with (pow2 (-1)). apply pow2_le. lia.
Qed.

(** One unit in the last place of a mantissa of at least [prec] digits is
    at most [u] times the value. *)
Lemma ulp_le (m e : Z) :
  2 ^ (prec - 1) <= m -> (pow2 e <= unit_roundoff prec * F2Q m e)%Q.
Proof.
  intros H. unfold F2Q. rewrite Zle_Qle in H.
  pose proof (unit_roundoff_spec prec ltac:(lia)) as Hu.
  pose proof (pow2_pos e). pose proof unit_roundoff_range as [U0 _].
  assert (1 <= unit_roundoff prec * inject_Z m)%Q.
  { rewrite <- Hu. apply Qmult_le_l; assumption. }
  rewrite Qmult_assoc.
  setoid_replace (pow2 e) with (1 * pow2 e)%Q at 1 by ring.
  apply Qmult_le_compat_r; lra.
Qed.

Lemma shift_match (m s : Z) :
  0 < s ->
  match s with Zpos _ => Z.shiftl m s | Z0 => m | Zneg _ => 0 end = m * 2 ^ s.
Proof.
  intros H. destruct s as [|p|p]; try lia. apply Z.shiftl_mul_pow2. lia.
Qed.

Lemma div_eucl_div_mod a b : Z.div_eucl a b = (a / b, a mod b).
Proof. unfold Z.div, Z.modulo. destruct (Z.div_eucl a b). reflexivity. Qed.

(** Quotient of two normal positive numbers, in the normal range. *)
Lemma div_rel (mx my : positive) (ex ey : Z) :
  normal prec emax mx ex -> normal prec emax my ey ->
  emin prec emax <= ex - ey - prec -> ex - ey + 1 < emax ->
  exists m' e',
    SFdiv prec emax (S754_finite false mx ex) (S754_finite false my ey)
    = S754_finite false m' e'
    /\ normal prec emax m' e'
    /\ ((1 - unit_roundoff prec) * F2Q (Zpos mx) ex <= (1 + unit_roundoff prec) * (F2Q (Zpos m') e' * F2Q (Zpos my) ey)
        /\ F2Q (Zpos m') e' * F2Q (Zpos my) ey <= (1 + unit_roundoff prec) * F2Q (Zpos mx) ex)%Q.
Proof.
  intros [Hx _] [Hy _] He Hmax. cbn [SFdiv xorb]. unfold SFdiv_core_binary.
  cbn [Zdigits2].
  rewrite (digits2_pos_unique mx prec Hx), (digits2_pos_unique my prec Hy).
  replace (prec + ex - (prec + ey)) with (ex - ey) by lia.
  rewrite fexp_normal by exact He.
  rewrite Z.min_l by lia.
  replace (ex - ey - (ex - ey - prec)) with prec by lia.
  rewrite shift_match by lia. rewrite div_eucl_div_mod.
  set (q := Zpos mx * 2 ^ prec / Zpos my).
  set (e' := ex - ey - prec).
  assert (P : 0 < 2 ^ (prec - 1)) by (apply Z.pow_pos_nonneg; lia).
  assert (P2 : 2 ^ prec = 2 * 2 ^ (prec - 1)).
  { rewrite <- Z.pow_succ_r by lia. f_equal. lia. }
  pose proof (Z.div_mod (Zpos mx * 2 ^ prec) (Zpos my) ltac:(lia)) as Hdm.
  pose proof (Z.mod_pos_bound (Zpos mx * 2 ^ prec) (Zpos my) ltac:(lia)) as Hmod.
  fold q in Hdm.
  assert (Hq1 : q * Zpos my <= Zpos mx * 2 ^ prec) by lia.
  assert (Hq2 : Zpos mx * 2 ^ prec < (q + 1) * Zpos my) by lia.
  assert (Hqlo : 2 ^ (prec - 1) <= q) by nia.
  assert (Hqhi : q < 2 ^ (prec + 1)).
  { rewrite Z.pow_add_r by lia. change (2 ^ 1) with 2. nia. }
  destruct q as [|qp|qp] eqn:Eq; try lia.
  pose proof (digits2_pos_bounds qp) as Hd.
  set (d := Zpos (digits2_pos qp)) in *.
  assert (Hdlo : prec - 1 < d) by (apply digits_lower; exact Hqlo).
  assert (Hdhi : d <= prec + 1).
  { destruct (Z.le_gt_cases d (prec + 1)) as [|G]; [assumption|].
    assert (2 ^ (prec + 1) <= 2 ^ (d - 1)) by (apply Z.pow_le_mono_r; lia). lia. }
  destruct (round_aux_rel prec emax ltac:(lia) qp d e'
              (new_location (Zpos my) (Zpos mx * 2 ^ prec mod Zpos my))
              Hd ltac:(lia) ltac:(unfold e'; lia) ltac:(unfold e'; lia))
    as (m' & e'' & Hr & Hn & Hb).
  exists m', e''. split; [exact Hr|]. split; [exact Hn|].
  (* the truncated quotient against the exact one *)
  set (X := F2Q (Zpos mx) ex) in *. set (Y := F2Q (Zpos my) ey) in *.
  set (V := F2Q (Zpos qp) e') in *. set (C := F2Q (Zpos m') e'') in *.
  assert (Y0 : (0 < Y)%Q) by (apply F2Q_pos; lia).
  assert (V0 : (0 < V)%Q) by (apply F2Q_pos; lia).
  assert (EX : (X == inject_Z (Zpos mx * 2 ^ prec) * pow2 (e' + ey))%Q).
  { unfold X. rewrite <- (F2Q_shift (Zpos mx) ex prec) by lia.
    unfold F2Q. replace (ex - prec) with (e' + ey) by (unfold e'; lia). reflexivity. }
  assert (EV : (V * Y == inject_Z (Zpos qp * Zpos my) * pow2 (e' + ey))%Q).
  { unfold V, Y, F2Q. rewrite inject_Z_mult, pow2_add. ring. }
  assert (EV1 : (V * Y + pow2 e' * Y
                 == inject_Z ((Zpos qp + 1) * Zpos my) * pow2 (e' + ey))%Q).
  { unfold V, Y, F2Q. rewrite inject_Z_mult, inject_Z_plus, pow2_add. ring. }
  pose proof (pow2_pos (e' + ey)) as Pe.
  assert (B1 : (V * Y <= X)%Q).
  { rewrite EV, EX. apply Qmult_le_compat_r; [|lra].
    rewrite <- Zle_Qle. exact Hq1. }
  assert (B2 : (X <= V * Y + pow2 e' * Y)%Q).
  { rewrite EV1, EX. apply Qmult_le_compat_r; [|lra].
    rewrite <- Zle_Qle. lia. }
  pose proof (ulp_le (Zpos qp) e' Hqlo) as B3. fold V in B3.
  pose proof unit_roundoff_range as [U0 U1].
  destruct Hb as [Hb1 Hb2].
  apply (div_bounds_aux (unit_roundoff prec) V Y X C (pow2 e')); assumption.
Qed.

(** Square root of a normal positive number. *)
Lemma sqrt_rel (m : positive) (e : Z) :
  normal prec emax m e -> 2 * emin prec emax + prec <= e -> 3 <= emax ->
  exists m' e',
    SFsqrt prec emax (S754_finite false m e) = S754_finite false m' e'
    /\ normal prec emax m' e'
    /\ ((1 - unit_roundoff prec) * (1 - unit_roundoff prec) * F2Q (Zpos m) e
        <= (1 + unit_roundoff prec) * (1 + unit_roundoff prec) * (F2Q (Zpos m') e' * F2Q (Zpos m') e')
        /\ F2Q (Zpos m') e' * F2Q (Zpos m') e'
           <= (1 + unit_roundoff prec) * (1 + unit_roundoff prec) * F2Q (Zpos m) e)%Q.
Proof.
  intros [Hm Hme] Hlo Hemax. cbn [SFsqrt]. unfold SFsqrt_core_binary.
  cbn [Zdigits2]. rewrite (digits2_pos_unique m prec Hm).
  rewrite !Z.div2_div.
  set (k := (prec + e + 1) / 2) in *.
  assert (Hk : 2 * k <= prec + e + 1 < 2 * k + 2).
  { pose proof (Z.div_mod (prec + e + 1) 2 ltac:(lia)).
    pose proof (Z.mod_pos_bound (prec + e + 1) 2 ltac:(lia)). fold k in H. lia. }
  assert (He : emin prec emax <= k - prec) by lia.
  assert (Hmax : k < emax) by lia.
  rewrite fexp_normal by exact He.
  assert (He2 : k - prec <= e / 2) by (apply Z.div_le_lower_bound; lia).
  rewrite Z.min_l by exact He2.
  set (e' := k - prec) in *. set (s := e - 2 * e').
  assert (Hs : s = prec - 1 \/ s = prec) by (unfold s, e'; lia).
  rewrite (shift_match (Zpos m) s) by lia.
  pose proof (Z.sqrtrem_spec (Zpos m * 2 ^ s) ltac:(nia)) as Hsq.
  destruct (Z.sqrtrem (Zpos m * 2 ^ s)) as [q r]. destruct Hsq as [Hq Hr].
  assert (P : 0 < 2 ^ (prec - 1)) by (apply Z.pow_pos_nonneg; lia).
  assert (P2 : 2 ^ prec = 2 * 2 ^ (prec - 1)).
  { rewrite <- Z.pow_succ_r by lia. f_equal. lia. }
  assert (Hms : 2 ^ (prec - 1) * 2 ^ (prec - 1) <= Zpos m * 2 ^ s
                /\ Zpos m * 2 ^ s < 2 ^ prec * 2 ^ prec).
  { destruct Hs as [-> | ->]; nia. }
  assert (Hqlo : 2 ^ (prec - 1) <= q) by nia.
  assert (Hqhi : q < 2 ^ prec) by nia.
  destruct q as [|qp|qp]; try lia.
  set (l := if r =? 0 then loc_Exact
            else loc_Inexact (if r <=? Zpos qp then Lt else Gt)).
  destruct (round_aux_rel prec emax ltac:(lia) qp prec e' l
              ltac:(lia) ltac:(lia) ltac:(unfold e'; lia) ltac:(unfold e'; lia))
    as (m' & e'' & Hres & Hn & Hb).
  exists m', e''. split; [exact Hres|]. split; [exact Hn|].
  set (X := F2Q (Zpos m) e) in *. set (V := F2Q (Zpos qp) e') in *.
  set (N := F2Q (Zpos m') e'') in *.
  assert (V0 : (0 < V)%Q) by (apply F2Q_pos; lia).
  assert (EX : (X == inject_Z (Zpos m * 2 ^ s) * pow2 (e' + e'))%Q).
  { unfold X. rewrite <- (F2Q_shift (Zpos m) e s) by lia.
    unfold F2Q. replace (e - s) with (e' + e') by (unfold s; lia). reflexivity. }
  assert (EV : (V * V == inject_Z (Zpos qp * Zpos qp) * pow2 (e' + e'))%Q).
  { unfold V, F2Q. rewrite inject_Z_mult, pow2_add. ring. }
  assert (EV1 : ((V + pow2 e') * (V + pow2 e')
                 == inject_Z ((Zpos qp + 1) * (Zpos qp + 1)) * pow2 (e' + e'))%Q).
  { unfold V, F2Q. rewrite inject_Z_mult, inject_Z_plus, pow2_add. ring. }
  pose proof (pow2_pos (e' + e')) as Pe. pose proof (pow2_pos e') as Pe'.
  assert (B1 : (V * V <= X)%Q).
  { rewrite EV, EX. apply Qmult_le_compat_r; [|lra]. rewrite <- Zle_Qle. lia. }
  assert (B2 : (X <= (V + pow2 e') * (V + pow2 e'))%Q).
  { rewrite EV1, EX. apply Qmult_le_compat_r; [|lra]. rewrite <- Zle_Qle. lia. }
  pose proof (ulp_le (Zpos qp) e' Hqlo) as B3. fold V in B3.
  pose proof unit_roundoff_range as [U0 U1].
  destruct Hb as [Hb1 Hb2].
  apply (sqrt_bounds_aux (unit_roundoff prec) V X N (pow2 e')); try assumption. lra.
Qed.

End Ops.

Lemma exponent_close (prec : Z) (m1 m2 : positive) (e1 e2 : Z) :
  1 <= prec ->
  2 ^ (prec - 1) <= Zpos m1 < 2 ^ prec ->
  2 ^ (prec - 1) <= Zpos m2 < 2 ^ prec ->
  (F2Q (Zpos m1) e1 <= 2 * F2Q (Zpos m2) e2)%Q -> e1 <= e2 + 1.
Proof.
  intros Hp H1 H2 H.
  destruct (F2Q_binade (Zpos m1) prec e1 H1 Hp) as [L1 _].
  destruct (F2Q_binade (Zpos m2) prec e2 H2 Hp) as [_ U2].
  assert (pow2 (prec + e1 - 1) < pow2 (1 + (prec + e2)))%Q.
  { rewrite (pow2_add 1). change (pow2 1) with 2%Q. lra. }
  apply pow2_lt_inv in H0. lia.
Qed.

Lemma div_half_even_mid (n d k : Z) :
  0 < d -> (2 * k - 1) * d < 2 * n < (2 * k + 1) * d ->
  div_half_even n d = k.
Proof.
  intros Hd [Hl Hu]. unfold div_half_even. rewrite div_eucl_div_mod.
  pose proof (Z.div_mod n d ltac:(lia)) as Hdm.
  pose proof (Z.mod_pos_bound n d Hd) as Hmod.
  set (q := n / d) in *. set (r := n mod d) in *.
  assert (q = k - 1 \/ q = k) as [Hq|Hq] by nia.
  - assert (d < 2 * r) by nia.
    destruct (Z.compare_spec (2 * r) d); lia.
  - assert (2 * r < d) by nia.
    destruct (Z.compare_spec (2 * r) d); lia.
Qed.

Lemma F2Q_neg (m : Z) (k : positive) :
  (F2Q m (Zneg k) == m # (2 ^ k))%Q.
Proof.
  rewrite Qmake_Qdiv. unfold Qdiv, F2Q. apply Qmult_comp; [reflexivity|].
  rewrite Pos2Z.inj_pow. rewrite (Zpower_Qpower 2 (Zpos k)) by lia. reflexivity.
Qed.

(** A binary64 value between 0.99995 and 1.00005 is rounded to [1.0] at
    four decimals, and is at least the threshold. *)
Lemma respond_near_one (m : positive) (e : Z) :
  normal 53 1024 m e ->
  (99995 # 100000 < F2Q (Zpos m) e)%Q -> (F2Q (Zpos m) e < 100005 # 100000)%Q ->
  respond (S754_finite false m e) = {| similarity := ONE; is_match := true |}.
Proof.
  intros [Hm _] Hlo Hhi.
  destruct (F2Q_binade (Zpos m) 53 e Hm ltac:(lia)) as [B1 B2].
  assert (He : -53 <= e <= -52).
  { assert (pow2 (53 + e - 1) < pow2 1)%Q by (change (pow2 1) with 2%Q; lra).
    assert (pow2 (-1) < pow2 (53 + e))%Q by (change (pow2 (-1)) with (1 # 2)%Q; lra).
    apply pow2_lt_inv in H, H0. lia. }
  assert (e = -53 \/ e = -52) as [-> | ->] by lia.
  - rewrite (F2Q_neg (Zpos m) 53) in Hlo, Hhi.
    unfold Qlt in Hlo, Hhi. cbn [Qnum Qden] in Hlo, Hhi.
    unfold respond. f_equal.
    + unfold py_round. cbn [Z.leb Z.compare Z.opp].
      rewrite (div_half_even_mid _ _ 10000).
      * vm_compute. reflexivity.
      * reflexivity.
      * change (10 ^ Z.of_nat 4) with 10000. change (2 ^ 53) with 9007199254740992.
        change (Zpos (2 ^ 53)) with 9007199254740992 in Hlo, Hhi. lia.
    + unfold f64_leb, SFleb, SFcompare, THRESHOLD. cbn [Z.compare Pos.compare Pos.compare_cont].
      change (Zpos (2 ^ 53)) with 9007199254740992 in Hlo, Hhi.
      change (Pos.compare_cont Eq 7205759403792794 m)
        with (Zpos 7205759403792794 ?= Zpos m).
      destruct (Z.compare_spec 7205759403792794 (Zpos m)); try reflexivity. lia.
  - rewrite (F2Q_neg (Zpos m) 52) in Hlo, Hhi.
    unfold Qlt in Hlo, Hhi. cbn [Qnum Qden] in Hlo, Hhi.
    unfold respond. f_equal.
    unfold py_round. cbn [Z.leb Z.compare Z.opp].
    rewrite (div_half_even_mid _ _ 10000).
    + vm_compute. reflexivity.
    + reflexivity.
    + change (10 ^ Z.of_nat 4) with 10000. change (2 ^ 52) with 4503599627370496.
      change (Zpos (2 ^ 52)) with 4503599627370496 in Hlo, Hhi. lia.
Qed.

(* ------------------------------------------------------------------ *)
(** ** Every result is a number of its format *)
(* ------------------------------------------------------------------ *)

Section Valid.
Variables prec emax : Z.
Hypothesis Hprec : 0 < prec.
Hypothesis Hemax : 3 <= emax + prec.

Lemma canonical_iff (m : positive) (e : Z) :
  canonical_mantissa prec emax m e = true
  <-> fexp prec emax (Zpos (digits2_pos m) + e) = e.
Proof. unfold canonical_mantissa. apply Z.eqb_eq. Qed.

Lemma div_pow2_digits (m d n : Z) :
  2 ^ (d - 1) <= m < 2 ^ d -> 0 <= n < d ->
  2 ^ (d - n - 1) <= m / 2 ^ n < 2 ^ (d - n).
Proof.
  intros Hm Hn.
  pose proof (div_pow2_bounds (d - n) ltac:(lia) m d ltac:(lia) Hm) as H.
  replace (d - (d - n)) with n in H by lia. exact H.
Qed.

(** The second alignment of [binary_round_aux]: a mantissa that is
    canonical at [e1], or a power of two one digit too long. *)
Lemma realign_valid (sx : bool) (rp : positive) (e1 : Z) :
  let dr := Zpos (digits2_pos rp) in
  fexp prec emax (dr + e1) = e1
  \/ (fexp prec emax (dr + e1) = e1 + 1 /\ Zpos rp = 2 ^ (dr - 1) /\ 2 <= dr) ->
  valid_binary prec emax
    (let '(mrs'', e'') := shr_fexp prec emax (Zpos rp) e1 loc_Exact in
     match shr_m mrs'' with
     | Z0 => S754_zero sx
     | Zpos m => if e'' <=? emax - prec then S754_finite sx m e''
                 else S754_infinity sx
     | Zneg _ => S754_nan
     end) = true.
Proof.
  intros dr [H|(H & Hr & Hd)]; unfold shr_fexp; cbn [Zdigits2]; fold dr; rewrite H.
  - replace (e1 - e1) with 0 by lia. cbn [shr shr_record_of_loc shr_m].
    destruct (e1 <=? emax - prec) eqn:E; [|reflexivity].
    cbn [valid_binary]. unfold bounded. rewrite E, andb_true_r.
    apply canonical_iff. exact H.
  - replace (e1 + 1 - e1) with 1 by lia. cbn [shr iter_pos].
    rewrite shr_1_m by (cbn; lia). cbn [shr_record_of_loc shr_m].
    rewrite Hr.
    assert (E2 : 2 ^ (dr - 1) = 2 * 2 ^ (dr - 2)).
    { rewrite <- Z.pow_succ_r by lia. f_equal. lia. }
    assert (P : 0 < 2 ^ (dr - 2)) by (apply Z.pow_pos_nonneg; lia).
    replace (2 ^ (dr - 1) / 2) with (2 ^ (dr - 2))
      by (apply Z.div_unique with 0; lia).
    destruct (2 ^ (dr - 2)) as [|mp|mp] eqn:Emp; try lia.
    destruct (e1 + 1 <=? emax - prec) eqn:E; [|reflexivity].
    cbn [valid_binary]. unfold bounded. rewrite E, andb_true_r.
    apply canonical_iff.
    assert (Dm : Zpos (digits2_pos mp) = dr - 1).
    { apply digits2_pos_unique. rewrite <- Emp.
      replace (dr - 1 - 1) with (dr - 2) by lia. lia. }
    rewrite Dm. replace (dr - 1 + (e1 + 1)) with (dr + e1) by lia. exact H.
Qed.

(** Whatever is rounded, the result is a number of the format. *)
Lemma round_aux_valid (sx : bool) (m : positive) (e : Z) (l : location) :
  e <= fexp prec emax (Zpos (digits2_pos m) + e) ->
  valid_binary prec emax (binary_round_aux prec emax sx (Zpos m) e l) = true.
Proof.
  intros Hle. pose proof (digits2_pos_bounds m) as Hm.
  set (d := Zpos (digits2_pos m)) in *.
  set (e1 := fexp prec emax (d + e)) in *.
  assert (Hs : shr_m (fst (shr_fexp prec emax (Zpos m) e l)) = Zpos m / 2 ^ (e1 - e)
               /\ snd (shr_fexp prec emax (Zpos m) e l) = e1).
  { unfold shr_fexp. cbn [Zdigits2]. fold d e1.
    destruct (shr_spec (shr_record_of_loc (Zpos m) l) e (e1 - e)) as [H1 H2].
    { lia. } { rewrite shr_record_of_loc_m. lia. }
    rewrite shr_record_of_loc_m in H1. split; [exact H1|lia]. }
  destruct Hs as [H1 H2]. unfold binary_round_aux.
  destruct (shr_fexp prec emax (Zpos m) e l) as [mrs1 e1'].
  cbn [fst snd] in H1, H2. subst e1'.
  pose proof (round_nearest_even_range (shr_m mrs1) (loc_of_shr_record mrs1)) as Hr.
  remember (round_nearest_even (shr_m mrs1) (loc_of_shr_record mrs1)) as r eqn:Er.
  clear Er. rewrite H1 in Hr. clear H1 mrs1.
  set (n := e1 - e) in *.
  assert (Pn : 0 < 2 ^ n) by (apply Z.pow_pos_nonneg; lia).
  assert (M0 : 0 <= Zpos m / 2 ^ n) by (apply Z.div_pos; lia).
  assert (Hemin : emin prec emax <= e1) by (unfold e1, fexp; lia).
  destruct r as [|rp|rp]; try lia.
  - (* rounded to zero *)
    unfold shr_fexp. cbn [Zdigits2].
    assert (fexp prec emax (0 + e1) - e1 <= 0) by (unfold fexp; lia).
    destruct (fexp prec emax (0 + e1) - e1) as [|p|p] eqn:E; try lia; reflexivity.
  - apply realign_valid.
    destruct (Z.lt_ge_cases n d) as [Hnd|Hnd].
    + (* some digits are left *)
      pose proof (div_pow2_digits (Zpos m) d n Hm ltac:(lia)) as Hb.
      assert (Hf : fexp prec emax (d - n + e1) = e1).
      { replace (d - n + e1) with (d + e) by (unfold n; lia). reflexivity. }
      assert (E2 : 2 ^ (d - n) = 2 * 2 ^ (d - n - 1)).
      { rewrite <- Z.pow_succ_r by lia. f_equal. lia. }
      destruct (Z.eq_dec (Zpos rp) (2 ^ (d - n))) as [Ec|Nc].
      * assert (Dr : Zpos (digits2_pos rp) = d - n + 1).
        { apply digits2_pos_unique. replace (d - n + 1 - 1) with (d - n) by lia.
          rewrite Z.pow_add_r by lia. change (2 ^ 1) with 2.
          assert (0 < 2 ^ (d - n)) by (apply Z.pow_pos_nonneg; lia). lia. }
        rewrite Dr.
        assert (fexp prec emax (d - n + 1 + e1) = e1
                \/ fexp prec emax (d - n + 1 + e1) = e1 + 1)
          by (unfold fexp in *; lia).
        destruct H as [H|H]; [left; exact H|right].
        split; [exact H|]. split; [|lia].
        replace (d - n + 1 - 1) with (d - n) by lia. exact Ec.
      * assert (Dr : Zpos (digits2_pos rp) = d - n).
        { apply digits2_pos_unique. lia. }
        rewrite Dr. left. exact Hf.
    + (* every digit was shifted out: the result is the least subnormal *)
      assert (Hz : Zpos m / 2 ^ n = 0).
      { apply Z.div_small. split; [lia|].
        assert (2 ^ d <= 2 ^ n) by (apply Z.pow_le_mono_r; lia). lia. }
      assert (rp = 1%positive) by lia. subst rp. cbn [digits2_pos].
      left. unfold e1, n, fexp in *. lia.
Qed.


Lemma binary_round_valid (sx : bool) (m : positive) (e : Z) :
  valid_binary prec emax (binary_round prec emax sx m e) = true.
Proof.
  unfold binary_round. pose proof (digits2_pos_bounds m) as Hm.
  set (d := Zpos (digits2_pos m)) in *.
  destruct (shl_align_spec m e (fexp prec emax (d + e))) as [Hs Hf].
  destruct (shl_align m e (fexp prec emax (d + e))) as [mz ez].
  cbn [fst snd] in Hs, Hf.
  apply round_aux_valid.
  assert (Dz : Zpos (digits2_pos mz) = d + (e - ez)).
  { apply digits2_pos_unique. rewrite Hf, <- Hs.
    assert (0 < 2 ^ (e - ez)) by (apply Z.pow_pos_nonneg; lia).
    replace (d + (e - ez) - 1) with ((d - 1) + (e - ez)) by lia.
    rewrite !Z.pow_add_r by lia. nia. }
  rewrite Dz. replace (d + (e - ez) + ez) with (d + e) by lia. lia.
Qed.

Lemma canonical_digits (m : positive) (e : Z) :
  bounded prec emax m e = true ->
  fexp prec emax (Zpos (digits2_pos m) + e) = e /\ e <= emax - prec.
Proof.
  unfold bounded. rewrite andb_true_iff, canonical_iff, Z.leb_le. tauto.
Qed.

Lemma SFmul_valid (x y : float) :
  valid_binary prec emax x = true -> valid_binary prec emax y = true ->
  valid_binary prec emax (SFmul prec emax x y) = true.
Proof.
  destruct x as [sx|sx| |sx mx ex], y as [sy|sy| |sy my ey]; try reflexivity.
  cbn [valid_binary SFmul]. intros Hx Hy.
  apply canonical_digits in Hx, Hy. destruct Hx as [Hx _], Hy as [Hy _].
  apply round_aux_valid.
  pose proof (digits2_pos_bounds mx) as Bx. pose proof (digits2_pos_bounds my) as By.
  set (dx := Zpos (digits2_pos mx)) in *. set (dy := Zpos (digits2_pos my)) in *.
  assert (Hlow : 2 ^ (dx + dy - 2) <= Zpos (mx * my)).
  { replace (dx + dy - 2) with ((dx - 1) + (dy - 1)) by lia.
    assert (0 < 2 ^ (dx - 1)) by (apply Z.pow_pos_nonneg; lia).
    assert (0 < 2 ^ (dy - 1)) by (apply Z.pow_pos_nonneg; lia).
    rewrite Z.pow_add_r, Pos2Z.inj_mul by lia. nia. }
  apply digits_lower in Hlow.
  unfold fexp, emin in *. lia.
Qed.

Lemma SFadd_valid (x y : float) :
  valid_binary prec emax x = true -> valid_binary prec emax y = true ->
  valid_binary prec emax (SFadd prec emax x y) = true.
Proof.
  destruct x as [sx|sx| |sx mx ex], y as [sy|sy| |sy my ey];
    try reflexivity; try (intros; assumption);
    try (destruct sx, sy; reflexivity).
  intros _ _. cbn [SFadd].
  destruct (cond_Zopp sx (Zpos (fst (shl_align mx ex (Z.min ex ey))))
            + cond_Zopp sy (Zpos (fst (shl_align my ey (Z.min ex ey)))));
    cbn [binary_normalize]; try reflexivity; apply binary_round_valid.
Qed.

End Valid.

Lemma to_f32_valid (x : float) : valid_binary 24 128 (to_f32 x) = true.
Proof.
  destruct x; try reflexivity. apply binary_round_valid; lia.
Qed.

Lemma dot_from_valid (a b : list float) : forall acc,
  Forall (fun v => valid_binary 24 128 v = true) a ->
  Forall (fun v => valid_binary 24 128 v = true) b ->
  valid_binary 24 128 acc = true ->
  valid_binary 24 128 (dot_from acc a b) = true.
Proof.
  revert b. induction a as [|x a IH]; intros [|y b] acc Ha Hb Hacc; simpl; auto.
  inversion Ha; subst. inversion Hb; subst.
  apply IH; auto. apply SFadd_valid; try lia; auto. apply SFmul_valid; try lia; auto.
Qed.

Lemma dot_f32_valid (x y : list float) :
  valid_binary 24 128 (dot (List.map to_f32 x) (List.map to_f32 y)) = true.
Proof.
  apply dot_from_valid; try reflexivity;
    apply Forall_forall; intros v Hv; apply in_map_iff in Hv;
    destruct Hv as (w & <- & _); apply to_f32_valid.
Qed.

Lemma in_range_normal (s : float) :
  valid_binary 24 128 s = true ->
  SFleb NORM_LOW s = true -> SFltb s NORM_HIGH = true ->
  exists m e, s = S754_finite false m e
              /\ 2 ^ 23 <= Zpos m < 2 ^ 24 /\ -35 <= e <= 102.
Proof.
  intros Hv Hlo Hhi.
  destruct s as [sg|sg| |sg m e]; try discriminate Hlo.
  - destruct sg; discriminate.
  - destruct sg; [discriminate Hlo|].
    cbn [valid_binary] in Hv.
    apply (canonical_digits 24 128) in Hv. destruct Hv as [Hc _].
    pose proof (digits2_pos_bounds m) as Hm.
    set (d := Zpos (digits2_pos m)) in *.
    unfold SFleb, SFltb, SFcompare, NORM_LOW, NORM_HIGH in Hlo, Hhi.
    assert (He1 : -35 <= e).
    { destruct (Z.le_gt_cases (-35) e) as [|G]; [assumption|].
      rewrite (proj2 (Z.compare_gt_iff (-35) e) G) in Hlo. discriminate Hlo. }
    assert (Hd : d = 24) by (unfold fexp, emin in Hc; lia).
    rewrite Hd in Hm.
    exists m, e. split; [reflexivity|]. split; [exact Hm|]. split; [exact He1|].
    destruct (Z.lt_trichotomy e 103) as [E|[E|E]]; [lia| |].
    + subst e.
      change (Pos.compare_cont Eq m 8388608) with (Zpos m ?= 8388608) in Hhi.
      rewrite Z.compare_refl in Hhi.
      destruct (Z.compare_spec (Zpos m) 8388608) as [F|F|F];
        try discriminate Hhi.
      change (2 ^ (24 - 1)) with 8388608 in Hm. lia.
    + rewrite (proj2 (Z.compare_gt_iff e 103) E) in Hhi. discriminate Hhi.
Qed.


Lemma to_f64_valid (x : float) :
  valid_binary 53 1024 x = true -> valid_binary 53 1024 (to_f64 x) = true.
Proof.
  destruct x; try reflexivity. intros _. apply binary_round_valid; lia.
Qed.

Lemma F2Q_neg_value (m : positive) (e : Z) : (F2Q (Zneg m) e < 0)%Q.
Proof.
  unfold F2Q. pose proof (pow2_pos e).
  assert (H0 : Zneg m < 0) by lia. rewrite Zlt_Qlt in H0.
  change (inject_Z 0) with 0%Q in H0.
  setoid_replace 0%Q with (0 * pow2 e)%Q by ring.
  apply Qmult_lt_compat_r; assumption.
Qed.

(** [0.80 <= c] on binary64 numbers, read on their values. *)
Lemma leb_threshold_spec (c : float) :
  valid_binary 53 1024 c = true ->
  f64_leb THRESHOLD c = true
  <-> c = S754_infinity false
      \/ (is_finite c = true /\ (SF2Q THRESHOLD <= SF2Q c)%Q).
Proof.
  intros Hv.
  assert (T0 : (0 < SF2Q THRESHOLD)%Q) by (apply F2Q_pos; reflexivity).
  destruct c as [s|s| |s m e]; cbn [is_finite].
  - split; [discriminate|]. intros [H|[_ H]]; [discriminate H|].
    change (SF2Q (S754_zero s)) with 0%Q in H. lra.
  - destruct s; split; try discriminate; auto.
    intros [H|[H _]]; discriminate H.
  - split; [discriminate|]. intros [H|[H _]]; discriminate H.
  - destruct s.
    + split; [discriminate|]. intros [H|[_ H]]; [discriminate H|].
      pose proof (F2Q_neg_value m e).
      change (SF2Q (S754_finite true m e)) with (F2Q (Zneg m) e) in H. lra.
    + cbn [valid_binary] in Hv.
      apply (canonical_digits 53 1024) in Hv. destruct Hv as [Hc _].
      pose proof (digits2_pos_bounds m) as Hm.
      set (d := Zpos (digits2_pos m)) in *.
      assert (Hd : d <= 53) by (unfold fexp, emin in Hc; lia).
      assert (D1 : 1 <= d) by (unfold d; lia).
      destruct (F2Q_binade (Zpos m) d e Hm D1) as [B1 B2].
      assert (TV : (SF2Q THRESHOLD == 7205759403792794 # 9007199254740992)%Q)
        by reflexivity.
      change (SF2Q (S754_finite false m e)) with (F2Q (Zpos m) e). rewrite TV.
      unfold f64_leb, SFleb, SFcompare, THRESHOLD.
      change (Pos.compare_cont Eq 7205759403792794 m)
        with (Zpos 7205759403792794 ?= Zpos m).
      destruct (Z.lt_trichotomy (-53) e) as [E|[E|E]].
      * (* a larger exponent: at least one *)
        rewrite (proj2 (Z.compare_lt_iff (-53) e) E).
        assert (d = 53) by (unfold fexp, emin in Hc; lia).
        assert (pow2 0 <= pow2 (d + e - 1))%Q by (apply pow2_le; lia).
        change (pow2 0) with 1%Q in H0.
        split; [intros _; right; split; [reflexivity|lra]|reflexivity].
      * subst e. rewrite Z.compare_refl.
        rewrite (F2Q_neg (Zpos m) 53).
        change (Zpos (2 ^ 53)) with 9007199254740992.
        unfold Qle. cbn [Qnum Qden].
        destruct (Z.compare_spec 7205759403792794 (Zpos m)) as [F|F|F].
        -- split; [intros _; right; split; [reflexivity|lia]|reflexivity].
        -- split; [intros _; right; split; [reflexivity|lia]|reflexivity].
        -- split; [discriminate|]. intros [H|[_ H]]; [discriminate H|lia].
      * (* a smaller exponent: below one half *)
        rewrite (proj2 (Z.compare_gt_iff (-53) e) E).
        assert (pow2 (d + e) <= pow2 (-1))%Q by (apply pow2_le; lia).
        change (pow2 (-1)) with (1 # 2)%Q in H.
        split; [discriminate|]. intros [H1|[_ H1]]; [discriminate H1|lra].
Qed.

(* ------------------------------------------------------------------ *)
(** ** The threshold *)
(* ------------------------------------------------------------------ *)

Lemma cos_sim_valid (promo : promotion) (a b : list float) :
  valid_binary 53 1024 (cos_sim promo a b) = true.
Proof.
  unfold cos_sim.
  destruct (quotient promo (dot a b) (add_epsilon promo (f32_mul (norm a) (norm b))));
    try reflexivity.
  apply binary_round_valid; lia.
Qed.

(* ------------------------------------------------------------------ *)
(** ** Self-similarity *)
(* ------------------------------------------------------------------ *)

Lemma u24 : (unit_roundoff 24 == 1 # 8388608)%Q.
Proof. reflexivity. Qed.

Lemma u53 : (unit_roundoff 53 == 1 # 4503599627370496)%Q.
Proof. reflexivity. Qed.

Lemma cancel_r (a c d : Q) : (0 < d -> a * d <= c * d -> a <= c)%Q.
Proof. intros H. apply Qmult_le_r. exact H. Qed.

Lemma square_range (m : positive) (e : Z) :
  normal 24 128 m e -> -35 <= e <= 102 ->
  (1 # 4096 <= F2Q (Zpos m) e /\ F2Q (Zpos m) e < pow2 126)%Q.
Proof.
  intros [Hm _] He.
  destruct (F2Q_binade (Zpos m) 24 e Hm ltac:(lia)) as [B1 B2].
  split.
  - apply Qle_trans with (pow2 (24 + e - 1)); [|exact B1].
    change (1 # 4096)%Q with (pow2 (-12)). apply pow2_le. lia.
  - apply Qlt_le_trans with (pow2 (24 + e)); [exact B2|]. apply pow2_le. lia.
Qed.

Lemma chain_weak (m : positive) (e : Z) :
  normal 24 128 m e -> -35 <= e <= 102 ->
  let s := S754_finite false m e in
  respond (to_f64 (f32_div s (f32_add (f32_mul (f32_sqrt s) (f32_sqrt s))
                                      (to_f32 EPSILON))))
  = {| similarity := ONE; is_match := true |}.
Proof.
  intros Hn He s. unfold s, f32_div, f32_add, f32_mul, f32_sqrt.
  destruct (square_range m e Hn He) as [S1 S2].
  set (S := F2Q (Zpos m) e) in *.
  assert (P126 : (pow2 126 == 85070591730234615865843651857942052864 # 1)%Q)
    by reflexivity.
  assert (P127 : (pow2 (128 - 1) == 170141183460469231731687303715884105728 # 1)%Q)
    by reflexivity.
  assert (Pm126 : (pow2 (emin 24 128 + 24 - 1)
                   == 1 # 85070591730234615865843651857942052864)%Q)
    by reflexivity.
  (* the norm *)
  destruct (sqrt_rel 24 128 ltac:(lia) m e Hn) as (mn & en & Hsq & Nn & Nb1 & Nb2).
  { unfold emin. lia. } { lia. }
  rewrite Hsq. set (N := F2Q (Zpos mn) en) in *.
  rewrite u24 in Nb1, Nb2. fold S in Nb1, Nb2.
  (* its square *)
  destruct (mul_rel 24 128 ltac:(lia) mn mn en en Nn Nn) as (mp & ep & Hmul & Pn & Pb1 & Pb2).
  { fold N. rewrite Pm126. lra. }
  { fold N. rewrite P127. lra. }
  rewrite Hmul. fold N in Pb1, Pb2. set (P := F2Q (Zpos mp) ep) in *.
  rewrite u24 in Pb1, Pb2. fold N in Pb1, Pb2.
  (* plus epsilon *)
  change (to_f32 EPSILON) with (S754_finite false 11258999 (-50)).
  assert (En : normal 24 128 11258999 (-50)) by (unfold normal, emin; simpl; lia).
  assert (Ev : (F2Q 11258999 (-50) == 11258999 # 1125899906842624)%Q) by reflexivity.
  destruct (add_rel 24 128 ltac:(lia) mp 11258999 ep (-50) Pn En)
    as (md & ed & Hadd & Dn & Db1 & Db2).
  { fold P. rewrite Ev, P127. lra. }
  rewrite Hadd. fold P in Db1, Db2. set (D := F2Q (Zpos md) ed) in *.
  rewrite u24, Ev in Db1, Db2. fold P in Db1, Db2.
  (* the quotient *)
  assert (D0 : (0 < D)%Q) by (apply F2Q_pos; lia).
  assert (Hed : e - 1 <= ed <= e + 1).
  { destruct Hn as [Hm _], Dn as [Hmd _]. split.
    - assert (e <= ed + 1); [|lia].
      apply (exponent_close 24 m md); try assumption; try lia. fold S D. lra.
    - apply (exponent_close 24 md m); try assumption; try lia. fold S D. lra. }
  destruct (div_rel 24 128 ltac:(lia) m md e ed Hn Dn)
    as (mc & ec & Hdiv & Cn & Cb1 & Cb2).
  { unfold emin. lia. } { lia. }
  rewrite Hdiv. fold S D in Cb1, Cb2. set (C := F2Q (Zpos mc) ec) in *.
  rewrite u24 in Cb1, Cb2. fold S D C in Cb1, Cb2.
  (* float(...) *)
  unfold to_f64.
  destruct (binary_round_rel 53 1024 ltac:(lia) mc 24 ec)
    as (mr & er & Hr & Rn & Rb1 & Rb2).
  { destruct Cn as [Hmc _]. exact Hmc. }
  { destruct Cn as [_ Hec]. unfold emin in *. lia. }
  { destruct Cn as [_ Hec]. unfold emin in *. lia. }
  rewrite Hr. fold C in Rb1, Rb2. set (R := F2Q (Zpos mr) er) in *.
  rewrite u53 in Rb1, Rb2. fold C in Rb1, Rb2.
  assert (C1 : (999951 # 1000000 <= C)%Q).
  { apply (cancel_r _ _ D D0). lra. }
  assert (C2 : (C <= 1000001 # 1000000)%Q).
  { apply (cancel_r _ _ D D0). lra. }
  apply respond_near_one; [exact Rn| |]; fold R; lra.
Qed.

Lemma chain_legacy (m : positive) (e : Z) :
  normal 24 128 m e -> -35 <= e <= 102 ->
  let s := S754_finite false m e in
  respond (to_f64 (f64_div (to_f64 s)
                     (f64_add (to_f64 (f32_mul (f32_sqrt s) (f32_sqrt s))) EPSILON)))
  = {| similarity := ONE; is_match := true |}.
Proof.
  intros Hn He s. unfold s, f64_div, f64_add, f32_mul, f32_sqrt.
  destruct (square_range m e Hn He) as [S1 S2].
  set (S := F2Q (Zpos m) e) in *.
  assert (P126 : (pow2 126 == 85070591730234615865843651857942052864 # 1)%Q)
    by reflexivity.
  assert (P127 : (pow2 (128 - 1) == 170141183460469231731687303715884105728 # 1)%Q)
    by reflexivity.
  assert (Pm126 : (pow2 (emin 24 128 + 24 - 1)
                   == 1 # 85070591730234615865843651857942052864)%Q)
    by reflexivity.
  assert (P1023 : (170141183460469231731687303715884105728 # 1 <= pow2 (1024 - 1))%Q).
  { rewrite <- P127. apply pow2_le. lia. }
  (* the norm and its square, in binary32 *)
  destruct (sqrt_rel 24 128 ltac:(lia) m e Hn) as (mn & en & Hsq & Nn & Nb1 & Nb2).
  { unfold emin. lia. } { lia. }
  rewrite Hsq. set (N := F2Q (Zpos mn) en) in *.
  rewrite u24 in Nb1, Nb2. fold S in Nb1, Nb2.
  destruct (mul_rel 24 128 ltac:(lia) mn mn en en Nn Nn) as (mp & ep & Hmul & Pn & Pb1 & Pb2).
  { fold N. rewrite Pm126. lra. }
  { fold N. rewrite P127. lra. }
  rewrite Hmul. fold N in Pb1, Pb2. set (P := F2Q (Zpos mp) ep) in *.
  rewrite u24 in Pb1, Pb2. fold N in Pb1, Pb2.
  (* widened to binary64 *)
  unfold to_f64 at 3.
  destruct (binary_round_rel 53 1024 ltac:(lia) mp 24 ep)
    as (mw & ew & Hw & Wn & Wb1 & Wb2).
  { destruct Pn as [Hmp _]. exact Hmp. }
  { destruct Pn as [_ Hep]. unfold emin in *. lia. }
  { destruct Pn as [_ Hep]. unfold emin in *. lia. }
  rewrite Hw. fold P in Wb1, Wb2. set (W := F2Q (Zpos mw) ew) in *.
  rewrite u53 in Wb1, Wb2. fold P in Wb1, Wb2.
  (* plus epsilon *)
  unfold EPSILON.
  assert (En : normal 53 1024 6044629098073146 (-79))
    by (unfold normal, emin; simpl; lia).
  assert (Ev : (F2Q 6044629098073146 (-79)
                == 6044629098073146 # 604462909807314587353088)%Q) by reflexivity.
  destruct (add_rel 53 1024 ltac:(lia) mw 6044629098073146 ew (-79) Wn En)
    as (md & ed & Hadd & Dn & Db1 & Db2).
  { fold W. rewrite Ev. apply Qlt_le_trans with (2 := P1023). lra. }
  rewrite Hadd. fold W in Db1, Db2. set (D := F2Q (Zpos md) ed) in *.
  rewrite u53, Ev in Db1, Db2. fold W in Db1, Db2.
  (* the numerator, widened *)
  unfold to_f64 at 2.
  destruct (binary_round_rel 53 1024 ltac:(lia) m 24 e)
    as (mt & et & Ht & Tn & Tb1 & Tb2).
  { destruct Hn as [Hm _]. exact Hm. }
  { unfold emin. lia. }
  { lia. }
  rewrite Ht. fold S in Tb1, Tb2. set (T := F2Q (Zpos mt) et) in *.
  rewrite u53 in Tb1, Tb2. fold S in Tb1, Tb2.
  (* the quotient *)
  assert (D0 : (0 < D)%Q) by (apply F2Q_pos; lia).
  assert (Hed : et - 1 <= ed <= et + 1).
  { destruct Tn as [Hmt _], Dn as [Hmd _]. split.
    - assert (et <= ed + 1); [|lia].
      apply (exponent_close 53 mt md); try assumption; try lia. fold T D. lra.
    - apply (exponent_close 53 md mt); try assumption; try lia. fold T D. lra. }
  destruct (div_rel 53 1024 ltac:(lia) mt md et ed Tn Dn)
    as (mc & ec & Hdiv & Cn & Cb1 & Cb2).
  { unfold emin. lia. } { lia. }
  rewrite Hdiv. fold T D in Cb1, Cb2. set (C := F2Q (Zpos mc) ec) in *.
  rewrite u53 in Cb1, Cb2. fold T D C in Cb1, Cb2.
  assert (C1 : (999951 # 1000000 <= C)%Q).
  { apply (cancel_r _ _ D D0). lra. }
  assert (C2 : (C <= 1000001 # 1000000)%Q).
  { apply (cancel_r _ _ D D0). lra. }
  (* float(...) *)
  unfold to_f64.
  destruct (binary_round_rel 53 1024 ltac:(lia) mc 53 ec)
    as (mr & er & Hr & Rn & Rb1 & Rb2).
  { destruct Cn as [Hmc _]. exact Hmc. }
  { destruct Cn as [_ Hec]. lia. }
  { destruct Cn as [Hmc _].
    destruct (F2Q_binade (Zpos mc) 53 ec Hmc ltac:(lia)) as [B _]. fold C in B.
    assert (pow2 (53 + ec - 1) < pow2 1)%Q by (change (pow2 1) with 2%Q; lra).
    apply pow2_lt_inv in H. lia. }
  rewrite Hr. fold C in Rb1, Rb2. set (R := F2Q (Zpos mr) er) in *.
  rewrite u53 in Rb1, Rb2. fold C in Rb1, Rb2.
  apply respond_near_one; [exact Rn| |]; fold R; lra.
Qed.

Lemma self_similarity_normal
  (promo : promotion) (x : list float) (g : Globals) (m : positive) (e : Z) :
  dot (List.map to_f32 x) (List.map to_f32 x) = S754_finite false m e ->
  2 ^ 23 <= Zpos m < 2 ^ 24 -> -35 <= e <= 102 ->
  compare promo {| embedding_a := x; embedding_b := x |} g
  = (Return {| similarity := ONE; is_match := true |}, g, arith_events).
Proof.
  intros Hdot Hm He.
  assert (Hn : normal 24 128 m e) by (split; [exact Hm|unfold emin; lia]).
  rewrite compare_returns by reflexivity.
  f_equal. f_equal. f_equal.
  unfold cos_sim, norm. rewrite Hdot.
  destruct promo; cbn [quotient add_epsilon].
  - apply (chain_legacy m e Hn He).
  - apply (chain_weak m e Hn He).
Qed.

(** C1, as amended: when the squared norm [s] of [x], as [np.dot] computes
    it in binary32, satisfies [2^-12 <= s < 2^126], [compare(x, x)] returns
    the similarity 1.0 (and [is_match] true), under either promotion
    rule. *)
Theorem self_similarity_one
  (promo : promotion) (x : list float) (g : Globals) :
  let s := dot (List.map to_f32 x) (List.map to_f32 x) in
  SFleb NORM_LOW s = true -> SFltb s NORM_HIGH = true ->
  compare promo {| embedding_a := x; embedding_b := x |} g
  = (Return {| similarity := ONE; is_match := true |}, g, arith_events).
Proof.
  intros s Hlo Hhi.
  destruct (in_range_normal s (dot_f32_valid x x) Hlo Hhi)
    as (m & e & Hs & Hm & He).
  apply (self_similarity_normal promo x g m e Hs Hm He).
Qed.

(* ------------------------------------------------------------------ *)
(** ** Instances in the concrete world *)
(* ------------------------------------------------------------------ *)

Open Scope string_scope.

Lemma demo_serving (promo : promotion) :
  reachable (ext := demo) promo no_environ serving_embedding_only.
Proof.
  eapply reachable_step; [apply reachable_init|].
  eapply step_startup. reflexivity.
Qed.

Lemma demo_serving_loaded (promo : promotion) :
  reachable (ext := demo) promo token_environ serving_loaded.
Proof.
  eapply reachable_step; [apply reachable_init|].
  eapply step_startup. reflexivity.
Qed.

(** C3 fails as the spec has it: a pair whose cosine is exactly 4/5 is
    no match under either promotion rule when the vectors are small
    (the 1e-8 in the denominator weighs in), and [1, 0] against [4, 3] is
    reported with similarity 0.8 and no match under the promotion of
    NumPy 1. *)
Lemma exact_cosine_at_threshold_without_match :
  (forall promo,
     let a := [f64_frac 1 1024; f64_of_Z 0] in
     let b := [f64_frac 1 256; f64_frac 3 1024] in
     cosine_is a b (4 # 5)
     /\ List.length a = List.length b
     /\ exists resp,
          result (compare promo {| embedding_a := a; embedding_b := b |} loaded)
          = Return resp
          /\ is_match resp = false)
  /\ (let a := [f64_of_Z 1; f64_of_Z 0] in
      let b := [f64_of_Z 4; f64_of_Z 3] in
      cosine_is a b (4 # 5)
      /\ result (compare Legacy {| embedding_a := a; embedding_b := b |} loaded)
         = Return {| similarity := THRESHOLD; is_match := false |}).
Proof.
  split.
  - intros promo a b. split; [|split; [reflexivity|]].
    + unfold cosine_is. repeat split; vm_compute; (reflexivity || discriminate).
    + eexists. split; [reflexivity|]. destruct promo; vm_compute; reflexivity.
  - cbv zeta. split.
    + unfold cosine_is. repeat split; vm_compute; (reflexivity || discriminate).
    + vm_compute. reflexivity.
Qed.

(** C2 fails for [/diarize]: a [.txt] upload is written to a temporary
    file and handed to the pipeline. *)
Lemma diarize_accepts_unsupported_format :
  Path.mem (suffix_of (filename (upload "notes.txt"))) SUPPORTED_EXTENSIONS = false
  /\ trace (diarize (ext := demo) (upload "notes.txt") loaded)
     = [EvRead; EvTmpWrite ".txt"; EvPipeline; EvUnlink]
  /\ ~ checks_format (diarize (ext := demo)).
Proof.
  split; [reflexivity|]. split; [reflexivity|].
  intros H. destruct (H (upload "notes.txt") loaded eq_refl) as [H1 _].
  vm_compute in H1. discriminate H1.
Qed.

Lemma fussy_serving_loaded (promo : promotion) :
  reachable (flt := fussy) (ext := demo) promo token_environ serving_loaded.
Proof.
  eapply reachable_step; [apply reachable_init|].
  eapply step_startup. reflexivity.
Qed.

Lemma embed_rejects_unsupported_format_witness :
  embed (flt := fussy) (ext := demo) (upload "notes.txt") loaded
  = (Raise (unsupported_format ".txt"), loaded, [EvRead])
  /\ rejected_for_format ".txt"
       (embed (flt := fussy) (ext := demo) (upload "notes.txt") loaded)
  /\ (forall pipeline, diarization_pipeline loaded = Some pipeline ->
      (forall detail,
         result (diarize (flt := fussy) (ext := demo) (upload "notes.txt") loaded)
         <> Raise (HTTPException 400 detail))
      /\ (forall exc,
            mkstemp_fault (Faults := fussy) ".txt" = Some exc ->
            diarize (flt := fussy) (ext := demo) (upload "notes.txt") loaded
            = (Raise (Exception exc), loaded, [EvRead]))
      /\ (@temp_written fussy ".txt" [] ->
          exists r,
            diarize (flt := fussy) (ext := demo) (upload "notes.txt") loaded
            = (r, loaded, [EvRead; EvTmpWrite ".txt"; EvPipeline; EvUnlink]))).
Proof.
  apply (embed_rejects_unsupported_format Weak (flt := fussy) (ext := demo)
           token_environ serving_loaded (upload "notes.txt")
           (fussy_serving_loaded Weak));
    reflexivity.
Defined.

Lemma default_filename_passes_format_check_witness :
  (exists r rest,
     _load_audio (ext := demo) [] None loaded
     = (r, loaded, EvTmpWrite ".wav" :: EvTorchaudioLoad :: EvUnlink :: rest)
     /\ forall suffix, r <> Raise (unsupported_format suffix))
  /\ (forall pipeline, diarization_pipeline loaded = Some pipeline ->
      exists r,
        diarize (ext := demo) {| filename := None; content := [] |} loaded
        = (r, loaded, [EvRead; EvTmpWrite ".wav"; EvPipeline; EvUnlink]))
  /\ (forall other suffix,
        result (_load_audio (ext := demo) [] other loaded)
        = Raise (unsupported_format suffix) ->
        exists s, other = Some s /\ s <> EmptyString
                  /\ suffix = Path.lower (snd (Path.splitext s))
                  /\ Path.mem suffix SUPPORTED_EXTENSIONS = false).
Proof.
  apply (default_filename_passes_format_check (ext := demo) [] None loaded).
  left. reflexivity.
Defined.

Lemma globals_fixed_after_startup_witness :
  (exists t, _load_models (ext := demo) no_environ module_init
             = (Return tt, embedding_only, t))
  /\ (forall r, fst (handle (ext := demo) Weak r embedding_only) = embedding_only)
  /\ (forall q, step (ext := demo) Weak no_environ serving_embedding_only q ->
                stage q = Serving /\ globals q = embedding_only).
Proof.
  apply (globals_fixed_after_startup Weak (ext := demo) no_environ
           serving_embedding_only (demo_serving Weak)).
  reflexivity.
Defined.


(** C1 fails for small vectors: for the embedding [0.0001] the epsilon in
    the denominator is as large as the squared norm, and the similarity
    is 0.5. *)
Lemma self_similarity_of_small_vector :
  nonzero [f64_frac 1 10000] = true
  /\ result (compare Weak {| embedding_a := [f64_frac 1 10000];
                             embedding_b := [f64_frac 1 10000] |} loaded)
     = Return {| similarity := HALF; is_match := false |}
  /\ result (compare Legacy {| embedding_a := [f64_frac 1 10000];
                               embedding_b := [f64_frac 1 10000] |} loaded)
     = Return {| similarity := HALF; is_match := false |}
  /\ ~ self_similar Weak [f64_frac 1 10000]
  /\ ~ self_similar Legacy [f64_frac 1 10000].
Proof.
  split; [reflexivity|]. split; [vm_compute; reflexivity|].
  split; [vm_compute; reflexivity|].
  split; intros H; destruct (H loaded) as (resp & Hr & Hs);
    vm_compute in Hr; injection Hr as <-; discriminate Hs.
Qed.

(** Nor does C1 hold for vectors whose squared norm overflows binary32:
    the quotient is then [inf / inf]. *)
Lemma self_similarity_of_huge_vector (promo : promotion) :
  nonzero [f64_of_Z (10 ^ 20)] = true
  /\ result (compare promo {| embedding_a := [f64_of_Z (10 ^ 20)];
                              embedding_b := [f64_of_Z (10 ^ 20)] |} loaded)
     = Return {| similarity := S754_nan; is_match := false |}.
Proof. split; [reflexivity|]. destruct promo; vm_compute; reflexivity. Qed.

Lemma compare_shape_mismatch_witness :
  compare_arrays Legacy (array_f32 [ONE]) (array_f32 [ONE; HALF]) loaded
  = (Raise shape_mismatch, loaded, [])
  /\ forall req,
       array_f32 (embedding_a req) = array_f32 [ONE] ->
       array_f32 (embedding_b req) = array_f32 [ONE; HALF] ->
       compare Legacy req loaded = (Raise shape_mismatch, loaded, []).
Proof.
  apply (compare_shape_mismatch Legacy (array_f32 [ONE]) (array_f32 [ONE; HALF])).
  left. simpl. discriminate.
Defined.

Lemma self_similarity_one_witness :
  compare Weak {| embedding_a := [ONE]; embedding_b := [ONE] |} loaded
  = (Return {| similarity := ONE; is_match := true |}, loaded, arith_events).
Proof.
  apply (self_similarity_one Weak [ONE] loaded); reflexivity.
Defined.

(* ------------------------------------------------------------------ *)
(** ** Further properties: [/compare] at the edges *)
(* ------------------------------------------------------------------ *)

Section CompareEdges.
Variable promo : promotion.

Lemma dot_from_zero (a b : list float) :
  all_zero a = true -> all_zero b = true ->
  dot_from ZERO a b = ZERO.
Proof.
  revert b. induction a as [|x a IH]; intros [|y b] Ha Hb; try reflexivity.
  simpl in Ha, Hb. apply andb_true_iff in Ha, Hb.
  destruct Ha as [Hx Ha], Hb as [Hy Hb].
  destruct x as [sx| | |]; try discriminate Hx.
  destruct y as [sy| | |]; try discriminate Hy.
  cbn [dot_from].
  replace (f32_add ZERO (f32_mul (S754_zero sx) (S754_zero sy))) with ZERO
    by (destruct sx, sy; reflexivity).
  apply IH; assumption.
Qed.

Lemma all_zero_f32 (x : list float) :
  all_zero x = true -> all_zero (List.map to_f32 x) = true.
Proof.
  induction x as [|v x IH]; [reflexivity|]. simpl. rewrite !andb_true_iff.
  intros [Hv Hx]. split; [|auto]. destruct v; try discriminate Hv. reflexivity.
Qed.

(** X2: embeddings of equal length whose entries are all zeros (of either
    sign; the empty lists too) are answered with similarity 0.0 and no
    match: the epsilon in the denominator keeps the quotient a number. *)
Theorem compare_zero_embeddings (a b : list float) (g : Globals) :
  all_zero a = true -> all_zero b = true -> List.length a = List.length b ->
  compare promo {| embedding_a := a; embedding_b := b |} g
  = (Return {| similarity := ZERO; is_match := false |}, g, arith_events).
Proof.
  intros Ha Hb Hl. rewrite compare_returns by assumption.
  apply all_zero_f32 in Ha, Hb.
  unfold cos_sim, norm, dot.
  rewrite !dot_from_zero by assumption.
  destruct promo; reflexivity.
Qed.

(** X1: [/compare] raises exactly when the two lists differ in length, and
    then the 400 of the shape check; on lists of one length it returns,
    whatever the numbers are. *)
Theorem compare_raises_iff_lengths_differ
  (a b : list float) (g : Globals) (e : exn) :
  result (compare promo {| embedding_a := a; embedding_b := b |} g) = Raise e
  <-> List.length a <> List.length b /\ e = shape_mismatch.
Proof.
  destruct (Nat.eq_dec (List.length a) (List.length b)) as [E|N].
  - rewrite compare_returns by assumption. split; [discriminate|tauto].
  - rewrite compare_raises by assumption. split.
    + intros H. injection H as <-. auto.
    + intros [_ ->]. reflexivity.
Qed.

End CompareEdges.

(* ------------------------------------------------------------------ *)
(** ** Further properties: runs of the handlers and of startup *)
(* ------------------------------------------------------------------ *)

Lemma rows_length (c w : nat) (d : list float) :
  List.length d = (c * w)%nat ->
  Forall (fun r => List.length r = w) (rows c w d).
Proof.
  revert d. induction c as [|c IH]; intros d H; cbn [rows]; constructor.
  - rewrite length_firstn. lia.
  - apply IH. rewrite length_skipn. lia.
Qed.

Lemma add_rows_length (a b : list float) :
  List.length a = List.length b -> List.length (add_rows a b) = List.length a.
Proof.
  revert b. induction a as [|x a IH]; intros [|y b] H; try reflexivity;
    try discriminate H.
  cbn [add_rows List.length]. f_equal. apply IH. injection H as H. exact H.
Qed.

Lemma fold_add_rows_length (w : nat) (rs : list (list float)) (acc : list float) :
  Forall (fun r => List.length r = w) rs -> List.length acc = w ->
  List.length (List.fold_left add_rows rs acc) = w.
Proof.
  intros H. revert acc. induction H as [|r rs Hr _ IH]; intros acc Ha; [exact Ha|].
  cbn [List.fold_left]. apply IH. rewrite add_rows_length; congruence.
Qed.

(** The channel mean of [c] channels of [n] frames is one channel of [n]
    frames, whatever [c] is. *)
Lemma mean_dim0_keeps_frames (t : Tensor) (c n : nat) :
  shape t = [c; n] -> well_formed t ->
  shape (mean_dim0 t) = [1%nat; n] /\ well_formed (mean_dim0 t)
  /\ List.length (data (mean_dim0 t)) = n.
Proof.
  assert (N1 : numel [n] = n) by (cbn; lia).
  assert (N2 : numel [1%nat; n] = n) by (cbn; lia).
  unfold well_formed. intros Hs Hw. rewrite Hs in Hw.
  assert (Hd : List.length (data t) = (c * n)%nat) by (cbn in Hw; lia).
  unfold mean_dim0. rewrite Hs. cbv zeta. cbn [shape data].
  rewrite N1, N2, length_map.
  assert (L : List.length
                (List.fold_left add_rows (rows c n (data t))
                   (List.repeat (S754_zero false) n)) = n).
  { apply fold_add_rows_length; [apply rows_length; exact Hd|apply repeat_length]. }
  rewrite L. auto.
Qed.








(** The calls outside the [try] blocks succeed ([no_faults]). *)
Section Waveform.
Context {ext : External}.


End Waveform.

(** The runs of this section are those on [no_faults], where the calls
    outside the handlers' [try] blocks succeed. *)
Section Runs.
Variable promo : promotion.
Context {ext : External}.

(** Every run of [_load_audio], spelled out. *)
Lemma load_audio_run (bytes : list Byte.byte) (name : option string) (g : Globals) :
  _load_audio bytes name g
  = if Path.mem (suffix_of name) SUPPORTED_EXTENSIONS then
      match torchaudio_load bytes (suffix_of name) with
      | inl exc =>
          (Raise (HTTPException 400 ("Cannot decode audio: " ++ exc)), g,
           [EvTmpWrite (suffix_of name); EvTorchaudioLoad; EvUnlink])
      | inr (w, sr) =>
          let mono := if (1 <? List.hd 0 (shape w))%nat then mean_dim0 w else w in
          if (sr =? 16000)%Z then
            (Return (squeeze0 mono), g,
             [EvTmpWrite (suffix_of name); EvTorchaudioLoad; EvUnlink])
          else
            (Return (squeeze0 (resample mono sr 16000)), g,
             [EvTmpWrite (suffix_of name); EvTorchaudioLoad; EvUnlink;
              EvResample sr 16000])
      end
    else (Raise (unsupported_format (suffix_of name)), g, []).
Proof.
  unfold _load_audio.
  destruct (Path.mem (suffix_of name) SUPPORTED_EXTENSIONS); [|reflexivity].
  cbn [negb].
  destruct (torchaudio_load bytes (suffix_of name)) as [exc|[w sr]]; [reflexivity|].
  destruct (sr =? 16000)%Z; reflexivity.
Qed.

(** Every run of [embed], spelled out. *)
Lemma embed_run (file : UploadFile) (g : Globals) :
  embed file g
  = match ecapa_model g with
    | None => (Raise (HTTPException 503 "Model not loaded"), g, [])
    | Some model =>
        match _load_audio (content file) (filename file) g with
        | (Raise e, _, t) => (Raise e, g, EvRead :: t)
        | (Return waveform, _, t) =>
            match encode_batch model (unsqueeze0 waveform) with
            | inl exc => (Raise (Exception exc), g, EvRead :: t ++ [EvEncodeBatch])
            | inr out =>
                (Return {| embedding := List.map to_f64 (data (squeeze out));
                           duration_s :=
                             py_round (f64_div (f64_of_Z (len waveform)) RATE) 3 |},
                 g, EvRead :: t ++ [EvEncodeBatch])
            end
        end
    end.
Proof.
  unfold embed. cbv [bind read_globals].
  destruct (ecapa_model g) as [model|]; [|reflexivity].
  cbv [tell]. rewrite load_audio_run.
  destruct (Path.mem (suffix_of (filename file)) SUPPORTED_EXTENSIONS);
    [|reflexivity].
  destruct (torchaudio_load (content file) (suffix_of (filename file)))
    as [exc|[w sr]]; [reflexivity|].
  cbv zeta.
  destruct (sr =? 16000)%Z;
    match goal with |- context [encode_batch ?m ?t] =>
      destruct (encode_batch m t) end; reflexivity.
Qed.

(** Every run of [diarize], spelled out. *)
Lemma diarize_run (file : UploadFile) (g : Globals) :
  diarize file g
  = match diarization_pipeline g with
    | None => (Raise diarization_unavailable, g, [])
    | Some pipeline =>
        let suffix := suffix_of (filename file) in
        match run_pipeline pipeline (content file) suffix with
        | inl exc =>
            (Raise (HTTPException 500 ("Diarization failed: " ++ exc)), g,
             [EvRead; EvTmpWrite suffix; EvPipeline; EvUnlink])
        | inr tracks =>
            (Return {| segments :=
                         List.map (fun '(turn_start, turn_end, label) =>
                                     {| speaker := label;
                                        start := py_round turn_start 3;
                                        end_ := py_round turn_end 3 |}) tracks |},
             g, [EvRead; EvTmpWrite suffix; EvPipeline; EvUnlink])
        end
    end.
Proof.
  unfold diarize. cbv [bind read_globals].
  destruct (diarization_pipeline g) as [p|]; [|reflexivity].
  cbv [tell]. cbv zeta.
  destruct (run_pipeline p (content file) (suffix_of (filename file)));
    reflexivity.
Qed.

(** X9: the embedding model is called exactly when it is loaded, the
    format is supported and the decoder accepted the bytes. *)
Theorem encode_batch_iff_ingested (file : UploadFile) (g : Globals) :
  In EvEncodeBatch (trace (embed file g))
  <-> ecapa_model g <> None
      /\ Path.mem (suffix_of (filename file)) SUPPORTED_EXTENSIONS = true
      /\ exists w sr,
           torchaudio_load (content file) (suffix_of (filename file)) = inr (w, sr).
Proof.
  rewrite embed_run. destruct (ecapa_model g) as [model|].
  2:{ split; [intros []|]. intros [H _]. elim H. reflexivity. }
  rewrite load_audio_run.
  destruct (Path.mem (suffix_of (filename file)) SUPPORTED_EXTENSIONS).
  2:{ unfold trace; cbn. split; [intros [H|[]]; discriminate H|].
      intros (_ & H & _). discriminate H. }
  destruct (torchaudio_load (content file) (suffix_of (filename file)))
    as [exc|[w sr]].
  { unfold trace; cbn. split.
    - intros [H|[H|[H|[H|[]]]]]; discriminate H.
    - intros (_ & _ & w & sr & H). discriminate H. }
  cbv zeta. split.
  - intros _. split; [discriminate|]. split; [reflexivity|]. eauto.
  - intros _. destruct (sr =? 16000)%Z;
      match goal with |- context [encode_batch ?m ?t] =>
        destruct (encode_batch m t) end; unfold trace; cbn; tauto.
Qed.

(** X10: [resample] is called exactly when the decoder reports a rate
    other than 16000, and then from that rate to 16000. *)
Theorem resample_iff_rate_differs
  (bytes : list Byte.byte) (name : option string) (g : Globals) (orig new_freq : Z) :
  In (EvResample orig new_freq) (trace (_load_audio bytes name g))
  <-> Path.mem (suffix_of name) SUPPORTED_EXTENSIONS = true
      /\ (exists w, torchaudio_load bytes (suffix_of name) = inr (w, orig))
      /\ orig <> 16000%Z /\ new_freq = 16000%Z.
Proof.
  rewrite load_audio_run.
  destruct (Path.mem (suffix_of name) SUPPORTED_EXTENSIONS).
  2:{ split; [intros []|]. intros (H & _). discriminate H. }
  destruct (torchaudio_load bytes (suffix_of name)) as [exc|[w sr]].
  { unfold trace; cbn. split.
    - intros [H|[H|[H|[]]]]; discriminate H.
    - intros (_ & (w & H) & _). discriminate H. }
  cbv zeta. destruct (Z.eqb_spec sr 16000) as [E|N]; unfold trace; cbn.
  - split.
    + intros [H|[H|[H|[]]]]; discriminate H.
    + intros (_ & (w' & H) & Ho & _). injection H as _ ->. contradiction.
  - split.
    + intros [H|[H|[H|[H|[]]]]]; try discriminate H.
      injection H as <- <-. repeat split; eauto.
    + intros (_ & (w' & H) & _ & ->). injection H as _ ->. auto.
Qed.

(** X12: a clip of [c >= 1] channels and [n] frames at 16 kHz reaches the
    model as one batch of one row of [n] samples, and the duration in the
    answer is [round(n / 16000, 3)]: the channel count plays no part. *)
Theorem embed_duration_counts_frames
  (file : UploadFile) (g : Globals) (model : object) (w : Tensor) (c n : nat) :
  ecapa_model g = Some model ->
  Path.mem (suffix_of (filename file)) SUPPORTED_EXTENSIONS = true ->
  torchaudio_load (content file) (suffix_of (filename file)) = inr (w, 16000%Z) ->
  shape w = [c; n] -> (1 <= c)%nat -> well_formed w ->
  exists batch,
    shape batch = [1%nat; n] /\ List.length (data batch) = n
    /\ match encode_batch model batch with
       | inl exc => result (embed file g) = Raise (Exception exc)
       | inr out =>
           result (embed file g)
           = Return {| embedding := List.map to_f64 (data (squeeze out));
                       duration_s :=
                         py_round (f64_div (f64_of_Z (Z.of_nat n)) RATE) 3 |}
       end.
Proof.
  intros Hm Hs Hl Hw Hc Hwf.
  rewrite embed_run, Hm, load_audio_run, Hs, Hl. cbv zeta. rewrite Hw.
  cbn [List.hd Z.eqb Pos.eqb].
  destruct (Nat.ltb_spec 1 c) as [Hgt|Hle].
  - destruct (mean_dim0_keeps_frames w c n Hw Hwf) as (Hsh & _ & Hlen).
    exists (unsqueeze0 (squeeze0 (mean_dim0 w))).
    unfold squeeze0. rewrite Hsh. unfold unsqueeze0. cbn [shape data].
    repeat split; [exact Hlen|].
    match goal with |- context [encode_batch ?m ?b] =>
      destruct (encode_batch m b) end; reflexivity.
  - assert (c = 1%nat) by lia. subst c.
    exists (unsqueeze0 (squeeze0 w)).
    unfold squeeze0. rewrite Hw. unfold unsqueeze0. cbn [shape data].
    unfold well_formed in Hwf. rewrite Hw in Hwf. cbn in Hwf.
    repeat split; [lia|].
    match goal with |- context [encode_batch ?m ?b] =>
      destruct (encode_batch m b) end; reflexivity.
Qed.

Section Startup.
Variable environ : string -> option string.

(** X14: startup returns exactly when the embedding model loads; when it
    does not, the globals are untouched and pyannote is not tried. *)
Theorem startup_succeeds_iff_ecapa_loads (g : Globals) :
  ((exists g' t, _load_models environ g = (Return tt, g', t))
   <-> exists model, from_hparams = inr model)
  /\ (forall exc, from_hparams = inl exc ->
        _load_models environ g = (Raise (Exception exc), g, [EvFromHparams])).
Proof.
  unfold _load_models. cbv [bind tell read_globals write_globals raise].
  destruct from_hparams as [exc|model].
  - split.
    + split; [intros (g' & t & H); discriminate H|intros (m & H); discriminate H].
    + intros exc' H. injection H as <-. reflexivity.
  - split; [|intros exc H; discriminate H].
    split; [eauto|]. intros _.
    destruct (environ "HF_TOKEN") as [[|c r]|]; cbn.
    + eauto.
    + destruct (from_pretrained (String c r)); cbn; eauto.
    + eauto.
Qed.

(** What a startup that returned left in the globals. *)
Lemma startup_result (g : Globals) (t : list event) :
  _load_models environ module_init = (Return tt, g, t) ->
  (exists model, from_hparams = inr model /\ ecapa_model g = Some model)
  /\ models_loaded g = true
  /\ (diarization_pipeline g <> None -> diarization_available g = true).
Proof.
  unfold _load_models. cbv [bind tell read_globals write_globals raise].
  destruct from_hparams as [exc|model]; [discriminate|].
  destruct (environ "HF_TOKEN") as [[|c r]|]; cbn.
  - intros H. injection H as <- _. cbn. split; [eauto|]. split; [reflexivity|].
    intros H. elim H. reflexivity.
  - destruct (from_pretrained (String c r)) as [exc|p]; cbn;
      intros H; injection H as <- _; cbn; (split; [eauto|]); (split; [reflexivity|]);
      auto; intros H; elim H; reflexivity.
  - intros H. injection H as <- _. cbn. split; [eauto|]. split; [reflexivity|].
    intros H. elim H. reflexivity.
Qed.

(** X16: while requests are served [/health] reports the models as loaded
    and [/embed] does not answer 503. *)
Theorem serving_is_ready (p : process) :
  reachable promo environ p -> stage p = Serving ->
  (exists available,
     health (globals p)
     = (Return {| status := "ok"; health_models_loaded := true;
                  health_diarization_available := available |}, globals p, []))
  /\ forall file detail,
       result (embed file (globals p)) <> Raise (HTTPException 503 detail).
Proof.
  intros Hr Hs. pose proof (reachable_invariant promo environ p Hr) as Hi.
  unfold globals_invariant in Hi. rewrite Hs in Hi. destruct Hi as [t Ht].
  destruct (startup_result _ _ Ht) as ((model & _ & Hm) & Hl & _).
  split.
  - exists (diarization_available (globals p)).
    unfold health. cbv [bind read_globals ret]. rewrite Hl. reflexivity.
  - intros file detail. rewrite embed_run, Hm, load_audio_run.
    destruct (Path.mem (suffix_of (filename file)) SUPPORTED_EXTENSIONS);
      [|discriminate].
    destruct (torchaudio_load (content file) (suffix_of (filename file)))
      as [exc|[w sr]]; [discriminate|].
    cbv zeta. destruct (sr =? 16000)%Z;
      match goal with |- context [encode_batch ?m ?t] =>
        destruct (encode_batch m t) end; discriminate.
Qed.

(** X17: while requests are served, a [/health] that reports diarization
    as unavailable means [/diarize] answers 503. *)
Theorem health_unavailable_means_503
  (p : process) (h : HealthResponse) (file : UploadFile) :
  reachable promo environ p -> stage p = Serving ->
  result (health (globals p)) = Return h ->
  health_diarization_available h = false ->
  diarize file (globals p) = (Raise diarization_unavailable, globals p, []).
Proof.
  intros Hr Hs Hh Hf. pose proof (reachable_invariant promo environ p Hr) as Hi.
  unfold globals_invariant in Hi. rewrite Hs in Hi. destruct Hi as [t Ht].
  destruct (startup_result _ _ Ht) as (_ & _ & Hp).
  injection Hh as <-. cbn in Hf.
  rewrite diarize_run.
  destruct (diarization_pipeline (globals p)) as [pipeline|]; [|reflexivity].
  rewrite Hp in Hf by discriminate. discriminate Hf.
Qed.

(** X18: when the token is set and the hub answers with no pipeline
    instead of raising, [/health] reports diarization as available while
    [/diarize] answers 503. *)
Theorem absent_pipeline_reported_available
  (p : process) (token : string) (file : UploadFile) :
  environ "HF_TOKEN" = Some token -> token <> EmptyString ->
  from_pretrained token = inr None ->
  reachable promo environ p -> stage p = Serving ->
  health (globals p)
  = (Return {| status := "ok"; health_models_loaded := true;
               health_diarization_available := true |}, globals p, [])
  /\ diarize file (globals p) = (Raise diarization_unavailable, globals p, []).
Proof.
  intros He Hn Hf Hr Hs. pose proof (reachable_invariant promo environ p Hr) as Hi.
  unfold globals_invariant in Hi. rewrite Hs in Hi. destruct Hi as [t Ht].
  revert Ht. unfold _load_models. cbv [bind tell read_globals write_globals raise].
  destruct from_hparams as [exc|model]; [discriminate|].
  rewrite He. destruct token as [|c r]; [elim Hn; reflexivity|].
  rewrite Hf. cbn. intros H. injection H as <- _.
  split; reflexivity.
Qed.

End Startup.

End Runs.

(* ------------------------------------------------------------------ *)
(** ** Further properties: the exits of the handlers *)
(* ------------------------------------------------------------------ *)

(** Here the calls outside the [try] blocks may raise. *)
Section Exits.
Variable promo : promotion.
Context {flt : Faults} {ext : External}.

(** Every run of [_load_audio]. *)
Lemma load_audio_exits (bytes : list Byte.byte) (name : option string) (g : Globals) :
  let suffix := suffix_of name in
  _load_audio bytes name g
  = if Path.mem suffix SUPPORTED_EXTENSIONS then
      match mkstemp_fault suffix with
      | Some exc => (Raise (Exception exc), g, [])
      | None =>
          match write_fault bytes with
          | Some exc => (Raise (Exception exc), g, [EvTmpCreate suffix])
          | None =>
              match torchaudio_load bytes suffix with
              | inl exc =>
                  (Raise (HTTPException 400 ("Cannot decode audio: " ++ exc)), g,
                   [EvTmpWrite suffix; EvTorchaudioLoad; EvUnlink])
              | inr (w, sr) =>
                  let mono :=
                    if (1 <? List.hd 0 (shape w))%nat then mean_dim0 w else w in
                  if (sr =? 16000)%Z then
                    (Return (squeeze0 mono), g,
                     [EvTmpWrite suffix; EvTorchaudioLoad; EvUnlink])
                  else
                    (Return (squeeze0 (resample mono sr 16000)), g,
                     [EvTmpWrite suffix; EvTorchaudioLoad; EvUnlink;
                      EvResample sr 16000])
              end
          end
      end
    else (Raise (unsupported_format suffix), g, []).
Proof.
  intros suffix. unfold _load_audio, write_temp. fold suffix.
  destruct (Path.mem suffix SUPPORTED_EXTENSIONS); [|reflexivity].
  cbn [negb]. cbv [bind tell raise].
  destruct (mkstemp_fault suffix); [reflexivity|].
  destruct (write_fault bytes); [reflexivity|].
  destruct (torchaudio_load bytes suffix) as [exc|[w sr]]; [reflexivity|].
  destruct (sr =? 16000)%Z; reflexivity.
Qed.

(** Every run of [embed], over the run of [_load_audio]. *)
Lemma embed_exits (file : UploadFile) (g : Globals) :
  embed file g
  = match ecapa_model g with
    | None => (Raise (HTTPException 503 "Model not loaded"), g, [])
    | Some model =>
        match _load_audio (content file) (filename file) g with
        | (Raise e, _, t) => (Raise e, g, EvRead :: t)
        | (Return waveform, _, t) =>
            match encode_batch model (unsqueeze0 waveform) with
            | inl exc => (Raise (Exception exc), g, EvRead :: t ++ [EvEncodeBatch])
            | inr out =>
                (Return {| embedding := List.map to_f64 (data (squeeze out));
                           duration_s :=
                             py_round (f64_div (f64_of_Z (len waveform)) RATE) 3 |},
                 g, EvRead :: t ++ [EvEncodeBatch])
            end
        end
    end.
Proof.
  unfold embed. cbv [bind read_globals].
  destruct (ecapa_model g) as [model|]; [|reflexivity].
  cbv [tell]. pose proof (load_audio_exits (content file) (filename file) g) as L.
  cbv zeta in L. rewrite L.
  destruct (Path.mem (suffix_of (filename file)) SUPPORTED_EXTENSIONS);
    [|reflexivity].
  destruct (mkstemp_fault (suffix_of (filename file))); [reflexivity|].
  destruct (write_fault (content file)); [reflexivity|].
  destruct (torchaudio_load (content file) (suffix_of (filename file)))
    as [exc|[w sr]]; [reflexivity|].
  destruct (sr =? 16000)%Z;
    match goal with |- context [encode_batch ?m ?t] =>
      destruct (encode_batch m t) end; reflexivity.
Qed.

(** X8: along the log of every request the temporary file is created
    only when there is none, read by the decoder or the pipeline only
    while it exists, and removed only while it exists; when the handler
    is left - by return or by exception - the file is gone, unless the
    write to it raised: that write sits before the [try] whose [finally]
    removes the file, and the file stays behind. *)
Theorem temp_file_protocol (r : request) (g : Globals) :
  exists left_behind,
    temp_files false (snd (handle promo r g)) = Some left_behind
    /\ (left_behind = true <-> write_raises r g).
Proof.
  destruct r as [|file|req|file]; cbn [handle snd]; unfold trace.
  - exists false. split; [reflexivity|]. split; [discriminate|].
    intros (f & exc & _ & _ & [[H _]|[H _]]); discriminate H.
  - rewrite embed_exits. destruct (ecapa_model g) as [model|] eqn:Hm.
    2:{ exists false. split; [reflexivity|]. split; [discriminate|].
        intros (f & exc & _ & _ & [(H & Hn & _)|[H _]]); [|discriminate H].
        congruence. }
    pose proof (load_audio_exits (content file) (filename file) g) as L.
    cbv zeta in L. rewrite L.
    destruct (Path.mem (suffix_of (filename file)) SUPPORTED_EXTENSIONS) eqn:Hs.
    2:{ exists false. split; [reflexivity|]. split; [discriminate|].
        intros (f & exc & _ & _ & [(H & _ & Hx)|[H _]]); [|discriminate H].
        injection H as <-. congruence. }
    destruct (mkstemp_fault (suffix_of (filename file))) eqn:Hc.
    { exists false. split; [reflexivity|]. split; [discriminate|].
      intros (f & exc & Hk & _ & [(H & _)|[H _]]); [|discriminate H].
      injection H as <-. congruence. }
    destruct (write_fault (content file)) as [exc|] eqn:Hw.
    { exists true. split; [reflexivity|]. split; [|reflexivity]. intros _.
      exists file, exc. split; [exact Hc|]. split; [exact Hw|]. left.
      split; [reflexivity|]. split; [congruence|exact Hs]. }
    assert (N : ~ write_raises (PostEmbed file) g).
    { intros (f & exc & _ & Hk & [(H & _)|[H _]]); [|discriminate H].
      injection H as <-. congruence. }
    destruct (torchaudio_load (content file) (suffix_of (filename file)))
      as [exc|[w sr]].
    { exists false. split; [reflexivity|]. split; [discriminate|tauto]. }
    cbv zeta. destruct (sr =? 16000)%Z;
      match goal with |- context [encode_batch ?m ?t] =>
        destruct (encode_batch m t) end;
      (exists false; split; [reflexivity|]; split; [discriminate|tauto]).
  - exists false. split.
    + unfold compare, compare_arrays.
      match goal with |- context [if ?c then _ else _] => destruct c end;
        reflexivity.
    + split; [discriminate|].
      intros (f & exc & _ & _ & [[H _]|[H _]]); discriminate H.
  - destruct (diarization_pipeline g) as [pipeline|] eqn:Hp.
    2:{ exists false. split.
        - unfold diarize. cbv [bind read_globals]. rewrite Hp. reflexivity.
        - split; [discriminate|].
          intros (f & exc & _ & _ & [[H _]|(H & Hn)]); [discriminate H|].
          congruence. }
    pose proof (diarize_exits file g pipeline Hp) as D. cbv zeta in D. rewrite D.
    destruct (mkstemp_fault (suffix_of (filename file))) eqn:Hc.
    { exists false. split; [reflexivity|]. split; [discriminate|].
      intros (f & exc & Hk & _ & [[H _]|(H & _)]); [discriminate H|].
      injection H as <-. congruence. }
    destruct (write_fault (content file)) as [exc|] eqn:Hw.
    { exists true. split; [reflexivity|]. split; [|reflexivity]. intros _.
      exists file, exc. split; [exact Hc|]. split; [exact Hw|]. right.
      split; [reflexivity|congruence]. }
    assert (N : ~ write_raises (PostDiarize file) g).
    { intros (f & exc & _ & Hk & [[H _]|(H & _)]); [discriminate H|].
      injection H as <-. congruence. }
    destruct (run_pipeline pipeline (content file) (suffix_of (filename file)))
      as [exc|tracks];
      (exists false; split; [reflexivity|]; split; [discriminate|tauto]).
Qed.

(** X11: the HTTP errors of [/embed] are the 503 without the model, the
    400 for the format and the 400 for an exception of the decoder, each
    only under the condition given; and the handler catches nothing else:
    an exception of [NamedTemporaryFile], of the write or of
    [encode_batch] leaves it as it is. *)
Theorem embed_errors (file : UploadFile) (g : Globals) :
  let suffix := suffix_of (filename file) in
  (forall status detail,
     result (embed file g) = Raise (HTTPException status detail) ->
     (ecapa_model g = None /\ status = 503%Z /\ detail = "Model not loaded")
     \/ (ecapa_model g <> None
         /\ Path.mem suffix SUPPORTED_EXTENSIONS = false
         /\ status = 400%Z /\ detail = "Unsupported format: " ++ suffix)
     \/ (ecapa_model g <> None
         /\ Path.mem suffix SUPPORTED_EXTENSIONS = true
         /\ temp_written suffix (content file)
         /\ status = 400%Z
         /\ exists exc, torchaudio_load (content file) suffix = inl exc
                        /\ detail = "Cannot decode audio: " ++ exc))
  /\ (ecapa_model g = None ->
      embed file g = (Raise (HTTPException 503 "Model not loaded"), g, []))
  /\ (forall model, ecapa_model g = Some model ->
      Path.mem suffix SUPPORTED_EXTENSIONS = true ->
      (forall exc, mkstemp_fault suffix = Some exc ->
         embed file g = (Raise (Exception exc), g, [EvRead]))
      /\ (forall exc, mkstemp_fault suffix = None ->
            write_fault (content file) = Some exc ->
            embed file g = (Raise (Exception exc), g, [EvRead; EvTmpCreate suffix]))
      /\ (forall waveform exc,
            result (_load_audio (content file) (filename file) g) = Return waveform ->
            shape waveform <> [] ->
            encode_batch model (unsqueeze0 waveform) = inl exc ->
            result (embed file g) = Raise (Exception exc))).
Proof.
  intros suffix. pose proof (embed_exits file g) as E.
  pose proof (load_audio_exits (content file) (filename file) g) as L.
  cbv zeta in L. fold suffix in L. repeat split.
  - intros status detail. rewrite E.
    destruct (ecapa_model g) as [model|].
    2:{ intros H. cbn in H. injection H as <- <-. left. auto. }
    rewrite L.
    destruct (Path.mem suffix SUPPORTED_EXTENSIONS).
    2:{ intros H. cbn in H. injection H as <- <-. right; left.
        split; [discriminate|]. auto. }
    destruct (mkstemp_fault suffix) eqn:Hc; [discriminate|].
    destruct (write_fault (content file)) eqn:Hw; [discriminate|].
    destruct (torchaudio_load (content file) suffix) as [exc|[w sr]].
    { intros H. cbn in H. injection H as <- <-. right; right.
      split; [discriminate|]. split; [reflexivity|]. split; [split; assumption|].
      split; [reflexivity|]. eauto. }
    cbv zeta. intros H.
    destruct (sr =? 16000)%Z;
      match type of H with context [encode_batch ?m ?t] =>
        destruct (encode_batch m t) end; discriminate H.
  - intros Hm. rewrite E, Hm. reflexivity.
  - intros exc Hc. rewrite E, H, L, H0, Hc. reflexivity.
  - intros exc Hc Hw. rewrite E, H, L, H0, Hc, Hw. reflexivity.
  - intros waveform exc Hl _ He. rewrite E, H.
    destruct (_load_audio (content file) (filename file) g) as [[[w|e] g1] t];
      cbn in Hl; [|discriminate Hl].
    injection Hl as ->. rewrite He. reflexivity.
Qed.

(** X13: the HTTP errors of [/diarize] are the 503 without the pipeline
    and the 500 that wraps an exception of the pipeline call, never a 400;
    an exception of [NamedTemporaryFile], of the write, or of the loop
    over [itertracks] is outside the [try] and leaves the handler as it
    is. *)
Theorem diarize_errors (file : UploadFile) (g : Globals) :
  let suffix := suffix_of (filename file) in
  (forall status detail,
     result (diarize file g) = Raise (HTTPException status detail) ->
     (diarization_pipeline g = None
      /\ HTTPException status detail = diarization_unavailable)
     \/ (exists pipeline exc,
           diarization_pipeline g = Some pipeline
           /\ temp_written suffix (content file)
           /\ run_pipeline pipeline (content file) suffix = inl exc
           /\ status = 500%Z /\ detail = "Diarization failed: " ++ exc))
  /\ (forall pipeline, diarization_pipeline g = Some pipeline ->
      (forall exc, mkstemp_fault suffix = Some exc ->
         diarize file g = (Raise (Exception exc), g, [EvRead]))
      /\ (forall exc, mkstemp_fault suffix = None ->
            write_fault (content file) = Some exc ->
            diarize file g
            = (Raise (Exception exc), g, [EvRead; EvTmpCreate suffix]))
      /\ (forall tracks exc,
            temp_written suffix (content file) ->
            run_pipeline pipeline (content file) suffix = inr tracks ->
            itertracks_fault tracks = Some exc ->
            diarize file g
            = (Raise (Exception exc), g,
               [EvRead; EvTmpWrite suffix; EvPipeline; EvUnlink]))).
Proof.
  intros suffix. repeat split.
  - intros status detail.
    destruct (diarization_pipeline g) as [pipeline|] eqn:Hp.
    2:{ unfold diarize. cbv [bind read_globals]. rewrite Hp. intros H. cbn in H.
        left. split; [reflexivity|]. injection H as <- <-. reflexivity. }
    pose proof (diarize_exits file g pipeline Hp) as D. cbv zeta in D.
    fold suffix in D. rewrite D.
    destruct (mkstemp_fault suffix) eqn:Hc; [discriminate|].
    destruct (write_fault (content file)) eqn:Hw; [discriminate|].
    destruct (run_pipeline pipeline (content file) suffix) as [exc|tracks] eqn:Hr.
    + intros H. cbn in H. injection H as <- <-. right. exists pipeline, exc.
      split; [reflexivity|]. split; [split; assumption|]. auto.
    + destruct (itertracks_fault tracks); discriminate.
  - intros exc Hc. pose proof (diarize_exits file g pipeline H) as D.
    cbv zeta in D. fold suffix in D. rewrite D, Hc. reflexivity.
  - intros exc Hc Hw. pose proof (diarize_exits file g pipeline H) as D.
    cbv zeta in D. fold suffix in D. rewrite D, Hc, Hw. reflexivity.
  - intros tracks exc [Hc Hw] Hr Hi. pose proof (diarize_exits file g pipeline H) as D.
    cbv zeta in D. fold suffix in D. rewrite D, Hc, Hw, Hr, Hi. reflexivity.
Qed.

Section Start.
Variable environ : string -> option string.

(** X15: [Pipeline.from_pretrained] is called exactly when the embedding
    model loaded, [HF_TOKEN] is a non-empty string and the import of
    pyannote succeeded, and with that string; when the import raises,
    startup prints the failure and leaves pipeline and flag as they
    were. *)
Theorem from_pretrained_iff_token (g : Globals) (token : string) :
  (In (EvFromPretrained token) (trace (_load_models environ g))
   <-> (exists model, from_hparams = inr model)
       /\ environ "HF_TOKEN" = Some token /\ token <> EmptyString
       /\ import_fault = None)
  /\ (forall exc model, import_fault = Some exc -> from_hparams = inr model ->
      environ "HF_TOKEN" = Some token -> token <> EmptyString ->
      _load_models environ g
      = (Return tt,
         {| ecapa_model := Some model;
            diarization_pipeline := diarization_pipeline g;
            models_loaded := true;
            diarization_available := diarization_available g |},
         [EvFromHparams; EvPrint "[speaker-service] ECAPA-TDNN loaded";
          EvPrint ("[speaker-service] pyannote failed to load: " ++ exc)])).
Proof.
  split.
  - unfold _load_models. cbv [bind tell read_globals write_globals raise trace].
    destruct from_hparams as [exc|model].
    { cbn. split; [intros [H|[]]; discriminate H|].
      intros ((m & H) & _). discriminate H. }
    destruct (environ "HF_TOKEN") as [[|c r]|]; cbn.
    + split; [intros [H|[H|[H|[]]]]; discriminate H|].
      intros (_ & H & Hn & _). injection H as <-. elim Hn. reflexivity.
    + destruct import_fault as [exc|]; cbn.
      * split; [intros [H|[H|[H|[]]]]; discriminate H|].
        intros (_ & _ & _ & H). discriminate H.
      * destruct (from_pretrained (String c r)); cbn; split;
          try (intros [H|[H|[H|[H|[]]]]]; try discriminate H;
               injection H as <-;
               split; [eauto|split; [reflexivity|split; [discriminate|reflexivity]]]);
          try (intros (_ & H & _); injection H as <-; auto).
    + split; [intros [H|[H|[H|[]]]]; discriminate H|].
      intros (_ & H & _). discriminate H.
  - intros exc model Hi Hh He Hn.
    unfold _load_models. cbv [bind tell read_globals write_globals raise].
    rewrite Hh, He. destruct token as [|c r]; [elim Hn; reflexivity|].
    rewrite Hi. reflexivity.
Qed.

End Start.
End Exits.

(* ------------------------------------------------------------------ *)
(** ** Further properties: the suffix of an upload *)
(* ------------------------------------------------------------------ *)

Lemma contains_false_iff (c : ascii) (s : string) :
  contains c s = false <-> forall j, get j s <> Some c.
Proof.
  induction s as [|x r IH]; cbn [contains].
  - split; [intros _ j; destruct j; discriminate|reflexivity].
  - rewrite orb_false_iff, IH. split.
    + intros [Hx Hr] [|j]; cbn [get].
      * intros H. injection H as ->. rewrite Ascii.eqb_refl in Hx. discriminate Hx.
      * apply Hr.
    + intros H. split.
      * destruct (Ascii.eqb_spec x c) as [->|]; [|reflexivity].
        elim (H 0%nat). reflexivity.
      * intros j. apply (H (S j)).
Qed.

Lemma rfind_from_spec (c : ascii) (p : string) (i last : Z) :
  (Path.rfind_from c p i last = last /\ forall j, get j p <> Some c)
  \/ exists k, Path.rfind_from c p i last = i + Z.of_nat k
               /\ get k p = Some c
               /\ forall j, (k < j)%nat -> get j p <> Some c.
Proof.
  revert i last. induction p as [|x r IH]; intros i last; cbn [Path.rfind_from].
  - left. split; [reflexivity|]. intros [|j]; discriminate.
  - destruct (IH (i + 1) (if Ascii.eqb x c then i else last))
      as [[E N]|(k & E & G & A)].
    + destruct (Ascii.eqb_spec x c) as [->|Hx].
      * right. exists 0%nat. split; [rewrite E; lia|]. split; [reflexivity|].
        intros [|j] Hj; [lia|]. apply N.
      * left. split; [exact E|]. intros [|j]; cbn [get]; [congruence|apply N].
    + right. exists (S k). split; [rewrite E; lia|]. split; [exact G|].
      intros [|j] Hj; [lia|]. cbn [get]. apply A. lia.
Qed.

Lemma rfind_spec (c : ascii) (p : string) :
  (Path.rfind c p = -1 /\ forall j, get j p <> Some c)
  \/ exists k, Path.rfind c p = Z.of_nat k
               /\ get k p = Some c
               /\ forall j, (k < j)%nat -> get j p <> Some c.
Proof.
  unfold Path.rfind. destruct (rfind_from_spec c p 0 (-1)) as [H|(k & E & H)];
    [left; exact H|right; exists k; split; [rewrite E; lia|exact H]].
Qed.

Lemma get_slice_from (p : string) (k j : nat) (x : ascii) :
  get j (Path.slice_from p (Z.of_nat k)) = Some x -> get (j + k) p = Some x.
Proof.
  unfold Path.slice_from. rewrite Nat2Z.id. intros H.
  destruct (Nat.lt_ge_cases j (String.length p - k)) as [L|G].
  - rewrite <- (substring_correct1 p k (String.length p - k) j L). exact H.
  - rewrite (substring_correct2 p k (String.length p - k) j G) in H. discriminate H.
Qed.

Lemma get_some_lt (p : string) (k : nat) (x : ascii) :
  get k p = Some x -> (k < String.length p)%nat.
Proof.
  revert k. induction p as [|c r IH]; intros [|k] H; try discriminate H;
    cbn [String.length]; [lia|]. apply IH in H. lia.
Qed.

Lemma get_slice_from_0 (p : string) (k : nat) (x : ascii) :
  get k p = Some x -> get 0 (Path.slice_from p (Z.of_nat k)) = Some x.
Proof.
  intros H. pose proof (get_some_lt p k x H) as L.
  unfold Path.slice_from. rewrite Nat2Z.id.
  rewrite (substring_correct1 p k (String.length p - k) 0) by lia. exact H.
Qed.

Lemma lower_char_slash (x : ascii) : Ascii.eqb (Path.lower_char x) "/" = Ascii.eqb x "/".
Proof. destruct x as [[] [] [] [] [] [] [] []]; reflexivity. Qed.

Lemma lower_char_dot (x : ascii) : Ascii.eqb (Path.lower_char x) "." = Ascii.eqb x ".".
Proof. destruct x as [[] [] [] [] [] [] [] []]; reflexivity. Qed.

Lemma lower_char_idem (x : ascii) :
  Path.lower_char (Path.lower_char x) = Path.lower_char x.
Proof. destruct x as [[] [] [] [] [] [] [] []]; reflexivity. Qed.

Lemma contains_lower (c : ascii) (s : string) :
  (forall x, Ascii.eqb (Path.lower_char x) c = Ascii.eqb x c) ->
  contains c (Path.lower s) = contains c s.
Proof.
  intros H. induction s as [|x r IH]; [reflexivity|].
  cbn [Path.lower contains]. rewrite H, IH. reflexivity.
Qed.

(** The extension [splitext] returns is empty or a dot followed by
    characters that are neither dots nor separators. *)
Lemma splitext_extension (p : string) :
  let ext := snd (Path.splitext p) in
  contains "/" ext = false
  /\ (ext = "" \/ exists r, ext = String "." r /\ contains "." r = false).
Proof.
  unfold Path.splitext.
  destruct ((Path.rfind "/" p <? Path.rfind "." p)%Z
            && Path.has_non_dot p (Path.rfind "/" p + 1)
                 (Z.to_nat (Path.rfind "." p - (Path.rfind "/" p + 1)))) eqn:C;
    cbn [snd]; [|split; [reflexivity|left; reflexivity]].
  apply andb_true_iff in C. destruct C as [C _]. apply Z.ltb_lt in C.
  destruct (rfind_spec "." p) as [[E _]|(k & E & G & A)].
  { destruct (rfind_spec "/" p) as [[E' _]|(k' & E' & _)]; lia. }
  rewrite E in *.
  pose proof (get_slice_from_0 p k "." G) as G0.
  assert (Hs : forall j, get j (Path.slice_from p (Z.of_nat k)) <> Some "/"%char).
  { intros j H. apply get_slice_from in H.
    destruct (rfind_spec "/" p) as [[_ N]|(k' & E' & _ & A')].
    - exact (N _ H).
    - apply (A' (j + k)%nat); [lia|exact H]. }
  split; [apply contains_false_iff; exact Hs|].
  right. destruct (Path.slice_from p (Z.of_nat k)) as [|x r] eqn:Es;
    [discriminate G0|].
  cbn [get] in G0. injection G0 as ->. exists r. split; [reflexivity|].
  apply contains_false_iff. intros j H.
  assert (H' : get (S j) (Path.slice_from p (Z.of_nat k)) = Some "."%char)
    by (rewrite Es; exact H).
  apply get_slice_from in H'. apply (A (S j + k)%nat); [lia|exact H'].
Qed.

(** X6: the suffix given to the temporary file is empty or a dot followed
    by characters that are neither dots nor path separators, whatever
    name the client sent. *)
Theorem suffix_is_extension (name : option string) :
  contains "/" (suffix_of name) = false
  /\ (suffix_of name = ""
      \/ exists r, suffix_of name = String "." r /\ contains "." r = false).
Proof.
  unfold suffix_of.
  destruct (splitext_extension (or_default name)) as [Hs [E|(r & E & D)]].
  - rewrite E. split; [reflexivity|left; reflexivity].
  - split.
    + rewrite contains_lower by apply lower_char_slash. exact Hs.
    + right. rewrite E. exists (Path.lower r). split; [reflexivity|].
      rewrite contains_lower by apply lower_char_dot. exact D.
Qed.

Lemma rfind_from_lower (c : ascii) (p : string) (i last : Z) :
  (forall x, Ascii.eqb (Path.lower_char x) c = Ascii.eqb x c) ->
  Path.rfind_from c (Path.lower p) i last = Path.rfind_from c p i last.
Proof.
  intros H. revert i last. induction p as [|x r IH]; intros i last; [reflexivity|].
  cbn [Path.lower Path.rfind_from]. rewrite H. apply IH.
Qed.

Lemma get_lower (p : string) (n : nat) :
  get n (Path.lower p) = option_map Path.lower_char (get n p).
Proof.
  revert n. induction p as [|x r IH]; intros [|n]; try reflexivity.
  cbn [Path.lower get]. apply IH.
Qed.

Lemma has_non_dot_lower (p : string) (i : Z) (n : nat) :
  Path.has_non_dot (Path.lower p) i n = Path.has_non_dot p i n.
Proof.
  revert i. induction n as [|n IH]; intros i; [reflexivity|].
  cbn [Path.has_non_dot]. rewrite get_lower.
  destruct (get (Z.to_nat i) p) as [x|]; cbn [option_map]; [|reflexivity].
  rewrite lower_char_dot, IH. reflexivity.
Qed.

Lemma substring_lower (p : string) (n m : nat) :
  substring n m (Path.lower p) = Path.lower (substring n m p).
Proof.
  revert n m. induction p as [|x r IH]; intros [|n] [|m]; try reflexivity;
    cbn [Path.lower substring].
  - rewrite IH. reflexivity.
  - apply IH.
  - apply IH.
Qed.

Lemma length_lower (p : string) : String.length (Path.lower p) = String.length p.
Proof. induction p as [|x r IH]; [reflexivity|]. cbn. rewrite IH. reflexivity. Qed.

Lemma lower_idem (p : string) : Path.lower (Path.lower p) = Path.lower p.
Proof.
  induction p as [|x r IH]; [reflexivity|].
  cbn [Path.lower]. rewrite lower_char_idem, IH. reflexivity.
Qed.

Lemma splitext_lower (p : string) :
  snd (Path.splitext (Path.lower p)) = Path.lower (snd (Path.splitext p)).
Proof.
  unfold Path.splitext, Path.rfind.
  rewrite !rfind_from_lower by (apply lower_char_slash || apply lower_char_dot).
  rewrite has_non_dot_lower.
  match goal with |- context [if ?c then _ else _] => destruct c end;
    cbn [snd]; [|reflexivity].
  unfold Path.slice_from. rewrite length_lower. apply substring_lower.
Qed.

Lemma or_default_lower (s : string) :
  Path.lower (or_default (Some s)) = or_default (Some (Path.lower s)).
Proof. destruct s; reflexivity. Qed.

(** X7: names that differ only in the case of their letters have the same
    suffix, and so pass or fail the format check together. *)
Theorem format_check_ignores_case (s t : string) :
  Path.lower s = Path.lower t ->
  suffix_of (Some s) = suffix_of (Some t)
  /\ Path.mem (suffix_of (Some s)) SUPPORTED_EXTENSIONS
     = Path.mem (suffix_of (Some t)) SUPPORTED_EXTENSIONS.
Proof.
  intros H.
  assert (E : forall u, suffix_of (Some u)
                        = snd (Path.splitext (or_default (Some (Path.lower u))))).
  { intros u. unfold suffix_of. rewrite <- splitext_lower, or_default_lower.
    reflexivity. }
  assert (F : suffix_of (Some s) = suffix_of (Some t)) by (rewrite !E, H; reflexivity).
  split; [exact F|]. rewrite F. reflexivity.
Qed.

(* ------------------------------------------------------------------ *)
(** ** Further properties: the rounded similarity against the match *)
(* ------------------------------------------------------------------ *)

Close Scope string_scope.

Section Division.
Variables prec emax : Z.
Hypothesis Hprec : 1 < prec.

Lemma shift_match_nonneg (m s : Z) :
  0 <= s ->
  match s with Zpos _ => Z.shiftl m s | Z0 => m | Zneg _ => 0 end = m * 2 ^ s.
Proof.
  intros H. destruct s as [|p|p]; try lia. apply Z.shiftl_mul_pow2. lia.
Qed.

(** Quotient of two positive numbers of [d1] and [d2] digits, in the normal
    range. *)
Lemma div_rel_digits (mx my : positive) (ex ey d1 d2 : Z) :
  2 ^ (d1 - 1) <= Zpos mx < 2 ^ d1 ->
  2 ^ (d2 - 1) <= Zpos my < 2 ^ d2 ->
  1 <= d1 -> 1 <= d2 -> d1 <= prec + d2 ->
  emin prec emax <= d1 + ex - (d2 + ey) - prec ->
  d1 + ex - (d2 + ey) - prec <= ex - ey ->
  d1 + ex - (d2 + ey) + 1 < emax ->
  exists m' e',
    SFdiv prec emax (S754_finite false mx ex) (S754_finite false my ey)
    = S754_finite false m' e'
    /\ normal prec emax m' e'
    /\ ((1 - unit_roundoff prec) * F2Q (Zpos mx) ex
          <= (1 + unit_roundoff prec) * (F2Q (Zpos m') e' * F2Q (Zpos my) ey)
        /\ F2Q (Zpos m') e' * F2Q (Zpos my) ey
           <= (1 + unit_roundoff prec) * F2Q (Zpos mx) ex)%Q.
Proof.
  intros Hx Hy D1 D2 D12 He Hsh Hmax. cbn [SFdiv xorb]. unfold SFdiv_core_binary.
  cbn [Zdigits2].
  rewrite (digits2_pos_unique mx d1 Hx), (digits2_pos_unique my d2 Hy).
  rewrite (fexp_normal prec emax) by exact He.
  rewrite Z.min_l by exact Hsh.
  set (e' := d1 + ex - (d2 + ey) - prec).
  set (s := prec + d2 - d1).
  replace (ex - ey - e') with s by (unfold e', s; lia).
  assert (Hs : 0 <= s) by (unfold s; lia).
  rewrite shift_match_nonneg by exact Hs. rewrite div_eucl_div_mod.
  set (M := Zpos mx * 2 ^ s).
  set (q := M / Zpos my).
  set (P := 2 ^ (prec - 1)). set (A := 2 ^ (d2 - 1)).
  assert (P0 : 0 < P) by (apply Z.pow_pos_nonneg; lia).
  assert (A0 : 0 < A) by (apply Z.pow_pos_nonneg; lia).
  assert (P2 : 2 ^ prec = 2 * P).
  { unfold P. rewrite <- Z.pow_succ_r by lia. f_equal. lia. }
  assert (A2 : 2 ^ d2 = 2 * A).
  { unfold A. rewrite <- Z.pow_succ_r by lia. f_equal. lia. }
  assert (S0 : 0 < 2 ^ s) by (apply Z.pow_pos_nonneg; lia).
  assert (M1 : 2 ^ (d1 - 1) * 2 ^ s = 2 * P * A).
  { rewrite <- Z.pow_add_r by lia. replace (d1 - 1 + s) with (1 + (prec - 1) + (d2 - 1))
      by (unfold s; lia).
    rewrite !Z.pow_add_r by lia. reflexivity. }
  assert (M2 : 2 ^ d1 * 2 ^ s = 4 * P * A).
  { replace d1 with (1 + (d1 - 1)) at 1 by lia.
    rewrite (Z.pow_add_r 2 1) by lia. change (2 ^ 1) with 2.
    rewrite <- Z.mul_assoc, M1. ring. }
  assert (HM : 2 * P * A <= M < 4 * P * A).
  { unfold M. rewrite <- M1, <- M2. split.
    - apply Z.mul_le_mono_nonneg_r; lia.
    - apply Z.mul_lt_mono_pos_r; lia. }
  rewrite A2 in Hy.
  pose proof (Z.div_mod M (Zpos my) ltac:(lia)) as Hdm.
  pose proof (Z.mod_pos_bound M (Zpos my) ltac:(lia)) as Hmod.
  fold q in Hdm.
  assert (Hq1 : q * Zpos my <= M) by lia.
  assert (Hq2 : M < (q + 1) * Zpos my) by lia.
  assert (Hq0 : 0 <= q) by (apply Z.div_pos; lia).
  assert (Hqlo : P <= q) by nia.
  assert (Hqhi : q < 2 ^ (prec + 1)).
  { rewrite Z.pow_add_r by lia. change (2 ^ 1) with 2. rewrite P2. nia. }
  destruct q as [|qp|qp] eqn:Eq; try lia.
  pose proof (digits2_pos_bounds qp) as Hd.
  set (d := Zpos (digits2_pos qp)) in *.
  assert (Hdlo : prec - 1 < d) by (apply digits_lower; exact Hqlo).
  assert (Hdhi : d <= prec + 1).
  { destruct (Z.le_gt_cases d (prec + 1)) as [|G]; [assumption|].
    assert (2 ^ (prec + 1) <= 2 ^ (d - 1)) by (apply Z.pow_le_mono_r; lia). lia. }
  destruct (round_aux_rel prec emax ltac:(lia) qp d e'
              (new_location (Zpos my) (M mod Zpos my))
              Hd ltac:(lia) ltac:(unfold e'; lia) ltac:(unfold e'; lia))
    as (m' & e'' & Hr & Hn & Hb).
  exists m', e''. split; [exact Hr|]. split; [exact Hn|].
  set (X := F2Q (Zpos mx) ex) in *. set (Y := F2Q (Zpos my) ey) in *.
  set (V := F2Q (Zpos qp) e') in *. set (C := F2Q (Zpos m') e'') in *.
  assert (Y0 : (0 < Y)%Q) by (apply F2Q_pos; lia).
  assert (V0 : (0 < V)%Q) by (apply F2Q_pos; lia).
  assert (EX : (X == inject_Z M * pow2 (e' + ey))%Q).
  { unfold X. rewrite <- (F2Q_shift (Zpos mx) ex s) by lia.
    unfold F2Q. fold M. replace (ex - s) with (e' + ey) by (unfold e', s; lia).
    reflexivity. }
  assert (EV : (V * Y == inject_Z (Zpos qp * Zpos my) * pow2 (e' + ey))%Q).
  { unfold V, Y, F2Q. rewrite inject_Z_mult, pow2_add. ring. }
  assert (EV1 : (V * Y + pow2 e' * Y
                 == inject_Z ((Zpos qp + 1) * Zpos my) * pow2 (e' + ey))%Q).
  { unfold V, Y, F2Q. rewrite inject_Z_mult, inject_Z_plus, pow2_add. ring. }
  pose proof (pow2_pos (e' + ey)) as Pe.
  assert (B1 : (V * Y <= X)%Q).
  { rewrite EV, EX. apply Qmult_le_compat_r; [|lra].
    rewrite <- Zle_Qle. exact Hq1. }
  assert (B2 : (X <= V * Y + pow2 e' * Y)%Q).
  { rewrite EV1, EX. apply Qmult_le_compat_r; [|lra].
    rewrite <- Zle_Qle. lia. }
  pose proof (ulp_le prec Hprec (Zpos qp) e' Hqlo) as B3. fold V in B3.
  pose proof (unit_roundoff_range prec Hprec) as [U0 U1].
  destruct Hb as [Hb1 Hb2].
  apply (div_bounds_aux (unit_roundoff prec) V Y X C (pow2 e')); assumption.
Qed.

End Division.

Lemma div_half_even_lower (n d k : Z) :
  0 < d -> (2 * k - 1) * d < 2 * n -> k <= div_half_even n d.
Proof.
  intros Hd H. unfold div_half_even. rewrite div_eucl_div_mod.
  pose proof (Z.div_mod n d ltac:(lia)) as Hdm.
  pose proof (Z.mod_pos_bound n d Hd) as Hm.
  set (q := n / d) in *. set (r := n mod d) in *.
  destruct (Z.compare_spec (2 * r) d) as [E|L|G].
  - assert (k <= q) by nia. destruct (Z.even q); lia.
  - nia.
  - nia.
Qed.

Lemma div_half_even_upper (n d : Z) :
  0 < d -> div_half_even n d <= n / d + 1.
Proof.
  intros Hd. unfold div_half_even. rewrite div_eucl_div_mod.
  destruct (2 * (n mod d) ?= d); [destruct (Z.even (n / d))| |]; lia.
Qed.

Lemma normal_valid (m : positive) (e : Z) :
  normal 53 1024 m e -> valid_binary 53 1024 (S754_finite false m e) = true.
Proof.
  intros [Hm He]. cbn [valid_binary]. unfold bounded.
  apply andb_true_iff. split.
  - apply (canonical_iff 53 1024). rewrite (digits2_pos_unique m 53 Hm).
    unfold fexp, emin in *. lia.
  - apply Z.leb_le. lia.
Qed.

(** [round(c, 4)] of a number at or above the threshold is at or above the
    threshold. *)
Lemma round4_keeps_match (c : float) :
  valid_binary 53 1024 c = true ->
  f64_leb THRESHOLD c = true ->
  f64_leb THRESHOLD (py_round c 4) = true.
Proof.
  intros Hv Hle. pose proof Hle as Hc.
  apply (leb_threshold_spec c Hv) in Hc. destruct Hc as [->|[Hf Hq]]; [reflexivity|].
  assert (T0 : (0 < SF2Q THRESHOLD)%Q) by (apply F2Q_pos; reflexivity).
  destruct c as [s|s| |s m e]; try discriminate Hf.
  { change (SF2Q (S754_zero s)) with 0%Q in Hq. lra. }
  destruct s.
  { pose proof (F2Q_neg_value m e).
    change (SF2Q (S754_finite true m e)) with (F2Q (Zneg m) e) in Hq. lra. }
  unfold py_round. destruct (Z.leb_spec 0 e) as [E|E]; [exact Hle|].
  change (10 ^ Z.of_nat 4) with 10000. change (Z.to_pos 10000) with 10000%positive.
  cbn [valid_binary] in Hv.
  apply (canonical_digits 53 1024) in Hv. destruct Hv as [Hcan _].
  pose proof (digits2_pos_bounds m) as Hm.
  assert (Hd : Zpos (digits2_pos m) <= 53) by (unfold fexp, emin in Hcan; lia).
  assert (Hm53 : Zpos m < 2 ^ 53).
  { apply Z.lt_le_trans with (2 ^ Zpos (digits2_pos m)); [lia|].
    apply Z.pow_le_mono_r; lia. }
  change (2 ^ 53) with 9007199254740992 in Hm53.
  destruct e as [|p|p]; try lia.
  change (- Zneg p) with (Zpos p).
  change (SF2Q (S754_finite false m (Zneg p))) with (F2Q (Zpos m) (Zneg p)) in Hq.
  rewrite (F2Q_neg (Zpos m) p) in Hq.
  assert (TV : (SF2Q THRESHOLD == 7205759403792794 # 9007199254740992)%Q)
    by reflexivity.
  rewrite TV in Hq. unfold Qle in Hq. cbn [Qnum Qden] in Hq.
  rewrite Pos2Z.inj_pow in Hq.
  set (D := 2 ^ Zpos p) in *.
  assert (D2 : 2 <= D).
  { unfold D. change 2 with (2 ^ 1) at 1. apply Z.pow_le_mono_r; lia. }
  set (k := div_half_even (Zpos m * 10000) D).
  assert (Klo : 8000 <= k).
  { apply div_half_even_lower; lia. }
  assert (Khi : k < 2 ^ 66).
  { pose proof (div_half_even_upper (Zpos m * 10000) D ltac:(lia)) as U.
    fold k in U.
    assert (Zpos m * 10000 / D <= Zpos m * 10000 / 2).
    { apply Z.div_le_compat_l; lia. }
    assert (Zpos m * 10000 / 2 = Zpos m * 5000).
    { replace (Zpos m * 10000) with (Zpos m * 5000 * 2) by lia.
      apply Z.div_mul. lia. }
    change (2 ^ 66) with 73786976294838206464. lia. }
  destruct k as [|kp|kp] eqn:Ek; try lia.
  destruct (Z.eq_dec (Zpos kp) 8000) as [E8|N8].
  { injection E8 as ->. vm_compute. reflexivity. }
  pose proof (digits2_pos_bounds kp) as Hk.
  set (d1 := Zpos (digits2_pos kp)) in *.
  assert (D1lo : 13 <= d1).
  { assert (12 < d1); [|lia]. apply digits_lower.
    change (2 ^ 12) with 4096. lia. }
  assert (D1hi : d1 <= 66).
  { destruct (Z.le_gt_cases d1 66) as [|G]; [assumption|].
    assert (2 ^ 66 <= 2 ^ (d1 - 1)) by (apply Z.pow_le_mono_r; lia). lia. }
  destruct (div_rel_digits 53 1024 ltac:(lia) kp 10000 0 0 d1 14 Hk
              ltac:(change (2 ^ (14 - 1)) with 8192; change (2 ^ 14) with 16384; lia)
              ltac:(lia) ltac:(lia) ltac:(lia)
              ltac:(unfold emin; lia) ltac:(lia) ltac:(lia))
    as (m' & e' & Hr & Hn & Hb1 & _).
  rewrite Hr. apply leb_threshold_spec; [apply normal_valid; exact Hn|].
  right. split; [reflexivity|].
  change (SF2Q (S754_finite false m' e')) with (F2Q (Zpos m') e').
  rewrite TV.
  assert (EY : (F2Q 10000 0 == 10000)%Q) by reflexivity.
  assert (EX : (F2Q (Zpos kp) 0 == inject_Z (Zpos kp))%Q).
  { unfold F2Q. change (pow2 0) with 1%Q. ring. }
  rewrite EY, EX, u53 in Hb1.
  assert (K1 : (8001 <= inject_Z (Zpos kp))%Q).
  { change 8001%Q with (inject_Z 8001). rewrite <- Zle_Qle. lia. }
  set (C := F2Q (Zpos m') e') in *. set (K := inject_Z (Zpos kp)) in *.
  lra.
Qed.

(** X3: a response with [is_match] reports a similarity of at least 0.80:
    rounding to four places never takes a match below the threshold. *)
Theorem match_reports_similarity_above_threshold
  (promo : promotion) (a b : list float) (g : Globals) (resp : CompareResponse) :
  result (compare promo {| embedding_a := a; embedding_b := b |} g) = Return resp ->
  is_match resp = true ->
  f64_leb THRESHOLD (similarity resp) = true.
Proof.
  intros Hr Hm.
  destruct (Nat.eq_dec (List.length a) (List.length b)) as [E|N].
  - rewrite compare_returns in Hr by exact E. injection Hr as <-.
    cbn [respond similarity is_match] in *.
    apply round4_keeps_match; [apply cos_sim_valid|exact Hm].
  - rewrite compare_raises in Hr by exact N. discriminate Hr.
Qed.

Lemma div_half_even_le (n d k : Z) :
  0 < d -> 2 * n < (2 * k + 1) * d -> div_half_even n d <= k.
Proof.
  intros Hd H. unfold div_half_even. rewrite div_eucl_div_mod.
  pose proof (Z.div_mod n d ltac:(lia)) as Hdm.
  pose proof (Z.mod_pos_bound n d Hd) as Hm.
  set (q := n / d) in *. set (r := n mod d) in *.
  destruct (Z.compare_spec (2 * r) d) as [E|L|G].
  - assert (q + 1 <= k) by nia. destruct (Z.even q); lia.
  - nia.
  - nia.
Qed.

Lemma div_half_even_nonneg (n d : Z) :
  0 < d -> 0 <= n -> 0 <= div_half_even n d.
Proof.
  intros Hd Hn. unfold div_half_even. rewrite div_eucl_div_mod.
  assert (0 <= n / d) by (apply Z.div_pos; lia).
  destruct (2 * (n mod d) ?= d); [destruct (Z.even (n / d))| |]; lia.
Qed.

Lemma ltb_leb (x y : float) : SFltb x y = true -> SFleb x y = true.
Proof. unfold SFltb, SFleb. destruct (SFcompare x y) as [[| |]|]; auto. Qed.

(** A result rounded under the negative sign is not above the threshold. *)
Lemma round_aux_negative (m e : Z) (l : location) :
  SFltb THRESHOLD (binary_round_aux 53 1024 true m e l) = false.
Proof.
  unfold binary_round_aux.
  destruct (shr_fexp 53 1024 m e l) as [mrs' e'].
  destruct (shr_fexp 53 1024 _ e' loc_Exact) as [mrs'' e''].
  destruct (shr_m mrs''); [reflexivity| |reflexivity].
  destruct (e'' <=? 1024 - 53); reflexivity.
Qed.

(** [round(c, 4)] above the threshold only when [c] is at or above it. *)
Lemma round4_above_needs_match (c : float) :
  valid_binary 53 1024 c = true ->
  SFltb THRESHOLD (py_round c 4) = true ->
  f64_leb THRESHOLD c = true.
Proof.
  intros Hv Hlt.
  destruct (f64_leb THRESHOLD c) eqn:Hle; [reflexivity|exfalso].
  assert (Hn : ~ (c = S754_infinity false
                  \/ is_finite c = true /\ (SF2Q THRESHOLD <= SF2Q c)%Q)).
  { intros H. apply (leb_threshold_spec c Hv) in H. congruence. }
  destruct c as [s|s| |s m e]; try discriminate Hlt.
  { destruct s; [discriminate Hlt|]. apply Hn. left. reflexivity. }
  unfold py_round in Hlt. destruct (Z.leb_spec 0 e) as [E|E].
  { apply ltb_leb in Hlt. unfold f64_leb in Hle. congruence. }
  change (10 ^ Z.of_nat 4) with 10000 in Hlt.
  change (Z.to_pos 10000) with 10000%positive in Hlt.
  destruct (div_half_even (Zpos m * 10000) (2 ^ (- e))) as [|kp|kp] eqn:Ek;
    try (destruct s; discriminate Hlt).
  destruct s.
  { cbn [SFdiv xorb] in Hlt.
    destruct (SFdiv_core_binary 53 1024 (Zpos kp) 0 10000 0) as [[mz ez] lz].
    rewrite round_aux_negative in Hlt. discriminate Hlt. }
  assert (Hq : (SF2Q (S754_finite false m e) < SF2Q THRESHOLD)%Q).
  { apply Qnot_le_lt. intros H. apply Hn. right. split; [reflexivity|exact H]. }
  destruct e as [|p|p]; try lia.
  change (- Zneg p) with (Zpos p) in Ek.
  change (SF2Q (S754_finite false m (Zneg p))) with (F2Q (Zpos m) (Zneg p)) in Hq.
  rewrite (F2Q_neg (Zpos m) p) in Hq.
  assert (TV : (SF2Q THRESHOLD == 7205759403792794 # 9007199254740992)%Q)
    by reflexivity.
  rewrite TV in Hq. unfold Qlt in Hq. cbn [Qnum Qden] in Hq.
  rewrite Pos2Z.inj_pow in Hq.
  set (D := 2 ^ Zpos p) in *.
  assert (D0 : 0 < D) by (apply Z.pow_pos_nonneg; lia).
  assert (Khi : Zpos kp <= 8000).
  { rewrite <- Ek. apply div_half_even_le; lia. }
  destruct (Z.eq_dec (Zpos kp) 8000) as [E8|N8].
  { injection E8 as ->. vm_compute in Hlt. discriminate Hlt. }
  pose proof (digits2_pos_bounds kp) as Hk.
  set (d1 := Zpos (digits2_pos kp)) in *.
  assert (D1lo : 1 <= d1) by (unfold d1; lia).
  assert (D1hi : d1 <= 13).
  { destruct (Z.le_gt_cases d1 13) as [|G]; [assumption|].
    assert (2 ^ 13 <= 2 ^ (d1 - 1)) by (apply Z.pow_le_mono_r; lia).
    change (2 ^ 13) with 8192 in H. lia. }
  destruct (div_rel_digits 53 1024 ltac:(lia) kp 10000 0 0 d1 14 Hk
              ltac:(change (2 ^ (14 - 1)) with 8192; change (2 ^ 14) with 16384; lia)
              ltac:(lia) ltac:(lia) ltac:(lia)
              ltac:(unfold emin; lia) ltac:(lia) ltac:(lia))
    as (m' & e' & Hr & Hnm & _ & Hb2).
  rewrite Hr in Hlt. apply ltb_leb in Hlt.
  apply (leb_threshold_spec _ (normal_valid m' e' Hnm)) in Hlt.
  destruct Hlt as [Hlt|[_ Hlt]]; [discriminate Hlt|].
  change (SF2Q (S754_finite false m' e')) with (F2Q (Zpos m') e') in Hlt.
  rewrite TV in Hlt.
  assert (EY : (F2Q 10000 0 == 10000)%Q) by reflexivity.
  assert (EX : (F2Q (Zpos kp) 0 == inject_Z (Zpos kp))%Q).
  { unfold F2Q. change (pow2 0) with 1%Q. ring. }
  rewrite EY, EX, u53 in Hb2.
  assert (K1 : (inject_Z (Zpos kp) <= 7999)%Q).
  { change 7999%Q with (inject_Z 7999). rewrite <- Zle_Qle. lia. }
  set (C := F2Q (Zpos m') e') in *. set (K := inject_Z (Zpos kp)) in *.
  lra.
Qed.

(** X4: a response whose similarity is above 0.80 has [is_match]: the two
    fields can disagree only at a reported similarity of exactly 0.80. *)
Theorem similarity_above_threshold_is_match
  (promo : promotion) (a b : list float) (g : Globals) (resp : CompareResponse) :
  result (compare promo {| embedding_a := a; embedding_b := b |} g) = Return resp ->
  SFltb THRESHOLD (similarity resp) = true ->
  is_match resp = true.
Proof.
  intros Hr Hm.
  destruct (Nat.eq_dec (List.length a) (List.length b)) as [E|N].
  - rewrite compare_returns in Hr by exact E. injection Hr as <-.
    cbn [respond similarity is_match] in *.
    apply round4_above_needs_match; [apply cos_sim_valid|exact Hm].
  - rewrite compare_raises in Hr by exact N. discriminate Hr.
Qed.

(* ------------------------------------------------------------------ *)
(** ** Further properties: from [/embed] to [/compare] *)
(* ------------------------------------------------------------------ *)

Lemma iter_shr_exact (d : positive) : forall m : positive,
  iter_pos shr_1 d
    {| shr_m := Zpos (Pos.iter xO m d); shr_r := false; shr_s := false |}
  = {| shr_m := Zpos m; shr_r := false; shr_s := false |}.
Proof.
  induction d as [d IH|d IH|]; intros m; cbn [iter_pos Pos.iter].
  - cbn [shr_1 orb]. rewrite IH, IH. reflexivity.
  - rewrite IH, IH. reflexivity.
  - reflexivity.
Qed.

(** Rounding a number that is already in canonical form returns it. *)
Lemma round_aux_canonical (prec emax : Z) (s : bool) (m : positive) (e : Z) :
  fexp prec emax (Zpos (digits2_pos m) + e) = e -> e <= emax - prec ->
  binary_round_aux prec emax s (Zpos m) e loc_Exact = S754_finite s m e.
Proof.
  intros Hc He. unfold binary_round_aux, shr_fexp. cbn [Zdigits2].
  rewrite Hc, Z.sub_diag. cbn [shr shr_record_of_loc shr_m loc_of_shr_record
                               round_nearest_even Zdigits2].
  rewrite Hc, Z.sub_diag. cbn [shr shr_m].
  apply Z.leb_le in He. rewrite He. reflexivity.
Qed.

(** Widening a binary32 number to binary64 and narrowing it again gives
    the number back. *)
Lemma f32_round_trip (x : float) :
  valid_binary 24 128 x = true -> to_f32 (to_f64 x) = x.
Proof.
  destruct x as [s|s| |s m e]; try reflexivity.
  cbn [valid_binary]. intros Hv.
  destruct (canonical_digits 24 128 m e Hv) as [Hc He].
  pose proof (digits2_pos_bounds m) as Hm.
  set (d := Zpos (digits2_pos m)) in *.
  assert (Hd : 1 <= d <= 24 /\ -149 <= e).
  { unfold fexp, emin in Hc. unfold d. lia. }
  unfold to_f64, binary_round. fold d.
  assert (F53 : fexp 53 1024 (d + e) = d + e - 53) by (unfold fexp, emin; lia).
  rewrite F53. unfold shl_align.
  destruct (d + e - 53 - e) as [|n|n] eqn:En; try lia.
  assert (Hn : Zpos n = 53 - d) by lia.
  assert (Hz : 2 ^ (53 - 1) <= Zpos (Pos.iter xO m n) < 2 ^ 53).
  { rewrite iter_xO, Hn.
    assert (E1 : 2 ^ (53 - 1) = 2 ^ (d - 1) * 2 ^ (53 - d))
      by (rewrite <- Z.pow_add_r by lia; f_equal; lia).
    assert (E2 : 2 ^ 53 = 2 ^ d * 2 ^ (53 - d))
      by (rewrite <- Z.pow_add_r by lia; f_equal; lia).
    assert (0 < 2 ^ (53 - d)) by (apply Z.pow_pos_nonneg; lia).
    rewrite E1, E2. nia. }
  pose proof (digits2_pos_unique _ 53 Hz) as Dz.
  rewrite round_aux_canonical
    by (try rewrite Dz; unfold fexp, emin; lia).
  unfold to_f32, binary_round. rewrite Dz.
  replace (53 + (d + e - 53)) with (d + e) by lia. rewrite Hc.
  unfold shl_align.
  destruct (e - (d + e - 53)) as [|k|k] eqn:Ek; try lia.
  unfold binary_round_aux, shr_fexp. cbn [Zdigits2]. rewrite Dz.
  replace (53 + (d + e - 53)) with (d + e) by lia. rewrite Hc, Ek.
  assert (k = n) by lia. subst k.
  cbn [shr shr_record_of_loc]. rewrite iter_shr_exact.
  cbn [shr_m loc_of_shr_record round_nearest_even Zdigits2]. fold d.
  replace (d + (d + e - 53 + Z.pos n)) with (d + e) by lia.
  replace (d + e - 53 + Z.pos n) with e by lia.
  rewrite Hc, Z.sub_diag. cbn [shr shr_m].
  apply Z.leb_le in He. rewrite He. reflexivity.
Qed.

Lemma map_round_trip (v : list float) :
  all_f32 v = true -> List.map to_f32 (List.map to_f64 v) = v.
Proof.
  induction v as [|x v IH]; [reflexivity|]. cbn [all_f32 forallb List.map].
  intros H. apply andb_true_iff in H. destruct H as [Hx Hv].
  rewrite f32_round_trip by exact Hx. f_equal. apply IH. exact Hv.
Qed.

(** X5: the lists [/embed] returns for two model outputs, posted to
    [/compare], are compared as the model outputs themselves: the
    conversion of binary32 numbers to Python floats and back loses
    nothing. *)
Theorem compare_of_embed_outputs
  (promo : promotion) (u v : list float) (g : Globals) :
  all_f32 u = true -> all_f32 v = true -> List.length u = List.length v ->
  compare promo {| embedding_a := List.map to_f64 u;
                   embedding_b := List.map to_f64 v |} g
  = (Return (respond (cos_sim promo u v)), g, arith_events).
Proof.
  intros Hu Hv Hl.
  rewrite compare_returns by (rewrite !length_map; exact Hl).
  rewrite !map_round_trip by assumption. reflexivity.
Qed.

(* ------------------------------------------------------------------ *)
(** ** The threshold, at the boundary *)
(* ------------------------------------------------------------------ *)

Lemma iter_shr_zero (p : positive) : forall r s,
  iter_pos shr_1 p {| shr_m := 0; shr_r := r; shr_s := s |}
  = {| shr_m := 0; shr_r := false; shr_s := r || s |}.
Proof.
  induction p as [p IH|p IH|]; intros r s; cbn [iter_pos].
  - cbn [shr_1]. rewrite IH, IH. reflexivity.
  - rewrite IH, IH. reflexivity.
  - reflexivity.
Qed.

(** Rounding nothing below the least exponent gives zero or the least
    number of the format. *)
Lemma round_aux_zero_valid (sx : bool) (e : Z) (l : location) :
  e <= -149 ->
  valid_binary 24 128 (binary_round_aux 24 128 sx 0 e l) = true.
Proof.
  intros He. unfold binary_round_aux, shr_fexp. cbn [Zdigits2].
  assert (F : fexp 24 128 (0 + e) = -149) by (unfold fexp, emin; lia).
  rewrite F. destruct (-149 - e) as [|p|p] eqn:En; try lia.
  - assert (e = -149) by lia. subst e.
    destruct l as [|[| |]]; destruct sx; reflexivity.
  - cbn [shr]. replace (e + Z.pos p) with (-149) by lia.
    destruct l as [|[| |]]; cbn [shr_record_of_loc]; rewrite iter_shr_zero;
      destruct sx; reflexivity.
Qed.

(** A quotient in binary32 is a number of the format, whatever is
    divided. *)
Lemma f32_div_valid (x y : float) : valid_binary 24 128 (f32_div x y) = true.
Proof.
  destruct x as [sx|sx| |sx mx ex], y as [sy|sy| |sy my ey];
    try reflexivity; try (destruct sx, sy; reflexivity).
  unfold f32_div. cbn [SFdiv]. unfold SFdiv_core_binary. cbn [Zdigits2].
  pose proof (digits2_pos_bounds mx) as Bx. pose proof (digits2_pos_bounds my) as By.
  set (d1 := Zpos (digits2_pos mx)) in *. set (d2 := Zpos (digits2_pos my)) in *.
  assert (D1 : 1 <= d1) by (unfold d1; lia).
  assert (D2 : 1 <= d2) by (unfold d2; lia).
  set (E := d1 + ex - (d2 + ey)).
  set (e' := Z.min (fexp 24 128 E) (ex - ey)).
  set (s := ex - ey - e').
  assert (Hs : 0 <= s) by (unfold s, e'; lia).
  rewrite shift_match_nonneg by exact Hs. rewrite div_eucl_div_mod.
  set (M := Zpos mx * 2 ^ s).
  assert (S0 : 0 < 2 ^ s) by (apply Z.pow_pos_nonneg; lia).
  assert (HM : 2 ^ (d1 - 1 + s) <= M).
  { unfold M. rewrite Z.pow_add_r by lia. apply Z.mul_le_mono_nonneg_r; lia. }
  pose proof (Z.div_mod M (Zpos my) ltac:(lia)) as Hdm.
  pose proof (Z.mod_pos_bound M (Zpos my) ltac:(lia)) as Hmod.
  assert (Hq0 : 0 <= M / Zpos my) by (apply Z.div_pos; lia).
  destruct (M / Zpos my) as [|qp|qp] eqn:Eq; try lia.
  - (* the quotient is below one unit *)
    apply round_aux_zero_valid.
    assert (Hlt : 2 ^ (d1 - 1 + s) < 2 ^ d2) by lia.
    apply Z.pow_lt_mono_r_iff in Hlt; [|lia|lia].
    unfold s in Hlt. unfold e', fexp, emin in *. unfold E in *. lia.
  - apply round_aux_valid; [lia|].
    assert (Hd : d1 + s - d2 <= Zpos (digits2_pos qp)).
    { destruct (Z.le_gt_cases (d1 + s - d2) 1) as [L|G]; [lia|].
      assert (Hk : 2 ^ (d1 + s - d2 - 1) <= Zpos qp).
      { rewrite <- Eq. apply Z.div_le_lower_bound; [lia|].
        apply Z.le_trans with (2 ^ (d1 - 1 + s)); [|exact HM].
        replace (d1 - 1 + s) with (d2 + (d1 + s - d2 - 1)) by lia.
        rewrite (Z.pow_add_r 2 d2) by lia.
        assert (0 < 2 ^ (d1 + s - d2 - 1)) by (apply Z.pow_pos_nonneg; lia).
        nia. }
      apply digits_lower in Hk. lia. }
    unfold s in Hd. unfold e', fexp, emin in *. unfold E in *. lia.
Qed.

(** C3, as amended: [is_match] is decided on the value computed before
    it is rounded for the response, and the comparison is inclusive: the
    answer is a match exactly when that value is [+inf] or a number of at
    least 0.80, and when it is equal to 0.80 the response is a match with
    similarity 0.8.  Under the promotion of NumPy 2 the value is a
    binary32 number and is never equal to 0.80.  In every response, a
    similarity above 0.80 goes with a match and a match with a similarity
    of at least 0.80. *)
Theorem compare_threshold_inclusive
  (promo : promotion) (a b : list float) (g : Globals) :
  List.length a = List.length b ->
  let c := cos_sim promo (List.map to_f32 a) (List.map to_f32 b) in
  exists resp,
    result (compare promo {| embedding_a := a; embedding_b := b |} g) = Return resp
    /\ (is_match resp = true
        <-> c = S754_infinity false
            \/ (is_finite c = true /\ (SF2Q THRESHOLD <= SF2Q c)%Q))
    /\ (c = THRESHOLD -> is_match resp = true /\ similarity resp = THRESHOLD)
    /\ (promo = Weak -> c <> THRESHOLD)
    /\ (SFltb THRESHOLD (similarity resp) = true -> is_match resp = true)
    /\ (is_match resp = true -> f64_leb THRESHOLD (similarity resp) = true).
Proof.
  intros H c. exists (respond c).
  rewrite compare_returns by assumption.
  split; [reflexivity|].
  split; [apply leb_threshold_spec, cos_sim_valid|].
  split; [intros ->; split; reflexivity|].
  split.
  - intros -> Hc. unfold c, cos_sim in Hc. cbn [quotient] in Hc.
    match type of Hc with to_f64 ?q0 = _ => set (q := q0) in * end.
    assert (Hq : to_f32 (to_f64 q) = q) by (apply f32_round_trip, f32_div_valid).
    rewrite Hc in Hq. rewrite <- Hq in Hc. vm_compute in Hc. discriminate Hc.
  - cbn [respond similarity is_match]. split.
    + apply round4_above_needs_match, cos_sim_valid.
    + apply round4_keeps_match, cos_sim_valid.
Qed.

(* ------------------------------------------------------------------ *)
(** ** Further instances in the concrete world *)
(* ------------------------------------------------------------------ *)

Open Scope string_scope.


Lemma compare_zero_embeddings_witness :
  compare Weak {| embedding_a := [S754_zero false; S754_zero true];
                  embedding_b := [S754_zero true; S754_zero true] |} loaded
  = (Return {| similarity := ZERO; is_match := false |}, loaded, arith_events).
Proof.
  apply (compare_zero_embeddings Weak [S754_zero false; S754_zero true]
           [S754_zero true; S754_zero true] loaded); reflexivity.
Defined.

Lemma embed_duration_counts_frames_witness :
  exists batch,
    shape batch = [1; 3]%nat /\ List.length (data batch) = 3%nat
    /\ match encode_batch (External := studio) 1%nat batch with
       | inl exc =>
           result (embed (ext := studio) (upload "voice.wav") loaded)
           = Raise (Exception exc)
       | inr out =>
           result (embed (ext := studio) (upload "voice.wav") loaded)
           = Return {| embedding := List.map to_f64 (data (squeeze out));
                       duration_s :=
                         py_round (f64_div (f64_of_Z (Z.of_nat 3)) RATE) 3 |}
       end.
Proof.
  apply (embed_duration_counts_frames (ext := studio) (upload "voice.wav") loaded
           1%nat stereo 2 3); try reflexivity. lia.
Defined.

Lemma serving_is_ready_witness :
  (exists available,
     health embedding_only
     = (Return {| status := "ok"; health_models_loaded := true;
                  health_diarization_available := available |}, embedding_only, []))
  /\ forall file detail,
       result (embed (ext := demo) file embedding_only)
       <> Raise (HTTPException 503 detail).
Proof.
  apply (serving_is_ready Weak (ext := demo) no_environ serving_embedding_only
           (demo_serving Weak)).
  reflexivity.
Defined.

Lemma health_unavailable_means_503_witness :
  diarize (ext := demo) (upload "meeting.wav") embedding_only
  = (Raise diarization_unavailable, embedding_only, []).
Proof.
  apply (health_unavailable_means_503 Weak (ext := demo) no_environ
           serving_embedding_only
           {| status := "ok"; health_models_loaded := true;
              health_diarization_available := false |}
           (upload "meeting.wav") (demo_serving Weak)); reflexivity.
Defined.

Lemma gated_serving (promo : promotion) :
  reachable (ext := gated) promo token_environ
    {| stage := Serving; globals := flagged_without_pipeline |}.
Proof.
  eapply reachable_step; [apply reachable_init|].
  eapply step_startup. reflexivity.
Qed.

Lemma absent_pipeline_reported_available_witness :
  health flagged_without_pipeline
  = (Return {| status := "ok"; health_models_loaded := true;
               health_diarization_available := true |}, flagged_without_pipeline, [])
  /\ diarize (ext := gated) (upload "meeting.wav") flagged_without_pipeline
     = (Raise diarization_unavailable, flagged_without_pipeline, []).
Proof.
  apply (absent_pipeline_reported_available Weak (ext := gated) token_environ
           {| stage := Serving; globals := flagged_without_pipeline |}
           "hf_secret" (upload "meeting.wav")); try reflexivity.
  - discriminate.
  - apply gated_serving.
Defined.

Lemma format_check_ignores_case_witness :
  suffix_of (Some "Voice.MP3") = suffix_of (Some "voice.mp3")
  /\ Path.mem (suffix_of (Some "Voice.MP3")) SUPPORTED_EXTENSIONS
     = Path.mem (suffix_of (Some "voice.mp3")) SUPPORTED_EXTENSIONS.
Proof.
  apply (format_check_ignores_case "Voice.MP3" "voice.mp3"). reflexivity.
Defined.

Lemma match_reports_similarity_above_threshold_witness :
  let resp := respond (cos_sim Weak (List.map to_f32 [f64_of_Z 3; f64_of_Z 4])
                         (List.map to_f32 [f64_of_Z 4; f64_of_Z 3])) in
  result (compare Weak {| embedding_a := [f64_of_Z 3; f64_of_Z 4];
                          embedding_b := [f64_of_Z 4; f64_of_Z 3] |} module_init)
  = Return resp
  /\ is_match resp = true
  /\ f64_leb THRESHOLD (similarity resp) = true.
Proof.
  intros resp.
  assert (H : result (compare Weak {| embedding_a := [f64_of_Z 3; f64_of_Z 4];
                                      embedding_b := [f64_of_Z 4; f64_of_Z 3] |}
                        module_init) = Return resp) by reflexivity.
  assert (M : is_match resp = true) by (vm_compute; reflexivity).
  split; [exact H|]. split; [exact M|].
  exact (match_reports_similarity_above_threshold Weak
           [f64_of_Z 3; f64_of_Z 4] [f64_of_Z 4; f64_of_Z 3] module_init resp H M).
Defined.

Lemma similarity_above_threshold_is_match_witness :
  let resp := respond (cos_sim Weak (List.map to_f32 [f64_of_Z 3; f64_of_Z 4])
                         (List.map to_f32 [f64_of_Z 4; f64_of_Z 3])) in
  result (compare Weak {| embedding_a := [f64_of_Z 3; f64_of_Z 4];
                          embedding_b := [f64_of_Z 4; f64_of_Z 3] |} module_init)
  = Return resp
  /\ SFltb THRESHOLD (similarity resp) = true
  /\ is_match resp = true.
Proof.
  intros resp.
  assert (H : result (compare Weak {| embedding_a := [f64_of_Z 3; f64_of_Z 4];
                                      embedding_b := [f64_of_Z 4; f64_of_Z 3] |}
                        module_init) = Return resp) by reflexivity.
  assert (S : SFltb THRESHOLD (similarity resp) = true) by (vm_compute; reflexivity).
  split; [exact H|]. split; [exact S|].
  exact (similarity_above_threshold_is_match Weak
           [f64_of_Z 3; f64_of_Z 4] [f64_of_Z 4; f64_of_Z 3] module_init resp H S).
Defined.

Lemma compare_of_embed_outputs_witness :
  compare Weak {| embedding_a := List.map to_f64 (data stereo);
                  embedding_b := List.map to_f64 (data stereo) |} module_init
  = (Return (respond (cos_sim Weak (data stereo) (data stereo))),
     module_init, arith_events).
Proof.
  apply (compare_of_embed_outputs Weak (data stereo) (data stereo) module_init);
    reflexivity.
Defined.

(** Uploads for the worlds above: a name whose extension has three hundred
    characters, and two thousand bytes. *)
Lemma overlong_suffix :
  String.length (suffix_of (Some ("a." ++ repeat_char "b" 300))) = 301%nat.
Proof. vm_compute. reflexivity. Qed.

Lemma temp_file_protocol_witness :
  temp_files false
    (snd (handle (flt := fussy) (ext := demo) Weak
            (PostDiarize {| filename := Some "meeting.wav";
                            content := List.repeat Byte.x00 2000 |}) loaded))
  = Some true.
Proof.
  destruct (temp_file_protocol (flt := fussy) (ext := demo) Weak
              (PostDiarize {| filename := Some "meeting.wav";
                              content := List.repeat Byte.x00 2000 |}) loaded)
    as (left_behind & H & Hiff).
  rewrite H. f_equal. apply Hiff.
  exists {| filename := Some "meeting.wav"; content := List.repeat Byte.x00 2000 |},
         "[Errno 28] No space left on device".
  split; [reflexivity|]. split; [vm_compute; reflexivity|].
  right. split; [reflexivity|discriminate].
Defined.

Lemma embed_errors_witness :
  embed (flt := fussy) (ext := demo)
    {| filename := Some "voice.wav"; content := List.repeat Byte.x00 2000 |} loaded
  = (Raise (Exception "[Errno 28] No space left on device"), loaded,
     [EvRead; EvTmpCreate ".wav"]).
Proof.
  destruct (embed_errors (flt := fussy) (ext := demo)
              {| filename := Some "voice.wav";
                 content := List.repeat Byte.x00 2000 |} loaded)
    as (_ & _ & H).
  destruct (H 1%nat eq_refl eq_refl) as (_ & Hw & _).
  apply Hw; vm_compute; reflexivity.
Defined.

Lemma diarize_errors_witness :
  diarize (flt := fussy) (ext := demo)
    (upload ("a." ++ repeat_char "b" 300)) loaded
  = (Raise (Exception "[Errno 36] File name too long"), loaded, [EvRead]).
Proof.
  destruct (diarize_errors (flt := fussy) (ext := demo)
              (upload ("a." ++ repeat_char "b" 300)) loaded)
    as (_ & H).
  destruct (H 2%nat eq_refl) as (Hc & _).
  apply Hc. vm_compute. reflexivity.
Defined.

Lemma from_pretrained_iff_token_witness :
  ~ In (EvFromPretrained "hf_secret")
      (trace (_load_models (flt := no_pyannote) (ext := demo)
                token_environ module_init))
  /\ _load_models (flt := no_pyannote) (ext := demo) token_environ module_init
     = (Return tt, embedding_only,
        [EvFromHparams; EvPrint "[speaker-service] ECAPA-TDNN loaded";
         EvPrint "[speaker-service] pyannote failed to load: No module named 'pyannote'"]).
Proof.
  destruct (from_pretrained_iff_token (flt := no_pyannote) (ext := demo)
              token_environ module_init "hf_secret") as (Hiff & Hfail).
  split.
  - intros H. apply Hiff in H. destruct H as (_ & _ & _ & H). discriminate H.
  - apply (Hfail "No module named 'pyannote'" 1%nat); try reflexivity. discriminate.
Defined.


Lemma compare_threshold_inclusive_witness :
  let a := [f64_of_Z (2 ^ 30); f64_of_Z 0] in
  let b := [f64_of_Z 4; f64_of_Z 3] in
  cosine_is a b (4 # 5)
  /\ cos_sim Legacy (List.map to_f32 a) (List.map to_f32 b) = THRESHOLD
  /\ exists resp,
       result (compare Legacy {| embedding_a := a; embedding_b := b |} loaded)
       = Return resp
       /\ is_match resp = true /\ similarity resp = THRESHOLD.
Proof.
  intros a b.
  assert (Hc : cos_sim Legacy (List.map to_f32 a) (List.map to_f32 b) = THRESHOLD)
    by (vm_compute; reflexivity).
  split; [|split; [exact Hc|]].
  - unfold cosine_is. repeat split; vm_compute; (reflexivity || discriminate).
  - destruct (compare_threshold_inclusive Legacy a b loaded eq_refl)
      as (resp & Hr & _ & Hb & _).
    exists resp. split; [exact Hr|]. exact (Hb Hc).
Defined.
